(** * TidyTabs: the expense-settlement function [calculateExpenseSplit]

    A shallow embedding of [calculateExpenseSplit] from
    [src/firebase/nativeConfig.js] together with the parts of the JavaScript
    runtime it relies on: IEEE-754 binary64 numbers, strings as sequences of
    UTF-16 code units, ordinary objects with their property order, and the
    [Math] and [Number.prototype] builtins the function calls. *)

From Stdlib Require Import Reals Lra.
From Stdlib Require Import String Ascii ZArith List Bool Lia Permutation Sorted.
From Stdlib Require Import SpecFloat.
From Stdlib Require DecimalPos DecimalN.
Import ListNotations.
Local Open Scope Z_scope.

(** ** JavaScript numbers: IEEE-754 binary64 *)

Module JSNum.

Definition prec : Z := 53.
Definition emax : Z := 1024.

(** A JavaScript number is a binary64 value; [spec_float] is the Standard
    Library's specification of them (without NaN payloads, which JavaScript
    cannot observe either). *)
Definition number : Type := spec_float.

Definition valid (x : number) : bool := valid_binary prec emax x.

Definition NaN : number := S754_nan.
Definition pzero : number := S754_zero false.
Definition nzero : number := S754_zero true.
Definition pinf : number := S754_infinity false.
Definition ninf : number := S754_infinity true.

(** The value of an integer as a number (round to nearest even). *)
Definition of_Z (z : Z) : number := binary_normalize prec emax z 0 false.

Definition add (x y : number) : number := SFadd prec emax x y.
Definition sub (x y : number) : number := SFsub prec emax x y.
Definition mul (x y : number) : number := SFmul prec emax x y.
Definition div (x y : number) : number := SFdiv prec emax x y.
Definition neg (x : number) : number := SFopp x.

(** [x < y] and [x > y] of JavaScript: false as soon as one side is NaN. *)
Definition lt (x y : number) : bool := SFltb x y.
Definition gt (x y : number) : bool := SFltb y x.

Definition is_nan (x : number) : bool :=
  match x with S754_nan => true | _ => false end.

(** The literals of the source. [0.01] denotes the binary64 value nearest to
    1/100, which is 5764607523034235 * 2^-59. *)
Definition lit_0 : number := pzero.
Definition lit_100 : number := of_Z 100.
Definition lit_0_01 : number := S754_finite false 5764607523034235 (-59).

(** ToBoolean on a number: [0], [-0] and [NaN] are falsy. *)
Definition truthy (x : number) : bool :=
  match x with
  | S754_zero _ | S754_nan => false
  | _ => true
  end.

(** [Math.abs]. *)
Definition Math_abs (x : number) : number := SFabs x.

(** [Math.min] of two arguments: NaN if either is NaN, and [-0] is smaller
    than [+0]. *)
Definition Math_min (x y : number) : number :=
  match x, y with
  | S754_nan, _ | _, S754_nan => S754_nan
  | _, _ =>
      if lt x y then x
      else if lt y x then y
      else match x with S754_zero true => x | _ => y end
  end.

(** [Math.round]: the integer nearest to [x], ties towards +infinity, that is
    [floor (x + 1/2)] computed exactly; the sign of a zero result is the sign
    of [x]. A finite number with a non-negative exponent is an integer. *)
Definition Math_round (x : number) : number :=
  match x with
  | S754_finite s m e =>
      if 0 <=? e then x
      else
        let n := (2 * cond_Zopp s (Zpos m) + 2 ^ (- e)) / 2 ^ (1 - e) in
        if n =? 0 then S754_zero s else of_Z n
  | _ => x
  end.

End JSNum.

(** ** JavaScript strings: sequences of UTF-16 code units *)

Module JSStr.

Definition code_unit : Type := N.
Definition jsstring : Type := list code_unit.

(** A literal of the source whose characters are all below U+0100. *)
Fixpoint lit (s : string) : jsstring :=
  match s with
  | EmptyString => []
  | String a r => N_of_ascii a :: lit r
  end.

Fixpoint eqb (s t : jsstring) : bool :=
  match s, t with
  | [], [] => true
  | a :: s', b :: t' => N.eqb a b && eqb s' t'
  | _, _ => false
  end.

(** [arr.includes(x)] on an array of strings ([SameValueZero] on strings is
    equality of the code-unit sequences). *)
Definition includes (l : list jsstring) (s : jsstring) : bool :=
  existsb (eqb s) l.

(** ToBoolean on a string: only the empty string is falsy. *)
Definition truthy (s : jsstring) : bool :=
  match s with [] => false | _ => true end.

(** The code units [String.prototype.trim] strips: ECMAScript's WhiteSpace
    (TAB, VT, FF, SP, NBSP, ZWNBSP and category Zs) and LineTerminator
    (LF, CR, LS, PS). *)
Definition is_white_space (c : code_unit) : bool :=
  existsb (N.eqb c)
    [9; 10; 11; 12; 13; 32; 160; 5760; 8192; 8193; 8194; 8195; 8196; 8197;
     8198; 8199; 8200; 8201; 8202; 8232; 8233; 8239; 8287; 12288; 65279]%N.

Fixpoint trim_start (s : jsstring) : jsstring :=
  match s with
  | c :: s' => if is_white_space c then trim_start s' else s
  | [] => []
  end.

Definition trim (s : jsstring) : jsstring :=
  rev (trim_start (rev (trim_start s))).

(** A name that is empty or made of white space only. *)
Definition whitespace_only (s : jsstring) : bool := forallb is_white_space s.

(** Decimal digits, most significant first. *)
Fixpoint uint_units (d : Decimal.uint) : jsstring :=
  match d with
  | Decimal.Nil => []
  | Decimal.D0 r => 48%N :: uint_units r
  | Decimal.D1 r => 49%N :: uint_units r
  | Decimal.D2 r => 50%N :: uint_units r
  | Decimal.D3 r => 51%N :: uint_units r
  | Decimal.D4 r => 52%N :: uint_units r
  | Decimal.D5 r => 53%N :: uint_units r
  | Decimal.D6 r => 54%N :: uint_units r
  | Decimal.D7 r => 55%N :: uint_units r
  | Decimal.D8 r => 56%N :: uint_units r
  | Decimal.D9 r => 57%N :: uint_units r
  end.

(** The decimal representation of a natural number, ["0"] for zero. *)
Definition decimal (n : N) : jsstring := uint_units (N.to_uint n).

(** The value of a digit in [radix], for radices up to 16. *)
Definition digit_val (radix : N) (c : code_unit) : option N :=
  let d :=
    if (N.leb 48 c && N.leb c 57)%bool then Some (N.sub c 48)
    else if (N.leb 97 c && N.leb c 102)%bool then Some (N.sub c 87)
    else if (N.leb 65 c && N.leb c 70)%bool then Some (N.sub c 55)
    else None in
  match d with
  | Some v => if N.ltb v radix then Some v else None
  | None => None
  end.

(** Reads the longest prefix of digits in [radix]: their value, how many were
    read, and the rest. *)
Fixpoint read_digits (radix : N) (s : jsstring) (acc : N) (cnt : nat)
  : N * nat * jsstring :=
  match s with
  | c :: s' =>
      match digit_val radix c with
      | Some d => read_digits radix s' (N.add (N.mul acc radix) d) (S cnt)
      | None => (acc, cnt, s)
      end
  | [] => (acc, cnt, s)
  end.

End JSStr.

(** ** Conversions between numbers and strings *)

Module JSConv.
Import JSNum JSStr.

(** *** [Number.prototype.toFixed(2)] *)

(** The integer [n] for which [n / 100 - x] is as close to zero as possible,
    the larger one if there are two, for [x = m * 2^e]: [floor (100 x + 1/2)]. *)
Definition hundredths (m : positive) (e : Z) : Z :=
  if 0 <=? e then 100 * Zpos m * 2 ^ e
  else (200 * Zpos m + 2 ^ (- e)) / 2 ^ (1 - e).

(** The digits of [n], padded with zeros to three digits at least, with a
    point before the last two. *)
Definition fixed2 (n : N) : jsstring :=
  let d := decimal n in
  let d := repeat 48%N (3 - length d) ++ d in
  firstn (length d - 2) d ++ 46%N :: skipn (length d - 2) d.

(** [x >= 10^21]; 10^21 is a binary64 value. *)
Definition ge_1e21 (x : number) : bool := SFleb (of_Z (10 ^ 21)) x.

(** [Number::toString] on an integer [X >= 10^21] held in the number [x]:
    the fewest digits [s] (there are [k] of them) such that
    [s * 10^(n-k)] converts to [x], the closest to [X] among those, an even
    [s] on a tie; printed in exponent form since [n > 21]. *)
Definition round_trips (x : number) (v : Z) : bool := SFeqb (of_Z v) x.

Definition candidates (x : number) (X D k : Z) : list (Z * Z) :=
  flat_map (fun n =>
    let p := 10 ^ (n - k) in
    filter (fun ns : Z * Z =>
              let s := snd ns in
              (10 ^ (k - 1) <=? s) && (s <? 10 ^ k) && round_trips x (s * p))
           [(n, X / p); (n, X / p + 1)])
    [D; D + 1].

Definition closer (X k : Z) (a b : Z * Z) : Z * Z :=
  let da := Z.abs (snd a * 10 ^ (fst a - k) - X) in
  let db := Z.abs (snd b * 10 ^ (fst b - k) - X) in
  if da <? db then a
  else if db <? da then b
  else if Z.even (snd a) then a else b.

Fixpoint shortest (fuel : nat) (x : number) (X D k : Z) : option (Z * Z * Z) :=
  match fuel with
  | O => None
  | S fuel' =>
      match candidates x X D k with
      | [] => shortest fuel' x X D (k + 1)
      | c :: cs =>
          let best := fold_left (closer X k) cs c in
          Some (fst best, k, snd best)
      end
  end.

Definition toString_large (m : positive) (e : Z) : jsstring :=
  let X := Zpos m * 2 ^ e in
  let D := Z.of_nat (length (decimal (Z.to_N X))) in
  match shortest 17 (S754_finite false m e) X D 1 with
  | Some (n, k, s) =>
      let ds := decimal (Z.to_N s) in
      let ex := lit "e+" ++ decimal (Z.to_N (n - 1)) in
      match ds with
      | d :: (_ :: _) as r => d :: 46%N :: r ++ ex
      | _ => ds ++ ex
      end
  | None => []
  end.

Definition toFixed2 (x : number) : jsstring :=
  match x with
  | S754_nan => lit "NaN"
  | S754_infinity false => lit "Infinity"
  | S754_infinity true => lit "-Infinity"
  | S754_zero _ => fixed2 0
  | S754_finite s m e =>
      (if s then lit "-" else []) ++
      (if ge_1e21 (S754_finite false m e) then toString_large m e
       else fixed2 (Z.to_N (hundredths m e)))
  end.

End JSConv.

(** ** JavaScript values held by an expense record *)

Module JSVal.
Import JSNum JSStr.

(** The primitive values a stored expense field can hold. *)
Inductive value : Type :=
  | Undefined
  | Null
  | Boolean (b : bool)
  | Number (x : number)
  | String (s : jsstring).

(** ToBoolean, as applied by [!v]. *)
Definition truthy (v : value) : bool :=
  match v with
  | Undefined | Null => false
  | Boolean b => b
  | Number x => JSNum.truthy x
  | String s => JSStr.truthy s
  end.

(** *** StringToNumber *)

(** The number nearest to [(-1)^sg * n * 10^e10]. *)
Definition of_decimal (sg : bool) (n : N) (e10 : Z) : number :=
  match n with
  | N0 => S754_zero sg
  | Npos p =>
      if 0 <=? e10 then
        binary_normalize prec emax (cond_Zopp sg (Zpos p * 10 ^ e10)) 0 false
      else
        SFdiv prec emax (S754_finite sg p 0)
              (S754_finite false (Z.to_pos (10 ^ (- e10))) 0)
  end.

(** ExponentPart: [e] or [E], an optional sign, and one digit at least. *)
Definition read_exponent (s : jsstring) : option Z :=
  match s with
  | [] => Some 0
  | c :: s' =>
      if (c =? 101)%N || (c =? 69)%N then
        let '(sg, s'') :=
          match s' with
          | 43%N :: r => (false, r)
          | 45%N :: r => (true, r)
          | _ => (false, s')
          end in
        match read_digits 10 s'' 0 0 with
        | (_, O, _) => None
        | (v, _, []) => Some (cond_Zopp sg (Z.of_N v))
        | _ => None
        end
      else None
  end.

(** StrUnsignedDecimalLiteral. *)
Definition unsigned_decimal (sg : bool) (s : jsstring) : number :=
  if JSStr.eqb s (lit "Infinity") then S754_infinity sg
  else
    let '(ip, ni, r) := read_digits 10 s 0 0 in
    let '(fp, nf, r') :=
      match r with
      | 46%N :: r1 => read_digits 10 r1 ip 0
      | _ => (ip, O, r)
      end in
    match ni, nf with
    | O, O => NaN
    | _, _ =>
        match read_exponent r' with
        | Some ex => of_decimal sg fp (ex - Z.of_nat nf)
        | None => NaN
        end
    end.

Definition non_decimal (radix : N) (s : jsstring) : number :=
  match read_digits radix s 0 0 with
  | (_, O, _) => NaN
  | (v, _, []) => of_Z (Z.of_N v)
  | _ => NaN
  end.

Definition StringToNumber (str : jsstring) : number :=
  match trim str with
  | [] => pzero
  | 48%N :: (120%N | 88%N) :: r => non_decimal 16 r
  | 48%N :: (111%N | 79%N) :: r => non_decimal 8 r
  | 48%N :: (98%N | 66%N) :: r => non_decimal 2 r
  | 43%N :: r => unsigned_decimal false r
  | 45%N :: r => unsigned_decimal true r
  | r => unsigned_decimal false r
  end.

(** [Number(v)], that is ToNumber on a primitive. *)
Definition ToNumber (v : value) : number :=
  match v with
  | Undefined => NaN
  | Null => pzero
  | Boolean b => if b then of_Z 1 else pzero
  | Number x => x
  | String s => StringToNumber s
  end.

End JSVal.

(** ** Ordinary objects used as maps, and arrays *)

Module JSObj.
Import JSNum JSStr.

Section Obj.
Context {V : Type}.

(** The own data properties of an object created by [{}], in creation
    order; keys are unique. *)
Definition obj : Type := list (jsstring * V).

Definition empty : obj := [].

Definition proto_key : jsstring := lit "__proto__".

(** [o[k]] when [k] is an own property. *)
Fixpoint own_get (k : jsstring) (o : obj) : option V :=
  match o with
  | [] => None
  | (k', v) :: o' => if JSStr.eqb k k' then Some v else own_get k o'
  end.

Fixpoint put (k : jsstring) (v : V) (o : obj) : obj :=
  match o with
  | [] => [(k, v)]
  | (k', v') :: o' =>
      if JSStr.eqb k k' then (k', v) :: o' else (k', v') :: put k v o'
  end.

(** [o[k] = v] for a primitive [v]: an existing own property is overwritten
    in place and a new one is created last; the key [__proto__] reaches the
    setter inherited from [Object.prototype], which ignores a value that is
    neither an object nor [null]. *)
Definition set (k : jsstring) (v : V) (o : obj) : obj :=
  if JSStr.eqb k proto_key then o else put k v o.

(** An array index is a canonical numeric string below 2^32 - 1. *)
Definition array_index (k : jsstring) : option N :=
  match read_digits 10 k 0 0 with
  | (v, S _, []) =>
      if JSStr.eqb (decimal v) k && N.leb v 4294967294 then Some v else None
  | _ => None
  end.

Fixpoint insert_index (x : N * (jsstring * V)) (l : list (N * (jsstring * V)))
  : list (N * (jsstring * V)) :=
  match l with
  | [] => [x]
  | y :: l' => if N.ltb (fst y) (fst x) then y :: insert_index x l' else x :: l
  end.

Definition index_props (o : obj) : list (N * (jsstring * V)) :=
  flat_map (fun kv => match array_index (fst kv) with
                      | Some i => [(i, kv)]
                      | None => []
                      end) o.

Definition is_index (k : jsstring) : bool :=
  match array_index k with Some _ => true | None => false end.

(** The own properties in the order of OrdinaryOwnPropertyKeys: array
    indices in ascending numeric order, then the other strings in creation
    order. *)
Definition entries (o : obj) : list (jsstring * V) :=
  map snd (fold_right insert_index [] (index_props o))
  ++ filter (fun kv => negb (is_index (fst kv))) o.

Definition Object_keys (o : obj) : list jsstring := map fst (entries o).
Definition Object_values (o : obj) : list V := map snd (entries o).

End Obj.
Arguments obj : clear implicits.

(** [arr.sort(cmp)]: the sort is stable, and [after a b] says that the
    comparator is positive on [(a, b)], so that [a] goes behind [b]. *)
Section Sort.
Context {A : Type} (after : A -> A -> bool).

Fixpoint insert_sorted (x : A) (l : list A) : list A :=
  match l with
  | [] => [x]
  | y :: l' => if after x y then y :: insert_sorted x l' else x :: l
  end.

Definition sort (l : list A) : list A := fold_right insert_sorted [] l.

End Sort.

End JSObj.

(** ** The settlement function *)

Module Split.
Import JSNum JSStr JSConv JSVal JSObj.

(** The two fields of an expense record the function reads. *)
Record expense : Type := { payer : value; amount : value }.

Record transaction : Type :=
  { from : jsstring; to : jsstring; tx_amount : jsstring }.

(** An element of [creditors] or [debtors]. *)
Record entry : Type := { name : jsstring; balance : number }.

(** [member && member.trim() !== ""] *)
Definition valid_member (member : jsstring) : bool :=
  JSStr.truthy member && negb (JSStr.eqb (trim member) []).

(** [validMembers.forEach(member => { totalSpent[member] = 0; })] *)
Definition init_totals (validMembers : list jsstring) : obj number :=
  fold_left (fun totalSpent member => set member lit_0 totalSpent)
            validMembers empty.

(** The body of [expenses.forEach]. A payer that passes the guard is a valid
    member, so [totalSpent[payer]] is an own property unless the payer is
    [__proto__]: then the read gives [Object.prototype], [+] concatenates
    strings, and the assignment is ignored. *)
Definition add_expense (validMembers : list jsstring)
    (totalSpent : obj number) (e : expense) : obj number :=
  match payer e with
  | String p =>
      if negb (JSStr.truthy p) || negb (includes validMembers p)
         || negb (JSVal.truthy (amount e))
      then totalSpent
      else
        match own_get p totalSpent with
        | Some x =>
            set p (add (if JSNum.truthy x then x else lit_0)
                       (ToNumber (amount e))) totalSpent
        | None => totalSpent
        end
  | _ => totalSpent
  end.

(** [validMembers.forEach(member => { balances[member] = ...; })]; for
    [__proto__] the difference is NaN and the assignment is ignored. *)
Definition set_balance (totalSpent : obj number) (fairShare : number)
    (balances : obj number) (member : jsstring) : obj number :=
  set member
      (sub (match own_get member totalSpent with
            | Some x => x
            | None => NaN
            end) fairShare)
      balances.

Definition mk_entry (kv : jsstring * number) : entry :=
  {| name := fst kv; balance := snd kv |}.

(** [(a, b) => b.balance - a.balance] is positive. *)
Definition creditor_after (a b : entry) : bool :=
  gt (sub (balance b) (balance a)) lit_0.

(** [(a, b) => a.balance - b.balance] is positive. *)
Definition debtor_after (a b : entry) : bool :=
  gt (sub (balance a) (balance b)) lit_0.

Record state : Type :=
  { creditors : list entry; debtors : list entry;
    transactions : list transaction }.

(** [Math.round(Math.min(creditor.balance, -debtor.balance) * 100) / 100] *)
Definition settle_amount (creditor debtor : entry) : number :=
  div (Math_round (mul (Math_min (balance creditor) (neg (balance debtor)))
                       lit_100))
      lit_100.

(** One pass through the body of the [while] loop, [creditor] and [debtor]
    being the first elements of the two arrays. *)
Definition step (creditor debtor : entry) (cs ds : list entry)
    (txs : list transaction) : state :=
  let amount := settle_amount creditor debtor in
  let txs :=
    if gt amount lit_0 then
      txs ++ [{| from := name debtor; to := name creditor;
                 tx_amount := toFixed2 amount |}]
    else txs in
  let creditor :=
    {| name := name creditor; balance := sub (balance creditor) amount |} in
  let debtor :=
    {| name := name debtor; balance := add (balance debtor) amount |} in
  {| creditors :=
       if lt (Math_abs (balance creditor)) lit_0_01 then cs
       else creditor :: cs;
     debtors :=
       if lt (Math_abs (balance debtor)) lit_0_01 then ds
       else debtor :: ds;
     transactions := txs |}.

(** The [while] loop, run for [fuel] passes at most; [None] when the loop
    has not ended by then. *)
Fixpoint loop (fuel : nat) (st : state) : option (list transaction) :=
  match creditors st, debtors st with
  | creditor :: cs, debtor :: ds =>
      match fuel with
      | O => None
      | S fuel' => loop fuel' (step creditor debtor cs ds (transactions st))
      end
  | _, _ => Some (transactions st)
  end.

Definition validMembers_of (members : list jsstring) : list jsstring :=
  filter valid_member members.

Definition totalSpent_of (expenses : list expense)
    (validMembers : list jsstring) : obj number :=
  fold_left (add_expense validMembers) expenses (init_totals validMembers).

Definition totalExpenses_of (totalSpent : obj number) : number :=
  fold_left add (Object_values totalSpent) lit_0.

Definition fairShare_of (totalSpent : obj number)
    (validMembers : list jsstring) : number :=
  div (totalExpenses_of totalSpent)
      (of_Z (Z.of_nat (length validMembers))).

Definition balances_of (totalSpent : obj number)
    (validMembers : list jsstring) : obj number :=
  fold_left (set_balance totalSpent (fairShare_of totalSpent validMembers))
            validMembers empty.

(** The members pushed to [creditors] and to [debtors], in the order of
    [Object.keys(balances)]. *)
Definition creditors_of (balances : obj number) : list entry :=
  map mk_entry (filter (fun kv => gt (snd kv) lit_0) (entries balances)).

Definition debtors_of (balances : obj number) : list entry :=
  map mk_entry (filter (fun kv => lt (snd kv) lit_0) (entries balances)).

Definition initial_state (balances : obj number) : state :=
  {| creditors := sort creditor_after (creditors_of balances);
     debtors := sort debtor_after (debtors_of balances);
     transactions := [] |}.

(** [calculateExpenseSplit(expenses, members)]; [None] stands for an
    argument that is [null] or [undefined], and for a result that [fuel]
    passes of the loop do not reach. *)
Definition calculateExpenseSplit (fuel : nat)
    (expenses : option (list expense)) (members : option (list jsstring))
  : option (list transaction) :=
  match expenses, members with
  | Some expenses, Some members =>
      if (length expenses =? 0)%nat || (length members =? 0)%nat then Some []
      else
        let validMembers := validMembers_of members in
        if (length validMembers =? 0)%nat then Some []
        else
          let totalSpent := totalSpent_of expenses validMembers in
          let balances := balances_of totalSpent validMembers in
          loop fuel (initial_state balances)
  | _, _ => Some []
  end.

End Split.

(** ** Notions used to state the properties *)

Module Notions.
Import JSNum JSStr JSConv JSVal JSObj Split.

(** The number of bits that rounding drops from the mantissa [m] at the
    exponent [e]. *)
Definition shift_of (m e : Z) : Z :=
  Z.max 0 (fexp prec emax (Zdigits2 m + e) - e).

(** The end of [binary_round_aux]: the rounded mantissa [m2] at the exponent
    [e1] is renormalised and checked for overflow. *)
Definition round_result (s : bool) (m2 e1 : Z) : spec_float :=
  let q := shift_of m2 e1 in
  match m2 / 2 ^ q with
  | Z0 => S754_zero s
  | Zpos m3 =>
      if e1 + q <=? emax - prec then S754_finite s m3 (e1 + q)
      else S754_infinity s
  | Zneg _ => S754_nan
  end.

(** The real number a finite number stands for; zero for the others. *)
Definition bpow (e : Z) : R := powerRZ 2 e.

Definition B2R (x : number) : R :=
  match x with
  | S754_finite s m e => (IZR (cond_Zopp s (Zpos m)) * bpow e)%R
  | _ => 0%R
  end.

Definition is_finite (x : number) : bool :=
  match x with
  | S754_finite _ _ _ | S754_zero _ => true
  | _ => false
  end.

(** Every property value of an object satisfies [P]. *)
Definition all_values (P : number -> Prop) (o : obj number) : Prop :=
  forall k v, In (k, v) o -> P v.

(** The guard [!payer || !validMembers.includes(payer) || !amount]. *)
Definition skipped (validMembers : list jsstring) (e : expense) : bool :=
  match payer e with
  | String p =>
      negb (JSStr.truthy p) || negb (includes validMembers p)
      || negb (JSVal.truthy (amount e))
  | _ => true
  end.

(** Strings of the form [d...d.dd]: an integer part of one decimal digit
    at least, a point, and exactly two decimal digits. *)
Definition is_digit (c : code_unit) : bool := N.leb 48 c && N.leb c 57.

Definition split_fixed2 (s : jsstring)
  : option (jsstring * code_unit * code_unit) :=
  match rev s with
  | d2 :: d1 :: c :: ip => if N.eqb c 46 then Some (rev ip, d1, d2) else None
  | _ => None
  end.

Definition is_fixed2 (s : jsstring) : bool :=
  match split_fixed2 s with
  | Some (ip, d1, d2) =>
      match ip with [] => false | _ => true end
      && forallb is_digit ip && is_digit d1 && is_digit d2
  | None => false
  end.

(** The value such a string denotes, in hundredths. *)
Definition parse_fixed2 (s : jsstring) : option N :=
  match split_fixed2 s with
  | Some (ip, d1, d2) =>
      if is_fixed2 s
      then Some (fst (fst (read_digits 10 (ip ++ [d1; d2]) 0 0)))
      else None
  | None => None
  end.



(** The loop again, returning the whole final state. *)
Fixpoint loop_state (fuel : nat) (st : state) : option state :=
  match creditors st, debtors st with
  | creditor :: cs, debtor :: ds =>
      match fuel with
      | O => None
      | S fuel' =>
          loop_state fuel' (step creditor debtor cs ds (transactions st))
      end
  | _, _ => Some st
  end.

End Notions.

(** ** The function over a store of mutable objects

    The same function once more, now with the arrays and objects it works
    on kept in a store and reached through references, as the JavaScript
    code does: the two arguments are references to arrays that the caller
    keeps, [push], [shift], [sort] and the assignments to [balance] and to
    the properties of [totalSpent] and [balances] update the store in
    place, and [creditor] and [debtor] are aliases of the first elements
    of the two arrays. *)

Module Imp.
Import JSNum JSStr JSConv JSVal JSObj Split.

Definition loc : Type := nat.

Inductive cell : Type :=
  | ArrStr (l : list jsstring)
  | ArrExp (l : list expense)
  | ObjNum (o : obj number)
  | ObjEntry (e : entry)
  | ArrRef (l : list loc)
  | ArrTx (l : list transaction).

Definition heap : Type := list cell.

(** A computation on the store; [None] when it is stuck on a reference of
    the wrong kind or out of fuel. *)
Definition M (A : Type) : Type := heap -> option (A * heap).

Definition ret {A} (a : A) : M A := fun h => Some (a, h).

Definition bind {A B} (m : M A) (f : A -> M B) : M B :=
  fun h => match m h with
           | Some (a, h') => f a h'
           | None => None
           end.

Definition fail {A} : M A := fun _ => None.

Notation "x <- m ;; k" := (bind m (fun x => k))
  (at level 61, m at next level, right associativity).
Notation "m ;; k" := (bind m (fun _ => k))
  (at level 61, right associativity).

Definition alloc (c : cell) : M loc :=
  fun h => Some (length h, h ++ [c]).

Definition read (l : loc) : M cell :=
  fun h => match nth_error h l with
           | Some c => Some (c, h)
           | None => None
           end.

Fixpoint update (h : heap) (l : loc) (c : cell) : heap :=
  match h, l with
  | [], _ => []
  | _ :: h', O => c :: h'
  | c' :: h', S l' => c' :: update h' l' c
  end.

Definition write (l : loc) (c : cell) : M unit :=
  fun h => if (l <? length h)%nat then Some (tt, update h l c) else None.

Definition read_strs (a : loc) : M (list jsstring) :=
  c <- read a ;; match c with ArrStr l => ret l | _ => fail end.

Definition read_exps (a : loc) : M (list expense) :=
  c <- read a ;; match c with ArrExp l => ret l | _ => fail end.

Definition read_obj (o : loc) : M (obj number) :=
  c <- read o ;; match c with ObjNum x => ret x | _ => fail end.

Definition read_entry (r : loc) : M entry :=
  c <- read r ;; match c with ObjEntry e => ret e | _ => fail end.

Definition read_refs (a : loc) : M (list loc) :=
  c <- read a ;; match c with ArrRef l => ret l | _ => fail end.

Definition read_txs (a : loc) : M (list transaction) :=
  c <- read a ;; match c with ArrTx l => ret l | _ => fail end.

(** [a.forEach(f)]: the length is read once, and each element is read from
    the array when its turn comes. *)
Fixpoint forEach_str_from (a : loc) (f : jsstring -> M unit) (i n : nat)
  : M unit :=
  match n with
  | O => ret tt
  | S n' =>
      l <- read_strs a ;;
      match nth_error l i with Some x => f x | None => ret tt end ;;
      forEach_str_from a f (S i) n'
  end.

Definition forEach_str (a : loc) (f : jsstring -> M unit) : M unit :=
  l <- read_strs a ;; forEach_str_from a f 0 (length l).

Fixpoint forEach_exp_from (a : loc) (f : expense -> M unit) (i n : nat)
  : M unit :=
  match n with
  | O => ret tt
  | S n' =>
      l <- read_exps a ;;
      match nth_error l i with Some x => f x | None => ret tt end ;;
      forEach_exp_from a f (S i) n'
  end.

Definition forEach_exp (a : loc) (f : expense -> M unit) : M unit :=
  l <- read_exps a ;; forEach_exp_from a f 0 (length l).

(** [o[k] = v] *)
Definition obj_set (o : loc) (k : jsstring) (v : number) : M unit :=
  x <- read_obj o ;; write o (ObjNum (set k v x)).

(** [arr.push(r)] *)
Definition push_ref (a : loc) (r : loc) : M unit :=
  l <- read_refs a ;; write a (ArrRef (l ++ [r])).

Definition push_tx (a : loc) (t : transaction) : M unit :=
  l <- read_txs a ;; write a (ArrTx (l ++ [t])).

(** [arr.shift()] *)
Definition shift_ref (a : loc) : M unit :=
  l <- read_refs a ;; write a (ArrRef (tl l)).

(** The entries that an array of references reaches, first to last. *)
Fixpoint read_entries (refs : list loc) : M (list entry) :=
  match refs with
  | [] => ret []
  | r :: refs' =>
      e <- read_entry r ;; es <- read_entries refs' ;; ret (e :: es)
  end.

(** [arr.sort(cmp)] on an array of references to entries: the array is
    sorted in place. *)
Definition sort_refs (a : loc) (after : entry -> entry -> bool) : M unit :=
  l <- read_refs a ;;
  es <- read_entries l ;;
  write a (ArrRef (map fst (sort (fun x y => after (snd x) (snd y))
                                 (combine l es)))).

(** The body of [expenses.forEach]. *)
Definition add_expense (validMembers totalSpent : loc) (e : expense)
  : M unit :=
  match payer e with
  | String p =>
      vm <- read_strs validMembers ;;
      if negb (JSStr.truthy p) || negb (includes vm p)
         || negb (JSVal.truthy (amount e))
      then ret tt
      else
        ts <- read_obj totalSpent ;;
        match own_get p ts with
        | Some x =>
            obj_set totalSpent p
              (add (if JSNum.truthy x then x else lit_0)
                   (ToNumber (amount e)))
        | None => ret tt
        end
  | _ => ret tt
  end.

(** The body of the loop over [Object.keys(balances)]. *)
Definition classify (balances creditors debtors : loc) (member : jsstring)
  : M unit :=
  b <- read_obj balances ;;
  match own_get member b with
  | Some v =>
      if gt v lit_0 then
        r <- alloc (ObjEntry {| name := member; balance := v |}) ;;
        push_ref creditors r
      else if lt v lit_0 then
        r <- alloc (ObjEntry {| name := member; balance := v |}) ;;
        push_ref debtors r
      else ret tt
  | None => ret tt
  end.

(** The [while] loop. *)
Fixpoint while_loop (fuel : nat) (creditors debtors transactions : loc)
  : M unit :=
  cs <- read_refs creditors ;;
  ds <- read_refs debtors ;;
  match cs, ds with
  | creditor :: _, debtor :: _ =>
      match fuel with
      | O => fail
      | S fuel' =>
          c <- read_entry creditor ;;
          d <- read_entry debtor ;;
          let amount := settle_amount c d in
          (if gt amount lit_0
           then push_tx transactions
                  {| from := name d; to := name c;
                     tx_amount := toFixed2 amount |}
           else ret tt) ;;
          c <- read_entry creditor ;;
          write creditor
            (ObjEntry {| name := name c;
                         balance := sub (balance c) amount |}) ;;
          d <- read_entry debtor ;;
          write debtor
            (ObjEntry {| name := name d;
                         balance := add (balance d) amount |}) ;;
          c <- read_entry creditor ;;
          (if lt (Math_abs (balance c)) lit_0_01
           then shift_ref creditors else ret tt) ;;
          d <- read_entry debtor ;;
          (if lt (Math_abs (balance d)) lit_0_01
           then shift_ref debtors else ret tt) ;;
          while_loop fuel' creditors debtors transactions
      end
  | _, _ => ret tt
  end.

(** [calculateExpenseSplit(expenses, members)] on references; the result is
    a reference to the array of transactions. *)
Definition calculateExpenseSplit (fuel : nat) (expenses members : option loc)
  : M loc :=
  match expenses, members with
  | Some expenses, Some members =>
      es <- read_exps expenses ;;
      ms <- read_strs members ;;
      if (length es =? 0)%nat || (length ms =? 0)%nat then alloc (ArrTx [])
      else
        validMembers <- alloc (ArrStr (filter valid_member ms)) ;;
        vm <- read_strs validMembers ;;
        if (length vm =? 0)%nat then alloc (ArrTx [])
        else
          totalSpent <- alloc (ObjNum empty) ;;
          forEach_str validMembers
            (fun member => obj_set totalSpent member lit_0) ;;
          forEach_exp expenses (add_expense validMembers totalSpent) ;;
          ts <- read_obj totalSpent ;;
          let totalExpenses := fold_left add (Object_values ts) lit_0 in
          vm <- read_strs validMembers ;;
          let fairSharePerPerson :=
            div totalExpenses (of_Z (Z.of_nat (length vm))) in
          balances <- alloc (ObjNum empty) ;;
          forEach_str validMembers
            (fun member =>
               ts <- read_obj totalSpent ;;
               obj_set balances member
                 (sub (match own_get member ts with
                       | Some x => x
                       | None => NaN
                       end) fairSharePerPerson)) ;;
          transactions <- alloc (ArrTx []) ;;
          creditors <- alloc (ArrRef []) ;;
          debtors <- alloc (ArrRef []) ;;
          b <- read_obj balances ;;
          keys <- alloc (ArrStr (Object_keys b)) ;;
          forEach_str keys (classify balances creditors debtors) ;;
          sort_refs creditors creditor_after ;;
          sort_refs debtors debtor_after ;;
          while_loop fuel creditors debtors transactions ;;
          ret transactions
  | _, _ => alloc (ArrTx [])
  end.

(** A store [h'] extends [h] when every object of [h] is in [h'], at the
    same address and unchanged. *)
Definition extends (h h' : heap) : Prop :=
  forall l c, nth_error h l = Some c -> nth_error h' l = Some c.

(** An argument of a call: a reference to an array of the store, or
    [null]/[undefined]. *)
Definition holds_exps (h : heap) (a : option loc)
    (v : option (list expense)) : Prop :=
  match a, v with
  | Some l, Some es => nth_error h l = Some (ArrExp es)
  | None, None => True
  | _, _ => False
  end.

Definition holds_strs (h : heap) (a : option loc)
    (v : option (list jsstring)) : Prop :=
  match a, v with
  | Some l, Some ms => nth_error h l = Some (ArrStr ms)
  | None, None => True
  | _, _ => False
  end.

(** What a call leaves in the store, against the result of the function of
    [Split]: the same transactions, in a new array, and every object the
    store held before the call as it was. *)
Definition returns (h0 : heap) (m : M loc)
    (res : option (list transaction)) : Prop :=
  match res with
  | Some txs =>
      exists r h',
        m h0 = Some (r, h') /\ nth_error h' r = Some (ArrTx txs) /\
        extends h0 h' /\ (length h0 <= r)%nat
  | None => m h0 = None
  end.

(** The relations between the values of the function of [Split] and the
    store of this one, at the successive points of the body. The store
    before the call is [h0]; the objects the function creates come after
    it: [validMembers], [totalSpent], [balances], [transactions],
    [creditors], [debtors], the array of the keys of [balances], and then
    the entries. *)
Definition R_totals (h0 : heap) (vm : list jsstring) (o : obj number)
    (g : heap) : Prop :=
  extends h0 g /\ length g = (length h0 + 2)%nat /\
  nth_error g (length h0) = Some (ArrStr vm) /\
  nth_error g (length h0 + 1)%nat = Some (ObjNum o).

Definition R_balances (h0 : heap) (vm : list jsstring) (ts b : obj number)
    (g : heap) : Prop :=
  extends h0 g /\ length g = (length h0 + 3)%nat /\
  nth_error g (length h0) = Some (ArrStr vm) /\
  nth_error g (length h0 + 1)%nat = Some (ObjNum ts) /\
  nth_error g (length h0 + 2)%nat = Some (ObjNum b).

Definition points (g : heap) (r : loc) (e : entry) : Prop :=
  nth_error g r = Some (ObjEntry e).

Definition R_lists_at (h0 : heap) (bal : obj number) (keys : list jsstring)
    (crefs drefs : list loc) (st : state) (g : heap) : Prop :=
  extends h0 g /\ (length h0 + 7 <= length g)%nat /\
  nth_error g (length h0 + 2)%nat = Some (ObjNum bal) /\
  nth_error g (length h0 + 3)%nat = Some (ArrTx (transactions st)) /\
  nth_error g (length h0 + 4)%nat = Some (ArrRef crefs) /\
  nth_error g (length h0 + 5)%nat = Some (ArrRef drefs) /\
  nth_error g (length h0 + 6)%nat = Some (ArrStr keys) /\
  Forall2 (points g) crefs (creditors st) /\
  Forall2 (points g) drefs (debtors st) /\
  NoDup (crefs ++ drefs) /\
  (forall r, In r (crefs ++ drefs) -> (length h0 + 7 <= r)%nat).

Definition R_lists (h0 : heap) (bal : obj number) (keys : list jsstring)
    (st : state) (g : heap) : Prop :=
  exists crefs drefs : list loc, R_lists_at h0 bal keys crefs drefs st g.

(** What the loop over the keys of [balances] does to the two lists. *)
Definition classify_step (bal : obj number) (st : state)
    (member : jsstring) : state :=
  match own_get member bal with
  | Some v =>
      if gt v lit_0 then
        {| creditors := creditors st ++ [{| name := member; balance := v |}];
           debtors := debtors st; transactions := transactions st |}
      else if lt v lit_0 then
        {| creditors := creditors st;
           debtors := debtors st ++ [{| name := member; balance := v |}];
           transactions := transactions st |}
      else st
  | None => st
  end.

(** A store with the two arrays of a caller, "A paid 90" and the members
    A and B, and the store that a call on them leaves. *)
Definition example_store : heap :=
  [ArrExp [{| payer := String (lit "A"); amount := Number (of_Z 90) |}];
   ArrStr [lit "A"; lit "B"]].

Definition example_store_after : heap :=
  Eval vm_compute in
    match calculateExpenseSplit 5 (Some 0%nat) (Some 1%nat) example_store with
    | Some (_, h) => h
    | None => []
    end.

End Imp.

(** ** What each member receives and pays *)

Module Account.
Import JSNum JSStr JSConv JSVal JSObj Split Notions.

(** A balance of moderate size: a binary64 value that is zero or finite
    and below 2^40 in absolute value. *)
Definition moderate (x : number) : bool :=
  valid x &&
  match x with
  | S754_zero _ => true
  | S754_finite _ m e => Zpos (digits2_pos m) + e <=? 40
  | _ => false
  end.

(** The amount of a transaction in hundredths, read from its string. *)
Definition cents (t : transaction) : Z :=
  match parse_fixed2 (tx_amount t) with
  | Some n => Z.of_N n
  | None => 0
  end.

Definition total_cents (txs : list transaction) : Z :=
  fold_right Z.add 0 (map cents txs).

(** The transactions to the member [nm], and those from [nm]. *)
Definition of_member (who : transaction -> jsstring) (nm : jsstring)
    (txs : list transaction) : list transaction :=
  filter (fun t => JSStr.eqb (who t) nm) txs.

Definition to_member : jsstring -> list transaction -> list transaction :=
  of_member to.


(** The running balance of a creditor in the list: a valid number, above
    zero, 2^40 at most; and the same below zero for a debtor. *)
Definition owed (x : number) : Prop :=
  valid x = true /\ (0 < B2R x <= bpow 40)%R.

Definition owing (x : number) : Prop :=
  valid x = true /\ (- bpow 40 <= B2R x < 0)%R.

(** The transactions [txs] account for what a member was owed, or owed, at
    first: their amounts add up to [b0], up to one hundredth, and one more
    for each transaction. *)
Definition settled (b0 : R) (txs : list transaction) : Prop :=
  (Rabs (b0 - IZR (total_cents txs) / 100)
   < / 100 * IZR (Z.of_nat (length txs) + 1))%R.

(** The running balance of the entry [x] is the balance the member had at
    first less the amounts of its transactions (plus, for a debtor: [sgn]
    is -1), up to one hundredth for each transaction. *)
Definition tracks (sgn : R) (who : transaction -> jsstring)
    (orig : list entry) (txs : list transaction) (x : entry) : Prop :=
  forall o, In o orig -> name o = name x ->
    (Rabs (B2R (balance x)
           - (B2R (balance o)
              - sgn * (IZR (total_cents (of_member who (name x) txs)) / 100)))
     <= IZR (Z.of_nat (length (of_member who (name x) txs))) / 100)%R.

(** What holds of one of the two lists between the passes of the loop:
    [orig] is the list at first, [cur] the list now. *)
Definition side_inv (sgn : R) (who : transaction -> jsstring)
    (good : number -> Prop) (orig cur : list entry)
    (txs : list transaction) : Prop :=
  NoDup (map name cur) /\
  Forall (fun x => good (balance x) /\ tracks sgn who orig txs x) cur /\
  (forall o, In o orig -> ~ In (name o) (map name cur) ->
     settled (sgn * B2R (balance o)) (of_member who (name o) txs)).

Definition invariant (C0 D0 : list entry) (st : state) : Prop :=
  side_inv 1 to owed C0 (creditors st) (transactions st) /\
  side_inv (-1) from owing D0 (debtors st) (transactions st).

End Account.

(** ** Everyday inputs *)

Module Everyday.
Import JSNum JSStr JSConv JSVal JSObj Split Notions Account.

(** An amount of everyday size: a number, as the expense forms store it,
    that is neither below 0.01 nor above 1000000. *)
Definition amount_in_range (v : value) : bool :=
  match v with
  | Number x =>
      valid x && negb (is_nan x)
      && negb (lt x lit_0_01) && negb (gt x (of_Z 1000000))
  | _ => false
  end.

(** The same in real numbers. *)
Definition everyday_amount (v : value) : Prop :=
  exists x, v = Number x /\ valid x = true /\
            (/ 100 <= B2R x <= 1000000)%R.

(** What holds of a member's total after [k] expenses of such amounts:
    a valid number that is zero or finite, zero or one two-hundredth at
    least, and [k] times 1000001 at most. *)
Definition total_ok (k : Z) (v : number) : Prop :=
  valid v = true /\ is_finite v = true /\
  (B2R v = 0 \/ / 200 <= B2R v)%R /\ (B2R v <= IZR k * 1000001)%R.

(** And of the sum of [j] such totals. *)
Definition sum_ok (j : Z) (s : number) : Prop :=
  valid s = true /\ is_finite s = true /\
  (B2R s = 0 \/ / 256 <= B2R s)%R /\ (B2R s <= IZR j * 1000001001)%R.

End Everyday.

(** ** The screen that shows the split *)

Module Screens.
Import JSNum JSStr JSConv JSVal JSObj Split.

(** *** [parseFloat] *)

Definition starts_with (p s : jsstring) : bool :=
  JSStr.eqb (firstn (length p) s) p.

(** The value of the longest ExponentPart at the head of [s]: [e] or [E],
    an optional sign and one digit at least; 0 when there is none. *)
Definition exponent_prefix (s : jsstring) : Z :=
  match s with
  | c :: s' =>
      if (c =? 101)%N || (c =? 69)%N then
        let '(sg, s'') :=
          match s' with
          | 43%N :: r => (false, r)
          | 45%N :: r => (true, r)
          | _ => (false, s')
          end in
        match read_digits 10 s'' 0 0 with
        | (_, O, _) => 0
        | (v, _, _) => cond_Zopp sg (Z.of_N v)
        end
      else 0
  | [] => 0
  end.

(** [parseFloat(str)] on a string: leading white space is dropped, and the
    longest prefix of the rest that is a StrDecimalLiteral gives the
    number; [NaN] when there is no such prefix. *)
Definition parseFloat (str : jsstring) : number :=
  let t := trim_start str in
  let '(sg, r) :=
    match t with
    | 43%N :: r => (false, r)
    | 45%N :: r => (true, r)
    | _ => (false, t)
    end in
  if starts_with (lit "Infinity") r then S754_infinity sg
  else
    let '(ip, ni, r1) := read_digits 10 r 0 0 in
    let '(fp, nf, r2) :=
      match r1 with
      | 46%N :: r' => read_digits 10 r' ip 0
      | _ => (ip, O, r1)
      end in
    match ni, nf with
    | O, O => NaN
    | _, _ => of_decimal sg fp (exponent_prefix r2 - Z.of_nat nf)
    end.

(** *** [TransactionItem] *)

(** The text shown for the amount of a transaction:
    [transaction.amount !== undefined ? (typeof transaction.amount ===
    'string' ? parseFloat(transaction.amount) : Number(transaction.amount))
    : 0], then [!isNaN(amount) ? amount.toFixed(2) : "0.00"]. *)
Definition formattedAmount (transaction_amount : value) : jsstring :=
  let amount :=
    match transaction_amount with
    | Undefined => lit_0
    | String s => parseFloat s
    | v => ToNumber v
    end in
  if negb (is_nan amount) then toFixed2 amount else lit "0.00".

(** *** The handlers that edit the members *)

(** An array of strings that may have holes. *)
Definition array : Type := list (option jsstring).

(** [a[i] = v]: an index past the end extends the array with holes; an
    index that is [null] sets a property that is no element. *)
Definition assign (a : array) (i : option nat) (v : jsstring) : array :=
  match i with
  | Some i =>
      if (i <? length a)%nat then firstn i a ++ Some v :: skipn (S i) a
      else a ++ repeat None (i - length a) ++ [Some v]
  | None => a
  end.

(** What [calculateExpenseSplit] sees of an array: [filter] skips a hole
    and [length] counts it, as for an empty string. *)
Definition elements (a : array) : list jsstring :=
  map (fun x => match x with Some s => s | None => [] end) a.

(** [saveRenamedMember]: the array [updatedMembers] passed to
    [calculateExpenseSplit]; [None] when the trimmed name is empty and the
    edit is dropped. *)
Definition saveRenamedMember (groupMembers : list jsstring)
    (editingMemberIndex : option nat) (editingMemberName : jsstring)
  : option array :=
  if negb (JSStr.eqb (trim editingMemberName) []) then
    Some (assign (map Some groupMembers) editingMemberIndex
                 (trim editingMemberName))
  else None.

(** [removeMember]: [groupMembers.filter((_, i) => i !== index)]. *)
Definition removeMember (groupMembers : list jsstring) (index : nat)
  : list jsstring :=
  map snd
    (filter (fun p => negb (fst p =? index)%nat)
            (combine (seq 0 (length groupMembers)) groupMembers)).

(** The expenses recorded under a name: the payer is that string. *)
Definition paid_by (name : jsstring) (e : expense) : bool :=
  match payer e with
  | String p => JSStr.eqb p name
  | _ => false
  end.

End Screens.

(** * Properties *)

Import JSNum JSStr JSConv JSVal JSObj Split Notions.

(** ** Strings *)

Lemma eqb_eq (s t : jsstring) : JSStr.eqb s t = true <-> s = t.
Proof.
  revert t; induction s as [|a s IH]; intros [|b t]; simpl; split;
    try congruence; try reflexivity.
  - rewrite andb_true_iff, N.eqb_eq, IH. intros [-> ->]; reflexivity.
  - intros H; injection H as -> ->. rewrite N.eqb_refl.
    apply IH; reflexivity.
Qed.

Lemma eqb_refl (s : jsstring) : JSStr.eqb s s = true.
Proof. apply eqb_eq; reflexivity. Qed.

Lemma eqb_neq (s t : jsstring) : JSStr.eqb s t = false <-> s <> t.
Proof.
  rewrite <- eqb_eq. destruct (JSStr.eqb s t); split; congruence.
Qed.

Lemma eqb_sym (s t : jsstring) : JSStr.eqb s t = JSStr.eqb t s.
Proof.
  destruct (JSStr.eqb s t) eqn:E.
  - apply eqb_eq in E; subst. symmetry; apply eqb_refl.
  - apply eqb_neq in E. symmetry; apply eqb_neq; congruence.
Qed.

Lemma includes_In (l : list jsstring) (s : jsstring) :
  includes l s = true <-> In s l.
Proof.
  unfold includes. rewrite existsb_exists. split.
  - intros (x & Hx & E). apply eqb_eq in E; subst; assumption.
  - intros H. exists s; split; [assumption | apply eqb_refl].
Qed.

Lemma trim_start_nil (s : jsstring) :
  trim_start s = [] <-> whitespace_only s = true.
Proof.
  unfold whitespace_only.
  induction s as [|c s IH]; simpl; [tauto|].
  destruct (is_white_space c); simpl; [exact IH | split; discriminate].
Qed.

Lemma whitespace_only_rev (s : jsstring) :
  whitespace_only (rev s) = whitespace_only s.
Proof.
  unfold whitespace_only.
  destruct (forallb is_white_space s) eqn:E.
  - rewrite forallb_forall in *. intros x Hx. apply E, in_rev, Hx.
  - destruct (forallb is_white_space (rev s)) eqn:E'; [|reflexivity].
    rewrite <- E. symmetry. rewrite forallb_forall in *.
    intros x Hx. apply E'. rewrite <- in_rev. exact Hx.
Qed.

Lemma trim_start_whitespace_only (s : jsstring) :
  whitespace_only (trim_start s) = whitespace_only s.
Proof.
  unfold whitespace_only.
  induction s as [|c s IH]; simpl; [reflexivity|].
  destruct (is_white_space c) eqn:E; simpl; [exact IH | rewrite E; reflexivity].
Qed.

Lemma trim_nil (s : jsstring) :
  JSStr.eqb (trim s) [] = whitespace_only s.
Proof.
  unfold trim.
  destruct (whitespace_only s) eqn:E.
  - apply trim_start_nil in E. rewrite E. reflexivity.
  - apply eqb_neq. intros H.
    apply (f_equal (@rev _)) in H. rewrite rev_involutive in H. simpl in H.
    apply trim_start_nil in H.
    rewrite whitespace_only_rev, trim_start_whitespace_only in H.
    congruence.
Qed.

(** A member is valid exactly when its name is neither empty nor made of
    white space only. *)
Lemma valid_member_spec (m : jsstring) :
  valid_member m = negb (whitespace_only m).
Proof.
  unfold valid_member. rewrite trim_nil.
  destruct m; reflexivity.
Qed.

Lemma validMembers_of_spec (ms : list jsstring) :
  validMembers_of ms = filter (fun m => negb (whitespace_only m)) ms.
Proof.
  unfold validMembers_of. apply filter_ext. exact valid_member_spec.
Qed.

Lemma filter_idem {A} (f : A -> bool) (l : list A) :
  filter f (filter f l) = filter f l.
Proof.
  induction l as [|a l IH]; simpl; [reflexivity|].
  destruct (f a) eqn:E; simpl; rewrite ?E, IH; reflexivity.
Qed.

Lemma length_eqb_0 {A} (l : list A) : (length l =? 0)%nat = true <-> l = [].
Proof. destruct l; simpl; split; congruence. Qed.

(** ** Rounding to binary64 *)

Lemma iter_pos_nat {A} (f : A -> A) (p : positive) (x : A) :
  iter_pos f p x = Nat.iter (Pos.to_nat p) f x.
Proof.
  revert x; induction p as [p IH | p IH |]; intros x; cbn [iter_pos].
  - rewrite !IH, Pos2Nat.inj_xI.
    change (S (2 * Pos.to_nat p))%nat
      with (S (Pos.to_nat p + (Pos.to_nat p + 0)))%nat.
    rewrite Nat.add_0_r, Nat.iter_succ_r, Nat.iter_add. reflexivity.
  - rewrite !IH, Pos2Nat.inj_xO.
    change (2 * Pos.to_nat p)%nat with (Pos.to_nat p + (Pos.to_nat p + 0))%nat.
    rewrite Nat.add_0_r, Nat.iter_add. reflexivity.
  - reflexivity.
Qed.

Lemma shr_1_m (r : shr_record) :
  0 <= shr_m r -> shr_m (shr_1 r) = shr_m r / 2.
Proof.
  destruct r as [m rb sb]; simpl. intros Hm.
  destruct m as [|[p|p|]|p]; simpl; try reflexivity; try lia.
  - rewrite Pos2Z.inj_xI. apply Z.div_unique with 1; lia.
  - rewrite Pos2Z.inj_xO. apply Z.div_unique with 0; lia.
Qed.

Lemma iter_shr_1_m (n : nat) (r : shr_record) :
  0 <= shr_m r -> shr_m (Nat.iter n shr_1 r) = shr_m r / 2 ^ Z.of_nat n.
Proof.
  intros Hm. induction n as [|n IH].
  - simpl. rewrite Z.div_1_r. reflexivity.
  - assert (H2 : 0 < 2 ^ Z.of_nat n) by (apply Z.pow_pos_nonneg; lia).
    rewrite Nat2Z.inj_succ, Z.pow_succ_r by apply Nat2Z.is_nonneg.
    rewrite Nat.iter_succ.
    rewrite shr_1_m, IH.
    + rewrite Z.div_div; [f_equal; apply Z.mul_comm | | ]; clear IH; lia.
    + rewrite IH. apply Z.div_pos; assumption.
Qed.

(** The mantissa after [shr]: the floor of the quotient by the power of two. *)
Lemma shr_m_spec (r : shr_record) (e n : Z) :
  0 <= shr_m r ->
  shr_m (fst (shr r e n)) = shr_m r / 2 ^ Z.max 0 n /\
  snd (shr r e n) = e + Z.max 0 n.
Proof.
  intros Hm. destruct n as [|p|p]; simpl.
  - rewrite Z.div_1_r. split; [reflexivity | lia].
  - rewrite iter_pos_nat, iter_shr_1_m by assumption.
    rewrite positive_nat_Z. split; [reflexivity | lia].
  - rewrite Z.div_1_r. split; [reflexivity | lia].
Qed.

Lemma shr_record_of_loc_m (m : Z) (l : location) :
  shr_m (shr_record_of_loc m l) = m.
Proof. destruct l as [|[]]; reflexivity. Qed.

Lemma round_nearest_even_range (m : Z) (l : location) :
  round_nearest_even m l = m \/ round_nearest_even m l = m + 1.
Proof.
  destruct l as [|[]]; simpl; auto. destruct (Z.even m); auto.
Qed.

Lemma Zdigits2_spec (m : positive) :
  2 ^ (Zpos (digits2_pos m) - 1) <= Zpos m < 2 ^ Zpos (digits2_pos m).
Proof.
  induction m as [m IH | m IH |]; simpl digits2_pos.
  - rewrite Pos2Z.inj_succ, (Pos2Z.inj_xI m).
    replace (Z.succ (Zpos (digits2_pos m)) - 1) with (Zpos (digits2_pos m))
      by lia.
    rewrite Z.pow_succ_r by lia.
    replace (2 ^ Zpos (digits2_pos m))
      with (2 * 2 ^ (Zpos (digits2_pos m) - 1)) in *
      by (rewrite <- Z.pow_succ_r by lia; f_equal; lia).
    generalize dependent (2 ^ (Zpos (digits2_pos m) - 1)). intros; lia.
  - rewrite Pos2Z.inj_succ, (Pos2Z.inj_xO m).
    replace (Z.succ (Zpos (digits2_pos m)) - 1) with (Zpos (digits2_pos m))
      by lia.
    rewrite Z.pow_succ_r by lia.
    replace (2 ^ Zpos (digits2_pos m))
      with (2 * 2 ^ (Zpos (digits2_pos m) - 1)) in *
      by (rewrite <- Z.pow_succ_r by lia; f_equal; lia).
    generalize dependent (2 ^ (Zpos (digits2_pos m) - 1)). intros; lia.
  - simpl. lia.
Qed.

(** The digits of a positive integer are characterised by its binary
    magnitude. *)
Lemma Zdigits2_unique (m : positive) (d : Z) :
  2 ^ (d - 1) <= Zpos m < 2 ^ d -> Zpos (digits2_pos m) = d.
Proof.
  intros [Hl Hu]. pose proof (Zdigits2_spec m) as [Hl' Hu'].
  assert (0 < d).
  { destruct (Z_lt_le_dec 0 d) as [|Hd]; [assumption|].
    exfalso. destruct (Z.eq_dec d 0) as [->|]; [simpl in Hu; lia|].
    rewrite (Z.pow_neg_r 2 d) in Hu by lia. lia. }
  destruct (Z.lt_trichotomy (Zpos (digits2_pos m)) d) as [Hlt | [Heq | Hgt]];
    [exfalso | assumption | exfalso].
  - assert (2 ^ Zpos (digits2_pos m) <= 2 ^ (d - 1))
      by (apply Z.pow_le_mono_r; lia). lia.
  - assert (2 ^ d <= 2 ^ (Zpos (digits2_pos m) - 1))
      by (apply Z.pow_le_mono_r; lia). lia.
Qed.

Lemma shr_1_exact (m : Z) :
  0 <= m -> m mod 2 = 0 ->
  shr_1 (Build_shr_record m false false) = Build_shr_record (m / 2) false false.
Proof.
  intros Hm Hev. destruct m as [|[p|p|]|p]; try reflexivity; try lia.
  - rewrite Pos2Z.inj_xI in Hev.
    rewrite Z.add_comm, Z.mul_comm, Z.mod_add in Hev by lia. discriminate.
  - simpl. f_equal. rewrite (Pos2Z.inj_xO p). apply Z.div_unique with 0; lia.
  - discriminate.
Qed.

Lemma iter_shr_1_exact (n : nat) (m : Z) :
  0 <= m -> m mod 2 ^ Z.of_nat n = 0 ->
  Nat.iter n shr_1 (Build_shr_record m false false) =
  Build_shr_record (m / 2 ^ Z.of_nat n) false false.
Proof.
  intros Hm. induction n as [|n IH]; intros Hdiv.
  - simpl. rewrite Z.div_1_r. reflexivity.
  - assert (H2 : 0 < 2 ^ Z.of_nat n) by (apply Z.pow_pos_nonneg; lia).
    rewrite Nat2Z.inj_succ, Z.pow_succ_r in * by apply Nat2Z.is_nonneg.
    rewrite Nat.iter_succ.
    apply Z.mod_divide in Hdiv; [|clear - H2; lia].
    destruct Hdiv as [k Hk].
    assert (E : m / 2 ^ Z.of_nat n = k * 2).
    { rewrite Hk. replace (k * (2 * 2 ^ Z.of_nat n)) with (k * 2 * 2 ^ Z.of_nat n)
        by ring. apply Z.div_mul. clear - H2; lia. }
    rewrite IH.
    + rewrite shr_1_exact.
      * f_equal. rewrite Z.div_div; [f_equal; apply Z.mul_comm | clear - H2; lia | lia].
      * apply Z.div_pos; assumption.
      * rewrite E. apply Z.mod_mul. discriminate.
    + rewrite Hk. replace (k * (2 * 2 ^ Z.of_nat n)) with (k * 2 * 2 ^ Z.of_nat n)
        by ring. apply Z.mod_mul. clear - H2; lia.
Qed.

Lemma shr_exact (m e n : Z) :
  0 <= m -> m mod 2 ^ Z.max 0 n = 0 ->
  fst (shr (Build_shr_record m false false) e n) =
  Build_shr_record (m / 2 ^ Z.max 0 n) false false.
Proof.
  intros Hm Hdiv. destruct n as [|p|p]; unfold shr; cbn [fst].
  - change (Z.max 0 0) with 0. rewrite Z.pow_0_r, Z.div_1_r. reflexivity.
  - change (Z.max 0 (Zpos p)) with (Zpos p) in *.
    rewrite iter_pos_nat. rewrite <- (positive_nat_Z p) in *.
    apply iter_shr_1_exact; assumption.
  - change (Z.max 0 (Zneg p)) with 0. rewrite Z.pow_0_r, Z.div_1_r. reflexivity.
Qed.

Lemma binary_round_aux_unfold (s : bool) (m e : Z) (l : location) :
  0 <= m ->
  exists m2,
    (m2 = m / 2 ^ shift_of m e \/ m2 = m / 2 ^ shift_of m e + 1) /\
    (l = loc_Exact -> m mod 2 ^ shift_of m e = 0 -> m2 = m / 2 ^ shift_of m e) /\
    binary_round_aux prec emax s m e l = round_result s m2 (e + shift_of m e).
Proof.
  intros Hm.
  unfold binary_round_aux, shr_fexp.
  pose proof (shr_m_spec (shr_record_of_loc m l) e
                (fexp prec emax (Zdigits2 m + e) - e)) as H1.
  rewrite shr_record_of_loc_m in H1. specialize (H1 Hm).
  destruct (shr (shr_record_of_loc m l) e
              (fexp prec emax (Zdigits2 m + e) - e)) as [mrs' e'] eqn:E1.
  simpl in H1. destruct H1 as [H1m H1e].
  fold (shift_of m e) in H1m, H1e.
  exists (round_nearest_even (shr_m mrs') (loc_of_shr_record mrs')).
  split.
  { rewrite <- H1m. apply round_nearest_even_range. }
  split.
  { intros -> Hdiv.
    pose proof (shr_exact m e (fexp prec emax (Zdigits2 m + e) - e) Hm Hdiv) as Hx.
    simpl shr_record_of_loc in E1. rewrite E1 in Hx. simpl in Hx.
    rewrite Hx. reflexivity. }
  set (m2 := round_nearest_even (shr_m mrs') (loc_of_shr_record mrs')).
  assert (Hm2 : 0 <= m2).
  { assert (0 <= shr_m mrs').
    { rewrite H1m. apply Z.div_pos;
        [assumption | apply Z.pow_pos_nonneg; [reflexivity | apply Z.le_max_l]]. }
    destruct (round_nearest_even_range (shr_m mrs') (loc_of_shr_record mrs'))
      as [E|E]; unfold m2; rewrite E; clear - H; lia. }
  pose proof (shr_m_spec (shr_record_of_loc m2 loc_Exact) e'
                (fexp prec emax (Zdigits2 m2 + e') - e')) as H2.
  rewrite shr_record_of_loc_m in H2. specialize (H2 Hm2).
  destruct (shr (shr_record_of_loc m2 loc_Exact) e'
              (fexp prec emax (Zdigits2 m2 + e') - e'))
    as [mrs'' e''] eqn:E2.
  simpl in H2. destruct H2 as [H2m H2e].
  fold (shift_of m2 e') in H2m, H2e.
  unfold round_result. rewrite H2m, H2e, H1e. reflexivity.
Qed.

Lemma fexp_eq (e : Z) : fexp prec emax e = Z.max (e - 53) (-1074).
Proof. reflexivity. Qed.

Lemma Zdigits2_log2 (m : Z) : 0 < m -> Zdigits2 m = Z.log2 m + 1.
Proof.
  intros Hm. destruct m as [|p|p]; try lia. simpl Zdigits2.
  pose proof (Zdigits2_spec p) as [Hl Hu].
  assert (Z.log2 (Zpos p) = Zpos (digits2_pos p) - 1); [|lia].
  apply Z.log2_unique; [lia|].
  replace (Z.succ (Zpos (digits2_pos p) - 1)) with (Zpos (digits2_pos p))
    by lia.
  split; assumption.
Qed.

Lemma Zdigits2_nonneg (m : Z) : 0 <= Zdigits2 m.
Proof. destruct m; simpl; lia. Qed.

Lemma Zdigits2_pos (m : Z) : 0 < m -> 0 < Zdigits2 m.
Proof. destruct m; simpl; lia. Qed.

Lemma Zdigits2_le (a b : Z) : 0 <= a -> a <= b -> Zdigits2 a <= Zdigits2 b.
Proof.
  intros Ha Hab. destruct (Z.eq_dec a 0) as [->|].
  - apply Zdigits2_nonneg.
  - rewrite !Zdigits2_log2 by lia.
    pose proof (Z.log2_le_mono a b Hab). lia.
Qed.

Lemma Zdigits2_succ (m : Z) : 0 <= m -> Zdigits2 (m + 1) <= Zdigits2 m + 1.
Proof.
  intros Hm. destruct (Z.eq_dec m 0) as [->|]; [simpl; lia|].
  rewrite !Zdigits2_log2 by lia.
  pose proof (Z.log2_succ_le m). unfold Z.succ in *. lia.
Qed.

Lemma Zdigits2_bounds (m : Z) :
  0 < m -> 2 ^ (Zdigits2 m - 1) <= m < 2 ^ Zdigits2 m.
Proof.
  intros Hm. rewrite Zdigits2_log2 by assumption.
  pose proof (Z.log2_spec m Hm) as H. unfold Z.succ in H.
  replace (Z.log2 m + 1 - 1) with (Z.log2 m) by lia. exact H.
Qed.

Lemma Zdigits2_div_pow2 (m p : Z) :
  0 < m -> 0 <= p -> Zdigits2 (m / 2 ^ p) = Z.max 0 (Zdigits2 m - p).
Proof.
  intros Hm Hp.
  rewrite <- Z.shiftr_div_pow2 by assumption.
  destruct (Z_lt_le_dec (Z.log2 m) p) as [Hlt|Hle].
  - rewrite Z.shiftr_eq_0 by lia. rewrite (Zdigits2_log2 m) by assumption.
    simpl. lia.
  - assert (0 < Z.shiftr m p).
    { pose proof (Z.shiftr_nonneg m p) as [_ Hn].
      pose proof (Z.shiftr_eq_0_iff m p) as [Hz _].
      destruct (Z.eq_dec (Z.shiftr m p) 0) as [E|]; [|lia].
      destruct (Hz E); lia. }
    rewrite (Zdigits2_log2 (Z.shiftr m p)), (Zdigits2_log2 m) by assumption.
    rewrite Z.log2_shiftr by assumption. lia.
Qed.

(** After the first shift the mantissa is no longer than the format allows
    at its exponent. *)
Lemma first_shift (m e : Z) :
  0 < m ->
  let p := shift_of m e in
  fexp prec emax (Zdigits2 (m / 2 ^ p) + (e + p)) <= e + p /\
  (e <= fexp prec emax (Zdigits2 m + e) ->
   fexp prec emax (Zdigits2 (m / 2 ^ p) + (e + p)) = e + p).
Proof.
  intros Hm p.
  assert (Hp : 0 <= p) by apply Z.le_max_l.
  rewrite Zdigits2_div_pow2 by assumption.
  pose proof (Zdigits2_pos m Hm) as Hd.
  subst p. unfold shift_of in *. rewrite !fexp_eq in *.
  set (d := Zdigits2 m) in *. clearbody d. lia.
Qed.

(** The second shift is by one bit at most and loses nothing. *)
Lemma second_shift (m1 e1 m2 : Z) :
  0 <= m1 -> fexp prec emax (Zdigits2 m1 + e1) <= e1 ->
  m2 = m1 \/ m2 = m1 + 1 -> 0 < m2 ->
  let q := shift_of m2 e1 in
  0 < m2 / 2 ^ q /\ m2 / 2 ^ q * 2 ^ q = m2 /\
  fexp prec emax (Zdigits2 (m2 / 2 ^ q) + (e1 + q)) <= e1 + q /\
  (fexp prec emax (Zdigits2 m1 + e1) = e1 ->
   fexp prec emax (Zdigits2 (m2 / 2 ^ q) + (e1 + q)) = e1 + q).
Proof.
  intros Hm1 Hc Hm2 Hpos q.
  assert (Hq : q = 0 \/ (q = 1 /\ m2 = 2 ^ (Zdigits2 m2 - 1) /\ 1 < Zdigits2 m2
                          /\ fexp prec emax (Zdigits2 m1 + e1) = e1)).
  { subst q. unfold shift_of. rewrite fexp_eq in *.
    destruct Hm2 as [->| ->].
    - left. lia.
    - pose proof (Zdigits2_succ m1 Hm1) as Hs.
      pose proof (Zdigits2_le m1 (m1 + 1) Hm1 ltac:(lia)) as Hl.
      destruct (Z.eq_dec (Zdigits2 (m1 + 1)) (Zdigits2 m1)) as [E|NE].
      + left. rewrite E. lia.
      + assert (E : Zdigits2 (m1 + 1) = Zdigits2 m1 + 1) by lia.
        destruct (Z.eq_dec m1 0) as [->|Hnz].
        * left. change (Zdigits2 (0 + 1)) with 1.
          change (Zdigits2 0) with 0 in Hc. lia.
        * pose proof (Zdigits2_bounds m1 ltac:(lia)) as [_ Hu].
          pose proof (Zdigits2_bounds (m1 + 1) ltac:(lia)) as [Hl' _].
          rewrite E in Hl'. replace (Zdigits2 m1 + 1 - 1) with (Zdigits2 m1) in Hl' by lia.
          pose proof (Zdigits2_pos m1 ltac:(lia)).
          rewrite E.
          replace (Zdigits2 m1 + 1 - 1) with (Zdigits2 m1) by lia.
          set (d := Zdigits2 m1) in *. clearbody d.
          assert (m1 + 1 = 2 ^ d) by lia.
          destruct (Z_le_gt_dec (Z.max (d + 1 + e1 - 53) (-1074) - e1) 0).
          -- left. lia.
          -- right. rewrite fexp_eq. repeat split; lia. }
  destruct Hq as [Hq | (Hq & Hpow & Hd & Hcan)]; rewrite Hq.
  - rewrite Z.pow_0_r, Z.div_1_r, Z.mul_1_r, Z.add_0_r.
    repeat split; try assumption.
    + destruct Hm2 as [->| ->]; [assumption|].
      subst q. unfold shift_of in Hq. lia.
    + intros Hcan. destruct Hm2 as [->| ->]; [assumption|].
      subst q. unfold shift_of in Hq.
      pose proof (Zdigits2_le m1 (m1 + 1) Hm1 ltac:(lia)) as Hl.
      rewrite fexp_eq in *. lia.
  - assert (Hd2 : m2 / 2 ^ 1 = 2 ^ (Zdigits2 m2 - 2)).
    { rewrite Hpow at 1.
      replace (Zdigits2 m2 - 1) with ((Zdigits2 m2 - 2) + 1) by lia.
      rewrite Z.pow_add_r by lia. apply Z.div_mul. discriminate. }
    assert (Hp2 : 0 < 2 ^ (Zdigits2 m2 - 2)) by (apply Z.pow_pos_nonneg; lia).
    rewrite Hd2.
    assert (Hdig : Zdigits2 (2 ^ (Zdigits2 m2 - 2)) = Zdigits2 m2 - 1).
    { rewrite Zdigits2_log2 by assumption. rewrite Z.log2_pow2 by lia. lia. }
    rewrite Hdig.
    repeat split.
    + assumption.
    + rewrite Hpow at 2.
      replace (Zdigits2 m2 - 1) with ((Zdigits2 m2 - 2) + 1) by lia.
      rewrite Z.pow_add_r by lia. reflexivity.
    + subst q. unfold shift_of in Hq. rewrite fexp_eq in *.
      clear Hd2 Hp2 Hdig Hpow. lia.
    + intros _. subst q. unfold shift_of in Hq. rewrite fexp_eq in *.
      clear Hd2 Hp2 Hdig Hpow. lia.
Qed.

(** What [binary_round_aux] returns on a positive mantissa: the mantissa
    shifted down to the precision of the format and rounded to one of its
    two neighbours, the lower one when nothing is lost; the result is
    renormalised without loss, and is an infinity when its exponent is too
    large. *)
Lemma binary_round_aux_spec (s : bool) (m e : Z) (l : location) :
  0 < m ->
  let p := shift_of m e in
  exists m2,
    (m2 = m / 2 ^ p \/ m2 = m / 2 ^ p + 1) /\
    (l = loc_Exact -> m mod 2 ^ p = 0 -> m2 = m / 2 ^ p) /\
    ((m2 = 0 /\ binary_round_aux prec emax s m e l = S754_zero s) \/
     (exists m3 e3,
        Zpos m3 * 2 ^ (e3 - (e + p)) = m2 /\
        e + p <= e3 /\
        fexp prec emax (Zpos (digits2_pos m3) + e3) <= e3 /\
        (e <= fexp prec emax (Zdigits2 m + e) ->
         fexp prec emax (Zpos (digits2_pos m3) + e3) = e3) /\
        binary_round_aux prec emax s m e l =
        if e3 <=? emax - prec then S754_finite s m3 e3
        else S754_infinity s)).
Proof.
  intros Hm p.
  destruct (binary_round_aux_unfold s m e l ltac:(lia)) as (m2 & Hm2 & Hex & ->).
  fold p in Hm2, Hex |- *.
  exists m2. split; [assumption|]. split; [assumption|].
  assert (Hp : 0 <= p) by apply Z.le_max_l.
  assert (Hm1 : 0 <= m / 2 ^ p)
    by (apply Z.div_pos; [lia | apply Z.pow_pos_nonneg; [reflexivity | assumption]]).
  destruct (Z.eq_dec m2 0) as [Hz | Hnz].
  - left. split; [assumption|]. subst m2. unfold round_result.
    rewrite Z.div_0_l; [reflexivity|].
    apply Z.pow_nonzero; [discriminate | apply Z.le_max_l].
  - assert (Hpos : 0 < m2) by (clear - Hm2 Hm1 Hnz; lia).
    right.
    destruct (first_shift m e Hm) as [Hc1 Hc2]. fold p in Hc1, Hc2.
    destruct (second_shift (m / 2 ^ p) (e + p) m2 Hm1 Hc1 Hm2 Hpos)
      as (Hq1 & Hq2 & Hq3 & Hq4).
    unfold round_result.
    set (q := shift_of m2 (e + p)) in *.
    assert (Hq : 0 <= q) by apply Z.le_max_l.
    destruct (m2 / 2 ^ q) as [|m3|m3] eqn:E3; try (clear - Hq1; lia).
    exists m3, (e + p + q).
    replace (e + p + q - (e + p)) with q by ring.
    split; [assumption|]. split; [clear - Hq; lia|].
    split; [exact Hq3|]. split; [|reflexivity].
    intros Hcan. apply Hq4, Hc2, Hcan.
Qed.

Lemma shl_align_spec (mx : positive) (ex ex' : Z) :
  snd (shl_align mx ex ex') = Z.min ex ex' /\
  Zpos (fst (shl_align mx ex ex')) = Zpos mx * 2 ^ (ex - Z.min ex ex').
Proof.
  unfold shl_align. destruct (ex' - ex) as [|d|d] eqn:E; cbn [fst snd].
  - replace (Z.min ex ex') with ex by lia. rewrite Z.sub_diag, Z.mul_1_r.
    split; reflexivity.
  - replace (Z.min ex ex') with ex by lia. rewrite Z.sub_diag, Z.mul_1_r.
    split; reflexivity.
  - replace (Z.min ex ex') with ex' by lia. split; [reflexivity|].
    replace (ex - ex') with (Zpos d) by lia.
    fold (shift_pos d mx). rewrite shift_pos_correct, Z.mul_comm.
    reflexivity.
Qed.

Lemma Zdigits2_mul_pow2 (m k : Z) :
  0 < m -> 0 <= k -> Zdigits2 (m * 2 ^ k) = Zdigits2 m + k.
Proof.
  intros Hm Hk.
  assert (0 < 2 ^ k) by (apply Z.pow_pos_nonneg; lia).
  rewrite !Zdigits2_log2 by (try assumption; apply Z.mul_pos_pos; assumption).
  rewrite Z.log2_mul_pow2 by assumption. lia.
Qed.

(** What [binary_round] returns: it aligns the mantissa so that nothing is
    lost before rounding, and its result is a valid number. *)
Lemma binary_round_spec (s : bool) (mx : positive) (ex : Z) :
  let ez := Z.min ex (fexp prec emax (Zpos (digits2_pos mx) + ex)) in
  let mz := Zpos mx * 2 ^ (ex - ez) in
  let p := shift_of mz ez in
  0 < mz /\ ez + p = fexp prec emax (Zpos (digits2_pos mx) + ex) /\
  exists m2,
    (m2 = mz / 2 ^ p \/ m2 = mz / 2 ^ p + 1) /\
    (mz mod 2 ^ p = 0 -> m2 = mz / 2 ^ p) /\
    ((m2 = 0 /\ binary_round prec emax s mx ex = S754_zero s) \/
     (exists m3 e3,
        Zpos m3 * 2 ^ (e3 - (ez + p)) = m2 /\
        ez + p <= e3 /\
        fexp prec emax (Zpos (digits2_pos m3) + e3) = e3 /\
        binary_round prec emax s mx ex =
        if e3 <=? emax - prec then S754_finite s m3 e3
        else S754_infinity s)).
Proof.
  intros ez mz p. unfold binary_round.
  pose proof (shl_align_spec mx ex (fexp prec emax (Zpos (digits2_pos mx) + ex)))
    as [He Hmz].
  destruct (shl_align mx ex (fexp prec emax (Zpos (digits2_pos mx) + ex)))
    as [mz' ez'] eqn:E.
  cbn [fst snd] in He, Hmz. fold ez in He, Hmz. fold mz in Hmz. subst ez'.
  assert (Hpos : 0 < Zpos mz') by reflexivity.
  assert (Hd : Zdigits2 mz = Zpos (digits2_pos mx) + (ex - ez)).
  { unfold mz. rewrite Zdigits2_mul_pow2 by (unfold ez; lia). reflexivity. }
  assert (Hen : ez <= fexp prec emax (Zdigits2 mz + ez)).
  { rewrite Hd. unfold ez at 1.
    replace (Zpos (digits2_pos mx) + (ex - ez) + ez)
      with (Zpos (digits2_pos mx) + ex) by ring.
    apply Z.le_min_r. }
  split; [rewrite <- Hmz; exact Hpos|].
  split.
  { unfold p, shift_of. rewrite Hd in *.
    replace (Zpos (digits2_pos mx) + (ex - ez) + ez)
      with (Zpos (digits2_pos mx) + ex) in * by ring.
    clear - Hen. lia. }
  destruct (binary_round_aux_spec s (Zpos mz') ez loc_Exact Hpos)
    as (m2 & H1 & H2 & H3).
  rewrite Hmz in H1, H2, H3 |- *. fold p in H1, H2, H3.
  exists m2. split; [assumption|]. split; [auto|].
  destruct H3 as [H3 | (m3 & e3 & Hv & He3 & Hc & Hb & Hr)];
    [left; assumption | right].
  exists m3, e3. repeat split; try assumption.
  apply Hb, Hen.
Qed.

(** Rounding a positive integer never gives a zero or NaN. *)
Lemma of_Z_pos (n : Z) :
  0 < n ->
  (exists m e, of_Z n = S754_finite false m e) \/ of_Z n = S754_infinity false.
Proof.
  intros Hn. destruct n as [|mx|mx]; try lia.
  unfold of_Z, binary_normalize.
  destruct (binary_round_spec false mx 0)
    as (Hmz & Hez & m2 & H1 & _ & [[Hz _] | (m3 & e3 & _ & _ & _ & ->)]).
  - exfalso.
    set (ez := Z.min 0 (fexp prec emax (Zpos (digits2_pos mx) + 0))) in *.
    set (mz := Zpos mx * 2 ^ (0 - ez)) in *.
    assert (Hez' : ez <= 0) by apply Z.le_min_l.
    assert (Hd : Zdigits2 mz = Zpos (digits2_pos mx) + (0 - ez)).
    { unfold mz. rewrite Zdigits2_mul_pow2 by lia. reflexivity. }
    assert (Hp : shift_of mz ez < Zdigits2 mz).
    { rewrite Hd. rewrite fexp_eq in Hez. unfold ez in *. rewrite fexp_eq in *.
      pose proof (Zdigits2_pos (Zpos mx) ltac:(lia)) as Hdp. simpl in Hdp.
      clear - Hdp Hez. lia. }
    assert (0 < mz / 2 ^ shift_of mz ez).
    { assert (Hs : 0 <= shift_of mz ez) by apply Z.le_max_l.
      assert (Hdd := Zdigits2_div_pow2 mz (shift_of mz ez) Hmz Hs).
      destruct (Z.eq_dec (mz / 2 ^ shift_of mz ez) 0) as [E0|NE].
      - rewrite E0 in Hdd. simpl in Hdd. clear - Hdd Hp. lia.
      - assert (0 <= mz / 2 ^ shift_of mz ez)
          by (apply Z.div_pos; [lia | apply Z.pow_pos_nonneg; lia]).
        lia. }
    clear - H1 Hz H. lia.
  - destruct (e3 <=? emax - prec); [left; eauto | right; reflexivity].
Qed.

(** ** Objects *)

Section ObjFacts.
Context {V : Type}.
Implicit Types (o : obj V) (k : jsstring) (v : V).

Lemma own_get_In k v o : own_get k o = Some v -> In (k, v) o.
Proof.
  induction o as [|[k' v'] o IH]; simpl; [discriminate|].
  destruct (JSStr.eqb k k') eqn:E.
  - apply eqb_eq in E. intros H; injection H as ->. subst. left; reflexivity.
  - intros H. right. apply IH, H.
Qed.

Lemma own_get_None k o : own_get k o = None <-> ~ In k (map fst o).
Proof.
  induction o as [|[k' v'] o IH]; simpl; [tauto|].
  destruct (JSStr.eqb k k') eqn:E.
  - apply eqb_eq in E. subst. split; [discriminate | tauto].
  - apply eqb_neq in E. rewrite IH. split; [intros H [H'|H']; congruence | tauto].
Qed.

Lemma own_get_put_same k v o : own_get k (put k v o) = Some v.
Proof.
  induction o as [|[k' v'] o IH]; simpl.
  - rewrite eqb_refl. reflexivity.
  - destruct (JSStr.eqb k k') eqn:E; simpl; rewrite E; [reflexivity | exact IH].
Qed.

Lemma own_get_put_other k k' v o :
  k <> k' -> own_get k (put k' v o) = own_get k o.
Proof.
  intros Hne. induction o as [|[k'' v''] o IH]; simpl.
  - apply eqb_neq in Hne. rewrite Hne. reflexivity.
  - destruct (JSStr.eqb k' k'') eqn:E; simpl.
    + apply eqb_eq in E. subst k''.
      apply eqb_neq in Hne. rewrite Hne. reflexivity.
    + destruct (JSStr.eqb k k''); [reflexivity | exact IH].
Qed.

Lemma put_keys k v o :
  map fst (put k v o) =
  if existsb (JSStr.eqb k) (map fst o) then map fst o else map fst o ++ [k].
Proof.
  induction o as [|[k' v'] o IH]; simpl; [reflexivity|].
  destruct (JSStr.eqb k k') eqn:E; simpl; [reflexivity|].
  rewrite IH. destruct (existsb _ _); reflexivity.
Qed.

Lemma In_put k v o kv :
  In kv (put k v o) -> kv = (k, v) \/ In kv o.
Proof.
  induction o as [|[k' v'] o IH]; simpl.
  - intros [H|[]]; left; congruence.
  - destruct (JSStr.eqb k k') eqn:E; simpl.
    + apply eqb_eq in E; subst k'. intros [H|H]; [left; congruence | right; right; exact H].
    + intros [H|H]; [right; left; exact H|].
      destruct (IH H); [left | right; right]; assumption.
Qed.

Lemma In_set k v o kv :
  In kv (set k v o) -> kv = (k, v) \/ In kv o.
Proof.
  unfold set. destruct (JSStr.eqb k proto_key); [right; assumption | apply In_put].
Qed.

Lemma own_get_set_same k v o :
  k <> proto_key -> own_get k (set k v o) = Some v.
Proof.
  intros H. unfold set. apply eqb_neq in H. rewrite H. apply own_get_put_same.
Qed.

Lemma own_get_set_other k k' v o :
  k <> k' -> own_get k (set k' v o) = own_get k o.
Proof.
  intros H. unfold set. destruct (JSStr.eqb k' proto_key); [reflexivity|].
  apply own_get_put_other, H.
Qed.

Lemma own_get_set_Some k k' v o :
  own_get k o <> None -> own_get k (set k' v o) <> None.
Proof.
  intros H. destruct (list_eq_dec N.eq_dec k k') as [<-|Hne].
  - unfold set. destruct (JSStr.eqb k proto_key); [exact H|].
    rewrite own_get_put_same. discriminate.
  - rewrite own_get_set_other; assumption.
Qed.

(** [entries] enumerates the own properties, each once. *)
Lemma In_insert_index x y (l : list (N * (jsstring * V))) :
  In y (insert_index x l) <-> y = x \/ In y l.
Proof.
  induction l as [|z l IH]; simpl; [intuition congruence|].
  destruct (N.ltb (fst z) (fst x)); simpl; [rewrite IH|]; intuition congruence.
Qed.

Lemma In_sorted_index (l : list (N * (jsstring * V))) y :
  In y (fold_right insert_index [] l) <-> In y l.
Proof.
  induction l as [|x l IH]; simpl; [tauto|].
  rewrite In_insert_index, IH. intuition congruence.
Qed.

Lemma In_entries o kv : In kv (entries o) <-> In kv o.
Proof.
  unfold entries. rewrite in_app_iff, in_map_iff, filter_In.
  unfold is_index. split.
  - intros [((i, kv') & <- & H) | [H _]]; [|exact H].
    apply (proj1 (In_sorted_index _ _)) in H. unfold index_props in H.
    apply in_flat_map in H. destruct H as (kv'' & Hin & H).
    destruct (array_index (fst kv'')); [|destruct H].
    destruct H as [H|[]]. injection H as _ ->. exact Hin.
  - intros Hin. destruct (array_index (fst kv)) as [i|] eqn:E.
    + left. exists (i, kv). split; [reflexivity|].
      apply In_sorted_index. unfold index_props. apply in_flat_map.
      exists kv. split; [exact Hin|]. rewrite E. left; reflexivity.
    + right. split; [exact Hin | reflexivity].
Qed.

Lemma length_insert_index x (l : list (N * (jsstring * V))) :
  length (insert_index x l) = S (length l).
Proof.
  induction l as [|z l IH]; simpl; [reflexivity|].
  destruct (N.ltb _ _); simpl; [rewrite IH|]; reflexivity.
Qed.

End ObjFacts.

(** ** Stable sorting *)

Section SortFacts.
Context {A : Type} (after : A -> A -> bool).

Lemma In_insert_sorted x y (l : list A) :
  In y (insert_sorted after x l) <-> y = x \/ In y l.
Proof.
  induction l as [|z l IH]; simpl; [intuition congruence|].
  destruct (after x z); simpl; [rewrite IH|]; intuition congruence.
Qed.

Lemma In_sort (l : list A) y : In y (sort after l) <-> In y l.
Proof.
  unfold sort. induction l as [|x l IH]; simpl; [tauto|].
  rewrite In_insert_sorted, IH. intuition congruence.
Qed.

Lemma length_insert_sorted x (l : list A) :
  length (insert_sorted after x l) = S (length l).
Proof.
  induction l as [|z l IH]; simpl; [reflexivity|].
  destruct (after x z); simpl; [rewrite IH|]; reflexivity.
Qed.

Lemma length_sort (l : list A) : length (sort after l) = length l.
Proof.
  unfold sort. induction l as [|x l IH]; simpl; [reflexivity|].
  rewrite length_insert_sorted, IH. reflexivity.
Qed.

Lemma sort_nil_iff (l : list A) : sort after l = [] <-> l = [].
Proof.
  split; [|intros ->; reflexivity].
  intros H. apply (f_equal (@length _)) in H. rewrite length_sort in H.
  destruct l; [reflexivity | discriminate].
Qed.

End SortFacts.

(** ** NaN and zero in the arithmetic of the function *)

Lemma add_nan_l (x : number) : add NaN x = NaN.
Proof. reflexivity. Qed.

Lemma add_nan_r (x : number) : add x NaN = NaN.
Proof. destruct x; reflexivity. Qed.

Lemma sub_nan_r (x : number) : sub x NaN = NaN.
Proof. destruct x; reflexivity. Qed.

Lemma div_nan_l (x : number) : div NaN x = NaN.
Proof. reflexivity. Qed.

Lemma fold_add_nan_acc (l : list number) : fold_left add l NaN = NaN.
Proof. induction l as [|x l IH]; simpl; [reflexivity | exact IH]. Qed.

Lemma fold_add_nan (l : list number) (a : number) :
  In NaN l -> fold_left add l a = NaN.
Proof.
  revert a; induction l as [|x l IH]; intros a; simpl; [tauto|].
  intros [-> | H].
  - rewrite add_nan_r. apply fold_add_nan_acc.
  - apply IH, H.
Qed.

Lemma fold_add_zero (l : list number) :
  (forall x, In x l -> x = lit_0) -> fold_left add l lit_0 = lit_0.
Proof.
  induction l as [|x l IH]; simpl; intros H; [reflexivity|].
  rewrite (H x) by (left; reflexivity). simpl. apply IH.
  intros y Hy. apply H. right; exact Hy.
Qed.

Lemma div_zero_of_Z (n : Z) : 0 < n -> div lit_0 (of_Z n) = lit_0.
Proof.
  intros Hn. destruct (of_Z_pos n Hn) as [(m & e & ->) | ->]; reflexivity.
Qed.

(** ** The totals and the balances *)

Lemma all_values_empty P : all_values P empty.
Proof. intros k v []. Qed.

Lemma all_values_set P k v o :
  P v -> all_values P o -> all_values P (set k v o).
Proof.
  intros Hv Ho k' v' Hin. apply In_set in Hin.
  destruct Hin as [E | Hin]; [injection E as -> ->; exact Hv | eapply Ho, Hin].
Qed.

Lemma init_totals_values (vm : list jsstring) :
  all_values (fun v => v = lit_0) (init_totals vm).
Proof.
  unfold init_totals.
  assert (G : forall o, all_values (fun v => v = lit_0) o ->
    all_values (fun v => v = lit_0)
      (fold_left (fun ts m => set m lit_0 ts) vm o)).
  { induction vm as [|m vm IH]; intros o Ho; simpl; [exact Ho|].
    apply IH, all_values_set; [reflexivity | exact Ho]. }
  apply G, all_values_empty.
Qed.

Lemma Object_values_all P (o : obj number) :
  all_values P o -> forall v, In v (Object_values o) -> P v.
Proof.
  intros Ho v Hin. unfold Object_values in Hin. apply in_map_iff in Hin.
  destruct Hin as ((k, v') & <- & Hin). apply (proj1 (In_entries _ _)) in Hin.
  eapply Ho, Hin.
Qed.

Lemma In_Object_values k v (o : obj number) :
  own_get k o = Some v -> In v (Object_values o).
Proof.
  intros H. apply own_get_In in H. unfold Object_values.
  apply in_map_iff. exists (k, v). split; [reflexivity|].
  apply (proj2 (In_entries _ _)), H.
Qed.

Lemma balances_values (ts : obj number) (fs : number) (vm : list jsstring) :
  all_values (fun v => exists x, v = sub x fs)
             (fold_left (set_balance ts fs) vm empty).
Proof.
  assert (G : forall o, all_values (fun v => exists x, v = sub x fs) o ->
    all_values (fun v => exists x, v = sub x fs)
      (fold_left (set_balance ts fs) vm o)).
  { induction vm as [|m vm IH]; intros o Ho; simpl; [exact Ho|].
    apply IH. unfold set_balance. apply all_values_set; [eauto | exact Ho]. }
  apply G, all_values_empty.
Qed.

(** The values of [balances] when every total is the same [t]. *)
Lemma balances_values_const (ts : obj number) (t fs : number)
    (vm : list jsstring) :
  all_values (fun v => v = t) ts ->
  all_values (fun v => v = sub t fs \/ v = sub NaN fs)
             (fold_left (set_balance ts fs) vm empty).
Proof.
  intros Hts.
  assert (G : forall o, all_values (fun v => v = sub t fs \/ v = sub NaN fs) o ->
    all_values (fun v => v = sub t fs \/ v = sub NaN fs)
      (fold_left (set_balance ts fs) vm o)).
  { induction vm as [|m vm IH]; intros o Ho; simpl; [exact Ho|].
    apply IH. unfold set_balance. apply all_values_set; [|exact Ho].
    destruct (own_get m ts) as [x|] eqn:E; [left | right; reflexivity].
    apply own_get_In in E. rewrite (Hts _ _ E). reflexivity. }
  apply G, all_values_empty.
Qed.

Lemma filter_nil {A} (f : A -> bool) (l : list A) :
  (forall x, In x l -> f x = false) -> filter f l = [].
Proof.
  induction l as [|a l IH]; simpl; intros H; [reflexivity|].
  rewrite (H a) by (left; reflexivity). apply IH.
  intros x Hx. apply H. right; exact Hx.
Qed.

Lemma no_creditors (balances : obj number) :
  all_values (fun v => gt v lit_0 = false) balances ->
  creditors_of balances = [].
Proof.
  intros H. unfold creditors_of. rewrite filter_nil; [reflexivity|].
  intros [k v] Hin. apply (proj1 (In_entries _ _)) in Hin. exact (H _ _ Hin).
Qed.

Lemma no_debtors (balances : obj number) :
  all_values (fun v => lt v lit_0 = false) balances ->
  debtors_of balances = [].
Proof.
  intros H. unfold debtors_of. rewrite filter_nil; [reflexivity|].
  intros [k v] Hin. apply (proj1 (In_entries _ _)) in Hin. exact (H _ _ Hin).
Qed.

Lemma all_values_impl (P Q : number -> Prop) (o : obj number) :
  (forall v, P v -> Q v) -> all_values P o -> all_values Q o.
Proof. intros HPQ Ho k v Hin. apply HPQ. eapply Ho, Hin. Qed.

Lemma loop_no_creditors fuel ds txs :
  loop fuel {| creditors := []; debtors := ds; transactions := txs |} = Some txs.
Proof. destruct fuel; reflexivity. Qed.

(** Without any accepted expense every balance is zero and nothing is
    owed. *)
Lemma no_expense_result (fuel : nat) (vm : list jsstring) :
  vm <> [] ->
  loop fuel (initial_state (balances_of (init_totals vm) vm)) = Some [].
Proof.
  intros Hvm.
  assert (Hfs : fairShare_of (init_totals vm) vm = lit_0).
  { unfold fairShare_of, totalExpenses_of.
    rewrite fold_add_zero.
    - apply div_zero_of_Z. destruct vm; [congruence | simpl; lia].
    - apply Object_values_all, init_totals_values. }
  unfold initial_state. rewrite no_creditors; [apply loop_no_creditors|].
  unfold balances_of. rewrite Hfs.
  eapply all_values_impl;
    [|apply (balances_values_const _ lit_0), init_totals_values].
  intros v [-> | ->]; reflexivity.
Qed.

(** ** Expenses that are skipped *)

Lemma add_expense_skipped vm ts e :
  skipped vm e = true -> add_expense vm ts e = ts.
Proof.
  unfold skipped, add_expense. destruct (payer e); try reflexivity.
  intros ->. reflexivity.
Qed.

Lemma totalSpent_of_skip vm l1 e l2 :
  skipped vm e = true ->
  totalSpent_of (l1 ++ e :: l2) vm = totalSpent_of (l1 ++ l2) vm.
Proof.
  intros H. unfold totalSpent_of. rewrite !fold_left_app. simpl.
  rewrite add_expense_skipped by assumption. reflexivity.
Qed.

(** ** Real values of numbers *)

Lemma bpow_pos (e : Z) : (0 < bpow e)%R.
Proof. apply powerRZ_lt. lra. Qed.

Lemma bpow_add (a b : Z) : bpow (a + b) = (bpow a * bpow b)%R.
Proof. apply powerRZ_add. lra. Qed.

Lemma bpow_0 : bpow 0 = 1%R.
Proof. reflexivity. Qed.

Lemma bpow_IZR (k : Z) : 0 <= k -> bpow k = IZR (2 ^ k).
Proof.
  intros Hk. unfold bpow.
  rewrite <- (Z2Nat.id k Hk), <- pow_powerRZ, <- pow_IZR. reflexivity.
Qed.

Lemma bpow_le (a b : Z) : a <= b -> (bpow a <= bpow b)%R.
Proof.
  intros H. replace b with (a + (b - a)) by ring.
  rewrite bpow_add, (bpow_IZR (b - a)) by lia.
  assert (1 <= 2 ^ (b - a)).
  { assert (0 < 2 ^ (b - a)) by (apply Z.pow_pos_nonneg; lia). lia. }
  apply IZR_le in H0. pose proof (bpow_pos a). nra.
Qed.

Lemma bpow_lt (a b : Z) : a < b -> (bpow a < bpow b)%R.
Proof.
  intros H. replace b with (a + (b - a)) by ring.
  rewrite bpow_add, (bpow_IZR (b - a)) by lia.
  assert (2 <= 2 ^ (b - a)).
  { replace (b - a) with (Z.succ (b - a - 1)) by lia.
    rewrite Z.pow_succ_r by lia.
    assert (0 < 2 ^ (b - a - 1)) by (apply Z.pow_pos_nonneg; lia). lia. }
  apply IZR_le in H0. pose proof (bpow_pos a). nra.
Qed.

Lemma bpow_sub (a b : Z) : bpow (a - b) = (bpow a / bpow b)%R.
Proof.
  pose proof (bpow_pos b).
  replace a with ((a - b) + b) at 2 by ring. rewrite bpow_add.
  field. lra.
Qed.

(** The floor of a quotient by a power of two, as reals. *)
Lemma div_pow2_bounds (m p : Z) :
  0 <= m -> 0 <= p ->
  (IZR (m / 2 ^ p) * bpow p <= IZR m < (IZR (m / 2 ^ p) + 1) * bpow p)%R.
Proof.
  intros Hm Hp. rewrite bpow_IZR by assumption.
  assert (H2 : 0 < 2 ^ p) by (apply Z.pow_pos_nonneg; lia).
  pose proof (Z.mul_div_le m (2 ^ p) H2) as Hl.
  pose proof (Z.mul_succ_div_gt m (2 ^ p) H2) as Hu.
  rewrite <- mult_IZR. split.
  - apply IZR_le. lia.
  - rewrite <- plus_IZR, <- mult_IZR. apply IZR_lt. lia.
Qed.

(** Digits and magnitude. *)
Lemma Zdigits2_bpow (m : Z) :
  0 < m -> (bpow (Zdigits2 m - 1) <= IZR m < bpow (Zdigits2 m))%R.
Proof.
  intros Hm. pose proof (Zdigits2_bounds m Hm) as [Hl Hu].
  pose proof (Zdigits2_pos m Hm).
  rewrite !bpow_IZR by lia. split; [apply IZR_le | apply IZR_lt]; assumption.
Qed.

(** [binary_round_aux] as a rounding of reals: when the mantissa [m] at the
    exponent [e] is the floor of the real [t], the result stands for one of
    the two neighbours of [t] on the grid of step [2^e1], where [e1] is the
    exponent the format gives to [m]; it is [t] itself when [t] is on the
    grid and known exactly. *)
Lemma binary_round_aux_R (s : bool) (m e : Z) (l : location) (t : R) :
  0 < m ->
  (IZR m * bpow e <= t < IZR (m + 1) * bpow e)%R ->
  let p := shift_of m e in
  let e1 := e + p in
  exists (k : Z) (r : R),
    0 <= k /\
    (IZR k * bpow e1 <= t < (IZR k + 1) * bpow e1)%R /\
    (r = IZR k * bpow e1 \/ r = (IZR k + 1) * bpow e1)%R /\
    (l = loc_Exact -> m mod 2 ^ p = 0 -> t = (IZR m * bpow e)%R -> r = t) /\
    ((r = 0%R /\ binary_round_aux prec emax s m e l = S754_zero s) \/
     (exists m3 e3,
        r = (IZR (Zpos m3) * bpow e3)%R /\
        e1 <= e3 /\
        fexp prec emax (Zpos (digits2_pos m3) + e3) <= e3 /\
        (e <= fexp prec emax (Zdigits2 m + e) ->
         fexp prec emax (Zpos (digits2_pos m3) + e3) = e3) /\
        binary_round_aux prec emax s m e l =
        if e3 <=? emax - prec then S754_finite s m3 e3
        else S754_infinity s)).
Proof.
  intros Hm Ht p e1.
  destruct (binary_round_aux_spec s m e l Hm) as (m2 & Hm2 & Hex & Hres).
  fold p in Hm2, Hex, Hres.
  assert (Hp : 0 <= p) by apply Z.le_max_l.
  pose proof (div_pow2_bounds m p ltac:(lia) Hp) as [Hl Hu].
  assert (Hk : 0 <= m / 2 ^ p)
    by (apply Z.div_pos; [lia | apply Z.pow_pos_nonneg; lia]).
  pose proof (bpow_pos e) as Hbe. pose proof (bpow_pos p) as Hbp.
  assert (Hgrid : (IZR (m / 2 ^ p) * bpow e1 <= t
                   < (IZR (m / 2 ^ p) + 1) * bpow e1)%R).
  { unfold e1. rewrite bpow_add. rewrite plus_IZR in Ht.
    assert (Hu' : (IZR m + 1 <= (IZR (m / 2 ^ p) + 1) * bpow p)%R).
    { rewrite bpow_IZR by assumption.
      rewrite <- !plus_IZR, <- mult_IZR. apply IZR_le.
      assert (H2 : 0 < 2 ^ p) by (apply Z.pow_pos_nonneg; lia).
      pose proof (Z.mul_succ_div_gt m (2 ^ p) H2). lia. }
    split; nra. }
  exists (m / 2 ^ p), (IZR m2 * bpow e1)%R.
  split; [exact Hk|]. split; [exact Hgrid|].
  split.
  { destruct Hm2 as [-> | ->]; [left; reflexivity | right].
    rewrite plus_IZR. reflexivity. }
  split.
  { intros HE Hdiv ->. rewrite (Hex HE Hdiv).
    unfold e1. rewrite bpow_add.
    assert (E : IZR m = (IZR (m / 2 ^ p) * bpow p)%R).
    { rewrite bpow_IZR, <- mult_IZR by assumption. f_equal.
      rewrite Z.mul_comm. apply Z.div_exact; [|exact Hdiv].
      apply Z.pow_nonzero; [discriminate | assumption]. }
    rewrite (Rmult_comm (bpow e)), <- Rmult_assoc, <- E. reflexivity. }
  destruct Hres as [[-> ->] | (m3 & e3 & Hv & He3 & Hc1 & Hc2 & ->)].
  - left. split; [ring | reflexivity].
  - right. exists m3, e3. repeat split; try assumption.
    rewrite <- Hv, mult_IZR.
    rewrite <- bpow_IZR by (fold e1; lia).
    rewrite Rmult_assoc, <- bpow_add. do 2 f_equal. unfold e1. ring.
Qed.

(** The step of the grid is small against the value, or it is the step of
    the subnormal numbers. *)
Lemma grid_step (m e : Z) :
  0 < m -> e <= fexp prec emax (Zdigits2 m + e) ->
  let e1 := e + shift_of m e in
  e1 = fexp prec emax (Zdigits2 m + e) /\
  (e1 = -1074 \/ (bpow e1 <= bpow (-52) * (IZR m * bpow e))%R).
Proof.
  intros Hm Hen e1.
  assert (He1 : e1 = fexp prec emax (Zdigits2 m + e)).
  { unfold e1, shift_of. lia. }
  split; [exact He1|].
  rewrite fexp_eq in He1.
  destruct (Z_le_gt_dec (Zdigits2 m + e - 53) (-1074)) as [Hs | Hn].
  - left. lia.
  - right. replace e1 with (-52 + ((Zdigits2 m - 1) + e)) by lia.
    rewrite !bpow_add.
    pose proof (Zdigits2_bpow m Hm) as [Hl _].
    pose proof (bpow_pos (-52)). pose proof (bpow_pos e).
    apply Rmult_le_compat_l; [lra|].
    apply Rmult_le_compat_r; lra.
Qed.

(** ** Integers as numbers *)

(** An integer below 2^53 is a number. *)
Lemma of_Z_exact (n : Z) :
  0 < n < 2 ^ 53 ->
  exists m e, of_Z n = S754_finite false m e /\
              (IZR (Zpos m) * bpow e)%R = IZR n /\
              SpecFloat.bounded prec emax m e = true.
Proof.
  intros [Hn Hu]. destruct n as [|mx|mx]; try lia.
  unfold of_Z, binary_normalize.
  destruct (binary_round_spec false mx 0)
    as (Hmz & Hez & m2 & H1 & H2 & H3).
  set (ez := Z.min 0 (fexp prec emax (Zpos (digits2_pos mx) + 0))) in *.
  set (mz := Zpos mx * 2 ^ (0 - ez)) in *.
  set (p := shift_of mz ez) in *.
  assert (Hd : Zpos (digits2_pos mx) <= 53).
  { pose proof (Zdigits2_spec mx) as [Hl _].
    destruct (Z_le_gt_dec (Zpos (digits2_pos mx)) 53); [assumption|].
    exfalso.
    assert (2 ^ 53 <= 2 ^ (Zpos (digits2_pos mx) - 1))
      by (apply Z.pow_le_mono_r; lia).
    lia. }
  assert (Hez0 : ez = Zpos (digits2_pos mx) - 53).
  { unfold ez. rewrite fexp_eq. lia. }
  assert (Hp0 : p = 0).
  { rewrite fexp_eq in Hez. lia. }
  rewrite Hp0 in *. rewrite Z.pow_0_r, Z.div_1_r in *.
  specialize (H2 (Z.mod_1_r mz)). subst m2.
  destruct H3 as [[Hz _] | (m3 & e3 & Hv & He3 & Hc & Hr)]; [lia|].
  assert (He3' : e3 <= 0).
  { (* the mantissa has 53 digits at most *)
    pose proof (Zdigits2_spec m3) as [Hl3 _].
    rewrite fexp_eq in Hc.
    destruct (Z_le_gt_dec e3 0); [assumption|]. exfalso.
    assert (Hd3 : Zpos (digits2_pos m3) = 53) by lia.
    rewrite Hd3 in Hl3. simpl in Hl3.
    assert (Hmzu : mz < 2 ^ 53).
    { unfold mz. rewrite Hez0.
      pose proof (Zdigits2_spec mx) as [_ Hux].
      replace (0 - (Zpos (digits2_pos mx) - 53))
        with (53 - Zpos (digits2_pos mx)) by ring.
      replace 53 with (Zpos (digits2_pos mx) + (53 - Zpos (digits2_pos mx)))
        at 2 by ring.
      rewrite Z.pow_add_r by lia.
      apply Z.mul_lt_mono_pos_r; [apply Z.pow_pos_nonneg; lia | assumption]. }
    assert (2 <= 2 ^ (e3 - (ez + 0))).
    { replace (e3 - (ez + 0)) with (Z.succ (e3 - ez - 1)) by lia.
      rewrite Z.pow_succ_r by lia.
      assert (0 < 2 ^ (e3 - ez - 1)) by (apply Z.pow_pos_nonneg; lia). lia. }
    nia. }
  rewrite Hr. replace (e3 <=? emax - prec) with true
    by (symmetry; apply Z.leb_le; unfold emax, prec; lia).
  exists m3, e3. split; [reflexivity|]. split.
  - assert (E : IZR (Zpos mx) = (IZR mz * bpow ez)%R).
    { unfold mz. rewrite mult_IZR, <- bpow_IZR by lia.
      rewrite Rmult_assoc, <- bpow_add.
      replace (0 - ez + ez) with 0 by ring. rewrite bpow_0. ring. }
    rewrite E, <- Hv, mult_IZR, <- bpow_IZR by lia.
    rewrite Rmult_assoc, <- bpow_add. do 2 f_equal. ring.
  - unfold SpecFloat.bounded, canonical_mantissa. apply andb_true_iff. split.
    + apply Z.eqb_eq. exact Hc.
    + apply Z.leb_le. unfold emax, prec. lia.
Qed.

(** ** Division *)

Lemma div_core_spec (mx my : positive) (ex ey : Z) :
  let e' := Z.min (fexp prec emax (Zpos (digits2_pos mx) + ex
                                   - (Zpos (digits2_pos my) + ey)))
                  (ex - ey) in
  let s := ex - ey - e' in
  0 <= s /\
  exists l,
    SFdiv_core_binary prec emax (Zpos mx) ex (Zpos my) ey =
    (Zpos mx * 2 ^ s / Zpos my, e', l).
Proof.
  intros e' s.
  assert (Hs : 0 <= s) by (unfold s, e'; lia).
  split; [exact Hs|].
  unfold SFdiv_core_binary. cbn [Zdigits2]. fold e'. fold s.
  assert (E : match s with
              | 0 => Zpos mx
              | Zpos _ => Z.shiftl (Zpos mx) s
              | Zneg _ => 0
              end = Zpos mx * 2 ^ s).
  { destruct s as [|q|q] eqn:Es; [rewrite Z.pow_0_r; ring | | lia].
    apply Z.shiftl_mul_pow2. lia. }
  rewrite E.
  unfold Z.div, Z.modulo.
  destruct (Z.div_eucl (Zpos mx * 2 ^ s) (Zpos my)) as [q r].
  eexists. reflexivity.
Qed.

(** The quotient of two finite numbers: the result stands for a neighbour
    of the real quotient [t] on the grid of step [2^e1], a step that is
    small against [t] unless it is the step of the subnormal numbers. *)
Lemma div_R (sx sy : bool) (mx my : positive) (ex ey : Z) :
  let t := ((IZR (Zpos mx) * bpow ex) / (IZR (Zpos my) * bpow ey))%R in
  (bpow (-1074) <= t)%R ->
  exists (e1 : Z) (r : R),
    (t - bpow e1 < r <= t + bpow e1)%R /\
    (e1 = -1074 \/ (bpow e1 <= bpow (-52) * t)%R) /\
    ((r = 0%R /\
      div (S754_finite sx mx ex) (S754_finite sy my ey) =
      S754_zero (xorb sx sy)) \/
     (exists m3 e3,
        r = (IZR (Zpos m3) * bpow e3)%R /\
        fexp prec emax (Zpos (digits2_pos m3) + e3) = e3 /\
        div (S754_finite sx mx ex) (S754_finite sy my ey) =
        if e3 <=? emax - prec then S754_finite (xorb sx sy) m3 e3
        else S754_infinity (xorb sx sy))).
Proof.
  intros t Ht.
  destruct (div_core_spec mx my ex ey) as (Hs & l & Hcore).
  set (M := Zpos (digits2_pos mx) + ex - (Zpos (digits2_pos my) + ey)) in *.
  set (e' := Z.min (fexp prec emax M) (ex - ey)) in *.
  set (s := ex - ey - e') in *.
  set (q := Zpos mx * 2 ^ s / Zpos my) in *.
  unfold div, SFdiv. rewrite Hcore.
  assert (H2s : 0 < 2 ^ s) by (apply Z.pow_pos_nonneg; lia).
  pose proof (bpow_pos ex) as Hbx. pose proof (bpow_pos ey) as Hby.
  pose proof (bpow_pos e') as Hbe'.
  assert (Hmy : (0 < IZR (Zpos my))%R) by (apply IZR_lt; reflexivity).
  assert (Hmx : (0 < IZR (Zpos mx))%R) by (apply IZR_lt; reflexivity).
  (* the real quotient in units of 2^e' *)
  assert (Ett : t = (IZR (Zpos mx * 2 ^ s) / IZR (Zpos my) * bpow e')%R).
  { unfold t. rewrite mult_IZR, <- bpow_IZR by assumption.
    replace ex with (s + e' + ey) at 1 by (unfold s; ring).
    rewrite !bpow_add. field. split; lra. }
  assert (Hq : (IZR q * bpow e' <= t < IZR (q + 1) * bpow e')%R).
  { rewrite Ett.
    pose proof (Z.mul_div_le (Zpos mx * 2 ^ s) (Zpos my) ltac:(lia)) as Hl.
    pose proof (Z.mul_succ_div_gt (Zpos mx * 2 ^ s) (Zpos my) ltac:(lia)) as Hu.
    fold q in Hl, Hu. apply IZR_le in Hl. apply IZR_lt in Hu.
    unfold Z.succ in Hu.
    rewrite (mult_IZR (Zpos my)) in Hl, Hu. rewrite plus_IZR in Hu.
    set (a := IZR (Zpos mx * 2 ^ s)) in *.
    assert (Ea : (a / IZR (Zpos my) * IZR (Zpos my) = a)%R) by (field; lra).
    rewrite plus_IZR.
    split.
    - apply Rmult_le_compat_r; [lra|]. nra.
    - apply Rmult_lt_compat_r; [lra|]. nra. }
  assert (Hqpos : 0 < q).
  { destruct (Z_lt_le_dec 0 q) as [|Hle]; [assumption|]. exfalso.
    assert (He' : e' <= -1074).
    { (* otherwise the quotient has 53 digits *)
      destruct (Z_le_gt_dec e' (-1074)) as [|Hgt]; [assumption|]. exfalso.
      assert (Hfx : fexp prec emax M = M - 53)
        by (unfold e' in Hgt; rewrite fexp_eq in *; lia).
      assert (Hs53 : 53 - Zpos (digits2_pos mx) + Zpos (digits2_pos my) <= s)
        by (unfold s, e'; rewrite Hfx; unfold M; lia).
      pose proof (Zdigits2_spec mx) as [Hlx _].
      pose proof (Zdigits2_spec my) as [_ Huy].
      assert (Hbig : Zpos my * 1 <= Zpos mx * 2 ^ s).
      { rewrite Z.mul_1_r.
        apply Z.le_trans with (2 ^ Zpos (digits2_pos my)); [lia|].
        apply Z.le_trans
          with (2 ^ (Zpos (digits2_pos mx) - 1) * 2 ^ s);
          [|apply Z.mul_le_mono_nonneg_r; lia].
        rewrite <- Z.pow_add_r by lia.
        apply Z.pow_le_mono_r; lia. }
      assert (1 <= q).
      { unfold q. apply Z.div_le_lower_bound; [reflexivity | exact Hbig]. }
      lia. }
    assert (IZR (q + 1) <= 1)%R by (apply IZR_le; lia).
    assert (bpow e' <= bpow (-1074))%R by (apply bpow_le; assumption).
    destruct Hq as [_ Hq]. nra. }
  assert (Hen : e' <= fexp prec emax (Zdigits2 q + e')).
  { assert (Hdq : Zpos (digits2_pos mx) + s - Zpos (digits2_pos my)
                  <= Zdigits2 q).
    { pose proof (Zdigits2_pos q Hqpos) as Hd1.
      destruct (Z_le_gt_dec
                  (Zpos (digits2_pos mx) + s - Zpos (digits2_pos my)) 1)
        as [|Hbig]; [lia|].
      pose proof (Zdigits2_spec mx) as [Hlx _].
      pose proof (Zdigits2_spec my) as [_ Huy].
      set (k := Zpos (digits2_pos mx) + s - Zpos (digits2_pos my) - 1) in *.
      assert (Hlow : 2 ^ k <= q).
      { unfold q. apply Z.div_le_lower_bound; [reflexivity|].
        apply Z.le_trans with (2 ^ Zpos (digits2_pos my) * 2 ^ k).
        - apply Z.mul_le_mono_nonneg_r;
            [apply Z.pow_nonneg; lia | lia].
        - rewrite <- Z.pow_add_r by lia.
          apply Z.le_trans with (2 ^ (Zpos (digits2_pos mx) - 1) * 2 ^ s);
            [|apply Z.mul_le_mono_nonneg_r; lia].
          rewrite <- Z.pow_add_r by lia.
          apply Z.pow_le_mono_r; unfold k; lia. }
      pose proof (Zdigits2_bounds q Hqpos) as [_ Hqu].
      destruct (Z_le_gt_dec (k + 1) (Zdigits2 q)) as [|Hc]; [lia|].
      exfalso.
      assert (2 ^ Zdigits2 q <= 2 ^ k) by (apply Z.pow_le_mono_r; lia).
      lia. }
    rewrite fexp_eq. unfold e' at 1. rewrite fexp_eq.
    unfold M. unfold s in Hdq. lia. }
  destruct (binary_round_aux_R (xorb sx sy) q e' l t Hqpos Hq)
    as (k & r & Hk & Hgrid & Hr & _ & Hres).
  destruct (grid_step q e' Hqpos Hen) as [He1 Hstep].
  exists (e' + shift_of q e'), r.
  split.
  { destruct Hr as [-> | ->]; pose proof (bpow_pos (e' + shift_of q e')); lra. }
  split.
  { destruct Hstep as [Hstep | Hstep]; [left; exact Hstep | right].
    destruct Hq as [Hq _]. pose proof (bpow_pos (-52)). nra. }
  destruct Hres as [Hz | (m3 & e3 & Hr3 & He3 & _ & Hc & Hres)];
    [left; exact Hz | right].
  exists m3, e3. repeat split; try assumption. apply Hc, Hen.
Qed.

(** ** The settled amount *)

Lemma bra_finite_digits s m e l s' m3 e3 :
  0 < m ->
  binary_round_aux prec emax s m e l = S754_finite s' m3 e3 ->
  s' = s /\ Zpos (digits2_pos m3) <= 53.
Proof.
  intros Hm H.
  destruct (binary_round_aux_spec s m e l Hm)
    as (m2 & _ & _ & [[_ Hz] | (m3' & e3' & _ & _ & Hc & _ & Hr)]).
  - rewrite Hz in H. discriminate.
  - rewrite Hr in H. destruct (e3' <=? emax - prec); [|discriminate].
    injection H as <- <- <-. split; [reflexivity|].
    rewrite fexp_eq in Hc. lia.
Qed.

Lemma mul_finite_digits (x y : number) s m e :
  mul x y = S754_finite s m e -> Zpos (digits2_pos m) <= 53.
Proof.
  destruct x as [sx|sx| |sx mx ex], y as [sy|sy| |sy my ey];
    try discriminate.
  unfold mul, SFmul. intros H.
  apply bra_finite_digits in H; [tauto | reflexivity].
Qed.

Lemma lit_100_R : B2R lit_100 = 100%R.
Proof.
  change lit_100 with (S754_finite false 7036874417766400 (-46)).
  unfold B2R, cond_Zopp.
  replace (-46) with (- (46)) by reflexivity.
  unfold bpow. rewrite powerRZ_neg'.
  change (powerRZ 2 46) with (bpow 46). rewrite (bpow_IZR 46) by lia.
  change (2 ^ 46) with 70368744177664.
  replace 7036874417766400%Z with (100 * 70368744177664) by reflexivity.
  rewrite mult_IZR. field.
Qed.

Lemma div_sign (x y : number) :
  gt (div x y) lit_0 = true ->
  y = S754_finite false 7036874417766400 (-46) ->
  (exists m e, x = S754_finite false m e) \/ x = S754_infinity false.
Proof.
  intros H ->. destruct x as [sx|sx| |sx mx ex]; try discriminate.
  - destruct sx; [discriminate | right; reflexivity].
  - destruct sx; [|left; eauto]. exfalso.
    unfold div, SFdiv in H.
    destruct (SFdiv_core_binary _ _ _ _ _) as [[mz ez] lz].
    unfold binary_round_aux in H.
    destruct (shr_fexp _ _ _ _ _) as [mrs' e'].
    destruct (shr_fexp _ _ _ _ _) as [mrs'' e''].
    destruct (shr_m mrs''); try discriminate.
    destruct (_ <=? _); discriminate.
Qed.

(** [Math.round] gives an integer: either the argument, when it has no
    fractional bits, or the rounding of an integer below 2^53. *)
Lemma Math_round_pos (y : number) (m : positive) (e : Z) :
  (forall s my ey, y = S754_finite s my ey -> Zpos (digits2_pos my) <= 53) ->
  Math_round y = S754_finite false m e ->
  (1 <= IZR (Zpos m) * bpow e)%R.
Proof.
  intros Hy H. destruct y as [sy|sy| |sy my ey]; try discriminate.
  specialize (Hy _ _ _ eq_refl).
  unfold Math_round in H. destruct (0 <=? ey) eqn:Ee.
  - injection H as -> -> ->. apply Z.leb_le in Ee.
    rewrite bpow_IZR, <- mult_IZR by assumption. apply IZR_le.
    assert (0 < 2 ^ e) by (apply Z.pow_pos_nonneg; lia). nia.
  - apply Z.leb_gt in Ee.
    set (n := (2 * cond_Zopp sy (Zpos my) + 2 ^ (- ey)) / 2 ^ (1 - ey)) in *.
    destruct (n =? 0) eqn:En; [discriminate|]. apply Z.eqb_neq in En.
    assert (H2 : 0 < 2 ^ (1 - ey)) by (apply Z.pow_pos_nonneg; lia).
    assert (H2' : 0 < 2 ^ (- ey)) by (apply Z.pow_pos_nonneg; lia).
    assert (Hn : n < 2 ^ 53).
    { unfold n. apply Z.div_lt_upper_bound; [assumption|].
      pose proof (Zdigits2_spec my) as [_ Hu].
      assert (Zpos my < 2 ^ 53).
      { apply Z.lt_le_trans with (2 ^ Zpos (digits2_pos my)); [assumption|].
        apply Z.pow_le_mono_r; lia. }
      replace (1 - ey) with (Z.succ (- ey)) in * by lia.
      rewrite Z.pow_succ_r in * by lia.
      assert (1 <= 2 ^ (- ey)) by lia.
      destruct sy; simpl cond_Zopp; nia. }
    destruct (Z_lt_le_dec 0 n) as [Hpos | Hneg].
    + destruct (of_Z_exact n ltac:(lia)) as (m' & e' & E & Hv & _).
      rewrite E in H. injection H as <- <-. rewrite Hv.
      apply IZR_le. lia.
    + exfalso. destruct n as [|p|p]; try lia.
      unfold of_Z, binary_normalize in H.
      destruct (binary_round_spec true p 0)
        as (_ & _ & m2 & _ & _ & [[_ Hz] | (m3 & e3 & _ & _ & _ & Hr)]).
      * rewrite Hz in H. discriminate.
      * rewrite Hr in H. destruct (e3 <=? emax - prec); discriminate.
Qed.

(** A settled amount that is positive and finite is 0.005 at least. *)
Lemma settle_amount_lower (c d : entry) (m : positive) (e : Z) (s : bool) :
  settle_amount c d = S754_finite s m e ->
  gt (settle_amount c d) lit_0 = true ->
  s = false /\ (1 / 200 <= IZR (Zpos m) * bpow e)%R.
Proof.
  unfold settle_amount.
  set (y := mul (Math_min (balance c) (neg (balance d))) lit_100).
  intros Ha Hgt.
  assert (Hs : s = false).
  { rewrite Ha in Hgt. destruct s; [discriminate | reflexivity]. }
  split; [exact Hs|]. subst s.
  destruct (div_sign _ _ Hgt eq_refl) as [(mr & er & Er) | Er];
    [|rewrite Er in Ha; discriminate].
  assert (Hr1 : (1 <= IZR (Zpos mr) * bpow er)%R).
  { apply (Math_round_pos y); [|exact Er].
    intros s' my ey E. unfold y in E. eapply mul_finite_digits, E. }
  rewrite Er in Ha.
  change lit_100 with (S754_finite false 7036874417766400 (-46)) in Ha.
  pose proof lit_100_R as H100.
  change lit_100 with (S754_finite false 7036874417766400 (-46)) in H100.
  unfold B2R, cond_Zopp in H100.
  assert (Hb52 : (bpow (-52) <= 1 / 1024)%R).
  { apply Rle_trans with (bpow (-10)); [apply bpow_le; lia|].
    unfold bpow. simpl. lra. }
  assert (Hb1074 : (bpow (-1074) <= 1 / 1024)%R).
  { apply Rle_trans with (bpow (-10)); [apply bpow_le; lia|].
    unfold bpow. simpl. lra. }
  destruct (div_R false false mr 7036874417766400 er (-46))
    as (e1 & r & Hr & Hstep & Hres).
  { rewrite H100. lra. }
  rewrite H100 in Hr, Hstep.
  set (t := (IZR (Zpos mr) * bpow er / 100)%R) in *.
  assert (Ht : (1 / 100 <= t)%R) by (unfold t; lra).
  assert (Hrl : (1 / 200 <= r)%R).
  { destruct Hstep as [-> | Hstep]; [lra|].
    pose proof (bpow_pos (-52)). nra. }
  destruct Hres as [[Hz _] | (m3 & e3 & Hr3 & _ & Hd)]; [lra|].
  rewrite Hd in Ha. destruct (e3 <=? emax - prec); [|discriminate].
  injection Ha as <- <-. rewrite <- Hr3. exact Hrl.
Qed.

(** ** Decimal strings *)

Lemma uint_units_digits (d : Decimal.uint) :
  forallb is_digit (uint_units d) = true.
Proof. induction d; simpl; try rewrite IHd; reflexivity. Qed.

Lemma decimal_digits (n : N) : forallb is_digit (decimal n) = true.
Proof. apply uint_units_digits. Qed.

Lemma uint_units_nil (d : Decimal.uint) :
  uint_units d = [] -> d = Decimal.Nil.
Proof. destruct d; simpl; congruence. Qed.

Lemma decimal_nonempty (n : N) : decimal n <> [].
Proof.
  unfold decimal. intros H. apply uint_units_nil in H.
  destruct n as [|p]; [discriminate|].
  simpl in H. exact (DecimalPos.Unsigned.to_uint_nonnil p H).
Qed.

(** Reading the digits of a decimal numeral gives its value. *)
Lemma read_uint_units (d : Decimal.uint) (acc : N) (cnt : nat) :
  fst (fst (read_digits 10 (uint_units d) acc cnt)) =
  (acc * 10 ^ DecimalPos.Unsigned.usize d
   + DecimalPos.Unsigned.of_lu (Decimal.rev d))%N.
Proof.
  revert acc cnt.
  induction d; intros acc cnt;
    [simpl; lia | ..];
    cbn [uint_units read_digits];
    match goal with
    | |- context [digit_val 10 ?c] =>
        let v := eval vm_compute in (digit_val 10 c) in
        change (digit_val 10 c) with v
    end;
    cbv iota;
    match goal with
    | |- context [Decimal.rev (?f d)] =>
        change (Decimal.rev (f d)) with (Decimal.revapp d (f Decimal.Nil))
    end;
    rewrite IHd, DecimalPos.Unsigned.of_lu_revapp;
    cbn [DecimalPos.Unsigned.usize DecimalPos.Unsigned.of_lu];
    rewrite N.pow_succ_r'; lia.
Qed.

Lemma read_decimal (n : N) :
  fst (fst (read_digits 10 (decimal n) 0 0)) = n.
Proof.
  unfold decimal. rewrite read_uint_units.
  rewrite <- DecimalPos.Unsigned.of_uint_alt.
  change (Pos.of_uint (N.to_uint n)) with (N.of_uint (N.to_uint n)).
  rewrite DecimalN.Unsigned.of_to. lia.
Qed.

Lemma read_digits_cnt (s : jsstring) (acc : N) (c1 c2 : nat) :
  fst (fst (read_digits 10 s acc c1)) = fst (fst (read_digits 10 s acc c2)).
Proof.
  revert acc c1 c2; induction s as [|c s IH]; intros acc c1 c2; simpl;
    [reflexivity|].
  destruct (digit_val 10 c); [apply IH | reflexivity].
Qed.

Lemma read_zeros (k : nat) (s : jsstring) (cnt : nat) :
  fst (fst (read_digits 10 (repeat 48%N k ++ s) 0 cnt)) =
  fst (fst (read_digits 10 s 0 (k + cnt))).
Proof.
  revert cnt; induction k as [|k IH]; intros cnt; [reflexivity|].
  cbn [repeat app read_digits].
  change (digit_val 10 48%N) with (Some 0%N). cbv iota.
  change (N.add (N.mul 0 10) 0) with 0%N. rewrite IH.
  apply read_digits_cnt.
Qed.


Lemma split_fixed2_app (ip : jsstring) (d1 d2 : code_unit) :
  split_fixed2 (ip ++ [46%N; d1; d2]) = Some (ip, d1, d2).
Proof.
  unfold split_fixed2. rewrite rev_app_distr. simpl.
  rewrite rev_involutive. reflexivity.
Qed.

Lemma fixed2_intro (ip : jsstring) (d1 d2 : code_unit) :
  ip <> [] -> forallb is_digit (ip ++ [d1; d2]) = true ->
  is_fixed2 (ip ++ [46%N; d1; d2]) = true /\
  parse_fixed2 (ip ++ [46%N; d1; d2]) =
  Some (fst (fst (read_digits 10 (ip ++ [d1; d2]) 0 0))).
Proof.
  intros Hne Hd.
  assert (H : is_fixed2 (ip ++ [46%N; d1; d2]) = true).
  { unfold is_fixed2. rewrite split_fixed2_app.
    rewrite forallb_app in Hd. apply andb_true_iff in Hd. destruct Hd as [Hi Hf].
    simpl in Hf. rewrite Hi.
    destruct (is_digit d1), (is_digit d2); try discriminate.
    destruct ip; [congruence | reflexivity]. }
  split; [exact H|].
  unfold parse_fixed2. rewrite split_fixed2_app, H. reflexivity.
Qed.

(** The rendering of [n] hundredths has exactly two decimals and denotes
    [n] hundredths. *)
Lemma fixed2_format (n : N) :
  is_fixed2 (fixed2 n) = true /\ parse_fixed2 (fixed2 n) = Some n.
Proof.
  unfold fixed2.
  set (pd := repeat 48%N (3 - length (decimal n)) ++ decimal n).
  assert (HL : (3 <= length pd)%nat).
  { unfold pd. rewrite length_app, repeat_length.
    unfold jsstring, code_unit in *. lia. }
  assert (Hpd : forallb is_digit pd = true).
  { unfold pd. rewrite forallb_app, decimal_digits, andb_true_r.
    apply forallb_forall. intros x Hx. apply repeat_spec in Hx. subst.
    reflexivity. }
  assert (Hval : fst (fst (read_digits 10 pd 0 0)) = n).
  { unfold pd. rewrite read_zeros, (read_digits_cnt _ _ _ 0%nat).
    apply read_decimal. }
  pose proof (firstn_skipn (length pd - 2) pd) as Hsplit.
  assert (Hl2 : length (skipn (length pd - 2) pd) = 2%nat)
    by (rewrite length_skipn; lia).
  assert (Hl1 : length (firstn (length pd - 2) pd) = (length pd - 2)%nat)
    by (rewrite length_firstn; lia).
  destruct (skipn (length pd - 2) pd) as [|d1 [|d2 [|? ?]]]; try discriminate.
  set (ip := firstn (length pd - 2) pd) in *.
  assert (Hne : ip <> []).
  { intros E. rewrite E in Hl1. simpl in Hl1. lia. }
  rewrite <- Hsplit in Hpd, Hval.
  destruct (fixed2_intro ip d1 d2 Hne Hpd) as [H1 H2].
  split; [exact H1|]. etransitivity; [exact H2|]. f_equal. exact Hval.
Qed.

(** A string in exponent form is not of the two-decimal form. *)
Lemma exponent_form_not_fixed2 (x d : jsstring) :
  d <> [] -> forallb is_digit d = true ->
  is_fixed2 (x ++ lit "e+" ++ d) = false.
Proof.
  intros Hd Hdig. unfold is_fixed2, split_fixed2.
  rewrite !rev_app_distr.
  change (rev (lit "e+")) with [43%N; 101%N].
  destruct (rev d) as [|a [|b [|c r]]] eqn:E.
  - apply (f_equal (@rev _)) in E. rewrite rev_involutive in E. contradiction.
  - reflexivity.
  - reflexivity.
  - cbn [app].
    destruct (N.eqb c 46) eqn:Ec; [|reflexivity].
    apply N.eqb_eq in Ec. subst c. exfalso.
    assert (Hin : In 46%N d).
    { apply (proj2 (in_rev d 46%N)). rewrite E. right; right; left; reflexivity. }
    rewrite forallb_forall in Hdig. specialize (Hdig _ Hin). discriminate.
Qed.

(** ** The rendering of a settled amount *)

Lemma hundredths_pos (m : positive) (e : Z) :
  (1 / 200 <= IZR (Zpos m) * bpow e)%R -> 1 <= hundredths m e.
Proof.
  intros H. unfold hundredths. destruct (0 <=? e) eqn:Ee.
  - apply Z.leb_le in Ee.
    assert (0 < 2 ^ e) by (apply Z.pow_pos_nonneg; lia). nia.
  - apply Z.leb_gt in Ee.
    assert (H2 : 0 < 2 ^ (- e)) by (apply Z.pow_pos_nonneg; lia).
    apply Z.div_le_lower_bound; [apply Z.pow_pos_nonneg; lia|].
    replace (1 - e) with (Z.succ (- e)) by lia.
    rewrite Z.pow_succ_r by lia.
    assert (Hk : 2 ^ (- e) <= 200 * Zpos m); [|lia].
    apply le_IZR. rewrite mult_IZR, <- bpow_IZR by lia.
    pose proof (bpow_pos e) as Hb.
    assert (Hbb : (bpow (- e) * bpow e = 1)%R).
    { rewrite <- bpow_add. replace (- e + e) with 0 by ring. apply bpow_0. }
    pose proof (bpow_pos (- e)). nra.
Qed.

Lemma toString_large_not_fixed2 (m : positive) (e : Z) :
  is_fixed2 (toString_large m e) = false.
Proof.
  unfold toString_large.
  destruct (shortest _ _ _ _ _) as [[[n k] s]|]; [|reflexivity].
  set (ex := decimal (Z.to_N (n - 1))).
  assert (Hex : ex <> []) by apply decimal_nonempty.
  assert (Hdg : forallb is_digit ex = true) by apply decimal_digits.
  destruct (decimal (Z.to_N s)) as [|d [|d' r]].
  - apply (exponent_form_not_fixed2 []); assumption.
  - apply (exponent_form_not_fixed2 [d]); assumption.
  - apply (exponent_form_not_fixed2 (d :: 46%N :: d' :: r)); assumption.
Qed.

(** The rendering of a positive settled amount: two decimals and a positive
    value below 10^21, and no such form from 10^21 on. *)
Lemma settle_amount_rendering (c d : entry) :
  gt (settle_amount c d) lit_0 = true ->
  if ge_1e21 (settle_amount c d)
  then is_fixed2 (toFixed2 (settle_amount c d)) = false
  else is_fixed2 (toFixed2 (settle_amount c d)) = true /\
       exists n, parse_fixed2 (toFixed2 (settle_amount c d)) = Some n /\
                 (0 < n)%N.
Proof.
  intros Hgt.
  destruct (settle_amount c d) as [s|s| |s m e] eqn:Ea.
  - discriminate Hgt.
  - destruct s; [discriminate Hgt | vm_compute; reflexivity].
  - discriminate Hgt.
  - destruct (settle_amount_lower c d m e s Ea) as [-> Hl];
      [rewrite Ea; exact Hgt|].
    destruct (ge_1e21 (S754_finite false m e)) eqn:Ege.
    + unfold toFixed2. rewrite Ege. apply toString_large_not_fixed2.
    + unfold toFixed2. rewrite Ege. cbn [app].
      destruct (fixed2_format (Z.to_N (hundredths m e))) as [H1 H2].
      split; [exact H1|]. eexists. split; [exact H2|].
      pose proof (hundredths_pos m e Hl). lia.
Qed.

(** ** The function over the store *)

Module ImpFacts.
Import Imp.

Local Open Scope nat_scope.

Lemma bind_some {A B} (m : M A) (f : A -> M B) h a h' :
  m h = Some (a, h') -> bind m f h = f a h'.
Proof. unfold bind. intros ->. reflexivity. Qed.

Lemma bind_none {A B} (m : M A) (f : A -> M B) h :
  m h = None -> bind m f h = None.
Proof. unfold bind. intros ->. reflexivity. Qed.

Lemma read_at h l c : nth_error h l = Some c -> read l h = Some (c, h).
Proof. unfold read. intros ->. reflexivity. Qed.

Lemma read_strs_at h a l :
  nth_error h a = Some (ArrStr l) -> read_strs a h = Some (l, h).
Proof. intros H. unfold read_strs. rewrite (bind_some _ _ _ _ _ (read_at _ _ _ H)). reflexivity. Qed.

Lemma read_exps_at h a l :
  nth_error h a = Some (ArrExp l) -> read_exps a h = Some (l, h).
Proof. intros H. unfold read_exps. rewrite (bind_some _ _ _ _ _ (read_at _ _ _ H)). reflexivity. Qed.

Lemma read_obj_at h a o :
  nth_error h a = Some (ObjNum o) -> read_obj a h = Some (o, h).
Proof. intros H. unfold read_obj. rewrite (bind_some _ _ _ _ _ (read_at _ _ _ H)). reflexivity. Qed.

Lemma read_entry_at h a e :
  nth_error h a = Some (ObjEntry e) -> read_entry a h = Some (e, h).
Proof. intros H. unfold read_entry. rewrite (bind_some _ _ _ _ _ (read_at _ _ _ H)). reflexivity. Qed.

Lemma read_refs_at h a l :
  nth_error h a = Some (ArrRef l) -> read_refs a h = Some (l, h).
Proof. intros H. unfold read_refs. rewrite (bind_some _ _ _ _ _ (read_at _ _ _ H)). reflexivity. Qed.

Lemma read_txs_at h a l :
  nth_error h a = Some (ArrTx l) -> read_txs a h = Some (l, h).
Proof. intros H. unfold read_txs. rewrite (bind_some _ _ _ _ _ (read_at _ _ _ H)). reflexivity. Qed.

Lemma write_at h l c :
  l < length h -> write l c h = Some (tt, update h l c).
Proof.
  intros H. unfold write. apply Nat.ltb_lt in H. rewrite H. reflexivity.
Qed.

(** *** Updates of the store *)

Lemma length_update h l c : length (update h l c) = length h.
Proof.
  revert l; induction h as [|x h IH]; intros [|l]; simpl; auto.
Qed.

Lemma nth_update_same h l c :
  l < length h -> nth_error (update h l c) l = Some c.
Proof.
  revert l; induction h as [|x h IH]; intros [|l]; simpl; try lia; auto.
  intros H. apply IH. lia.
Qed.

Lemma nth_update_other h l l' c :
  l <> l' -> nth_error (update h l c) l' = nth_error h l'.
Proof.
  revert l l'; induction h as [|x h IH]; intros [|l] [|l']; simpl;
    try congruence; auto.
Qed.

Lemma extends_refl h : extends h h.
Proof. intros l c H; exact H. Qed.

Lemma extends_trans h1 h2 h3 :
  extends h1 h2 -> extends h2 h3 -> extends h1 h3.
Proof. intros H12 H23 l c H. apply H23, H12, H. Qed.

Lemma extends_app h l : extends h (h ++ l).
Proof.
  intros i c H. rewrite nth_error_app1; [exact H|].
  apply nth_error_Some. congruence.
Qed.

(** A store that agrees with [h'] except at [l], an address beyond [h],
    extends [h] as [h'] does. *)
Lemma extends_update h h' l c :
  extends h h' -> length h <= l -> extends h (update h' l c).
Proof.
  intros He Hl i x H. rewrite nth_update_other.
  - apply He, H.
  - assert (i < length h) by (apply nth_error_Some; congruence). lia.
Qed.


(** *** Loops over arrays *)

(** [forEach] over an array of strings simulates a fold over its elements,
    for a relation [R] between an abstract state and the store that keeps
    the array as it is. *)
Lemma forEach_str_sim {S : Type} (R : S -> heap -> Prop)
    (step : S -> jsstring -> S) (a : loc) (f : jsstring -> M unit)
    (l : list jsstring) :
  (forall s g, R s g -> nth_error g a = Some (ArrStr l)) ->
  (forall s g x, R s g -> In x l ->
     exists g', f x g = Some (tt, g') /\ R (step s x) g') ->
  forall s h, R s h ->
    exists h', forEach_str a f h = Some (tt, h') /\ R (fold_left step l s) h'.
Proof.
  intros Harr Hstep s h HR.
  unfold forEach_str.
  rewrite (bind_some _ _ _ _ _ (read_strs_at _ _ _ (Harr _ _ HR))).
  assert (G : forall n i s h, R s h -> i + n = length l ->
    exists h', forEach_str_from a f i n h = Some (tt, h') /\
               R (fold_left step (skipn i l) s) h').
  { induction n as [|n IH]; intros i s0 g HR0 Hlen.
    - exists g. split; [reflexivity|].
      rewrite skipn_all2 by lia. exact HR0.
    - cbn [forEach_str_from].
      rewrite (bind_some _ _ _ _ _ (read_strs_at _ _ _ (Harr _ _ HR0))).
      destruct (nth_error l i) as [x|] eqn:Ex;
        [|apply nth_error_None in Ex; lia].
      destruct (Hstep s0 g x HR0 (nth_error_In _ _ Ex)) as (g' & Hf & HR').
      rewrite (bind_some _ _ _ _ _ Hf).
      destruct (IH (Datatypes.S i) _ _ HR' ltac:(lia)) as (h' & Hh' & HR'').
      exists h'. split; [exact Hh'|].
      assert (E : skipn i l = x :: skipn (Datatypes.S i) l).
      { clear - Ex. revert i Ex. induction l as [|y l IHl]; intros [|i] Ex;
          simpl in *; try discriminate.
        - injection Ex as ->. reflexivity.
        - apply IHl, Ex. }
      rewrite E. exact HR''. }
  apply (G (length l) 0 s h HR). reflexivity.
Qed.

Lemma forEach_exp_sim {S : Type} (R : S -> heap -> Prop)
    (step : S -> expense -> S) (a : loc) (f : expense -> M unit)
    (l : list expense) :
  (forall s g, R s g -> nth_error g a = Some (ArrExp l)) ->
  (forall s g x, R s g -> In x l ->
     exists g', f x g = Some (tt, g') /\ R (step s x) g') ->
  forall s h, R s h ->
    exists h', forEach_exp a f h = Some (tt, h') /\ R (fold_left step l s) h'.
Proof.
  intros Harr Hstep s h HR.
  unfold forEach_exp.
  rewrite (bind_some _ _ _ _ _ (read_exps_at _ _ _ (Harr _ _ HR))).
  assert (G : forall n i s h, R s h -> i + n = length l ->
    exists h', forEach_exp_from a f i n h = Some (tt, h') /\
               R (fold_left step (skipn i l) s) h').
  { induction n as [|n IH]; intros i s0 g HR0 Hlen.
    - exists g. split; [reflexivity|].
      rewrite skipn_all2 by lia. exact HR0.
    - cbn [forEach_exp_from].
      rewrite (bind_some _ _ _ _ _ (read_exps_at _ _ _ (Harr _ _ HR0))).
      destruct (nth_error l i) as [x|] eqn:Ex;
        [|apply nth_error_None in Ex; lia].
      destruct (Hstep s0 g x HR0 (nth_error_In _ _ Ex)) as (g' & Hf & HR').
      rewrite (bind_some _ _ _ _ _ Hf).
      destruct (IH (Datatypes.S i) _ _ HR' ltac:(lia)) as (h' & Hh' & HR'').
      exists h'. split; [exact Hh'|].
      assert (E : skipn i l = x :: skipn (Datatypes.S i) l).
      { clear - Ex. revert i Ex. induction l as [|y l IHl]; intros [|i] Ex;
          simpl in *; try discriminate.
        - injection Ex as ->. reflexivity.
        - apply IHl, Ex. }
      rewrite E. exact HR''. }
  apply (G (length l) 0 s h HR). reflexivity.
Qed.

End ImpFacts.

Module ImpSim.
Import Imp ImpFacts.

Local Open Scope nat_scope.

Lemma obj_set_at g o x k v :
  nth_error g o = Some (ObjNum x) ->
  obj_set o k v g = Some (tt, update g o (ObjNum (set k v x))).
Proof.
  intros H. unfold obj_set.
  rewrite (bind_some _ _ _ _ _ (read_obj_at _ _ _ H)).
  apply write_at. apply nth_error_Some. congruence.
Qed.

Lemma push_ref_at g a l r :
  nth_error g a = Some (ArrRef l) ->
  push_ref a r g = Some (tt, update g a (ArrRef (l ++ [r]))).
Proof.
  intros H. unfold push_ref.
  rewrite (bind_some _ _ _ _ _ (read_refs_at _ _ _ H)).
  apply write_at. apply nth_error_Some. congruence.
Qed.

Lemma push_tx_at g a l t :
  nth_error g a = Some (ArrTx l) ->
  push_tx a t g = Some (tt, update g a (ArrTx (l ++ [t]))).
Proof.
  intros H. unfold push_tx.
  rewrite (bind_some _ _ _ _ _ (read_txs_at _ _ _ H)).
  apply write_at. apply nth_error_Some. congruence.
Qed.

Lemma shift_ref_at g a l :
  nth_error g a = Some (ArrRef l) ->
  shift_ref a g = Some (tt, update g a (ArrRef (tl l))).
Proof.
  intros H. unfold shift_ref.
  rewrite (bind_some _ _ _ _ _ (read_refs_at _ _ _ H)).
  apply write_at. apply nth_error_Some. congruence.
Qed.

Lemma nth_error_lt {A} (l : list A) i x :
  nth_error l i = Some x -> i < length l.
Proof. intros H. apply nth_error_Some. congruence. Qed.

Section Run.

(** The store before the call, with the two argument arrays in it. *)
Variables (h0 : heap) (expenses members : loc).
Variables (es : list expense) (ms : list jsstring).
Hypothesis Hes : nth_error h0 expenses = Some (ArrExp es).
Hypothesis Hms : nth_error h0 members = Some (ArrStr ms).

Let n0 := length h0.
Let vm := validMembers_of ms.

Let R_totals := Imp.R_totals h0 vm.
Let R_balances := Imp.R_balances h0 vm.

Lemma R_totals_set o g k v :
  R_totals o g ->
  R_totals (set k v o) (update g (n0 + 1) (ObjNum (set k v o))).
Proof.
  intros (He & Hl & Hvm & Hts). repeat split.
  - apply extends_update; [exact He | unfold n0; lia].
  - rewrite length_update. exact Hl.
  - rewrite nth_update_other by lia. exact Hvm.
  - apply nth_update_same. lia.
Qed.

Lemma init_totals_sim g :
  R_totals empty g ->
  exists g',
    forEach_str n0 (fun member => obj_set (n0 + 1) member lit_0) g
    = Some (tt, g') /\
    R_totals (init_totals vm) g'.
Proof.
  intros HR. unfold init_totals.
  apply (forEach_str_sim R_totals
           (fun totalSpent member => set member lit_0 totalSpent)); auto.
  - intros s g0 (_ & _ & H & _). exact H.
  - intros s g0 x HR0 _.
    destruct HR0 as (He & Hl & Hvm & Hts).
    eexists. split; [apply obj_set_at, Hts|].
    apply R_totals_set. repeat split; assumption.
Qed.

Lemma add_expense_sim o g e :
  R_totals o g ->
  exists g',
    Imp.add_expense n0 (n0 + 1) e g = Some (tt, g') /\
    R_totals (Split.add_expense vm o e) g'.
Proof.
  intros HR. pose proof HR as (He & Hl & Hvm & Hts).
  unfold Imp.add_expense, Split.add_expense.
  destruct (payer e) as [| | | |p]; try (exists g; split; [reflexivity | exact HR]).
  rewrite (bind_some _ _ _ _ _ (read_strs_at _ _ _ Hvm)).
  destruct (_ || _); [exists g; split; [reflexivity | exact HR]|].
  rewrite (bind_some _ _ _ _ _ (read_obj_at _ _ _ Hts)).
  destruct (own_get p o) as [x|]; [|exists g; split; [reflexivity | exact HR]].
  eexists. split; [apply obj_set_at, Hts|].
  apply R_totals_set, HR.
Qed.

Lemma expenses_sim o g :
  R_totals o g ->
  exists g',
    forEach_exp expenses (Imp.add_expense n0 (n0 + 1)) g = Some (tt, g') /\
    R_totals (fold_left (Split.add_expense vm) es o) g'.
Proof.
  intros HR.
  apply (forEach_exp_sim R_totals (Split.add_expense vm)); auto.
  - intros s g0 (He & _). apply He, Hes.
  - intros s g0 x HR0 _. apply add_expense_sim, HR0.
Qed.

Lemma balances_sim ts fs g :
  R_balances ts empty g ->
  exists g',
    forEach_str n0
      (fun member =>
         ts <- read_obj (n0 + 1) ;;
         obj_set (n0 + 2) member
           (sub (match own_get member ts with
                 | Some x => x
                 | None => NaN
                 end) fs)) g = Some (tt, g') /\
    R_balances ts (fold_left (set_balance ts fs) vm empty) g'.
Proof.
  intros HR.
  apply (forEach_str_sim (R_balances ts) (set_balance ts fs)); auto.
  - intros s g0 (_ & _ & H & _). exact H.
  - intros s g0 x (He & Hl & Hvm & Hts & Hb) _.
    rewrite (bind_some _ _ _ _ _ (read_obj_at _ _ _ Hts)).
    eexists. split; [apply obj_set_at, Hb|].
    unfold set_balance. repeat split.
    + apply extends_update; [exact He | unfold n0; lia].
    + rewrite length_update. exact Hl.
    + rewrite nth_update_other by lia. exact Hvm.
    + rewrite nth_update_other by lia. exact Hts.
    + apply nth_update_same. lia.
Qed.


(** The entries: [transactions], [creditors], [debtors] and the keys are at
    [n0 + 3] to [n0 + 6], the entries after them. *)
Let R_lists := Imp.R_lists h0.

Lemma points_app g l r e : points g r e -> points (g ++ l) r e.
Proof.
  unfold points. intros H. rewrite nth_error_app1; [exact H|].
  eapply nth_error_lt, H.
Qed.

Lemma points_update g a c r e :
  points g r e -> r <> a -> points (update g a c) r e.
Proof. unfold points. intros H Hne. rewrite nth_update_other; auto. Qed.

Lemma Forall2_points_mono g g' refs l :
  (forall r e, In r refs -> points g r e -> points g' r e) ->
  Forall2 (points g) refs l -> Forall2 (points g') refs l.
Proof.
  intros Hm H. induction H as [|r e refs l Hp H IH]; constructor.
  - apply Hm; [left; reflexivity | exact Hp].
  - apply IH. intros r' e' Hin. apply Hm. right; exact Hin.
Qed.

Lemma Forall2_points_lt g refs l r :
  Forall2 (points g) refs l -> In r refs -> r < length g.
Proof.
  intros H. induction H as [|r' e refs l Hp H IH]; intros Hin.
  - destruct Hin.
  - destruct Hin as [<-|Hin]; [eapply nth_error_lt, Hp | apply IH, Hin].
Qed.

Lemma gt_not_lt (v : number) : gt v lit_0 = true -> lt v lit_0 = false.
Proof. destruct v as [s|s| |s m e]; try discriminate; destruct s; auto. Qed.

(** Allocating an entry and pushing its reference to one of the two arrays. *)
Lemma push_creditor_sim bal keys st g e :
  R_lists bal keys st g ->
  exists g',
    (r <- alloc (ObjEntry e) ;; push_ref (n0 + 4) r) g = Some (tt, g') /\
    R_lists bal keys
      {| creditors := creditors st ++ [e]; debtors := debtors st;
         transactions := transactions st |} g'.
Proof.
  intros (crefs & drefs & He & Hl & Hbal & Htx & Hcr & Hdr & Hk & Fc & Fd
          & Hnd & Hge).
  fold n0 in Hl, Hbal, Htx, Hcr, Hdr, Hk, Hge.
  unfold bind at 1, alloc.
  assert (Hcr' : nth_error (g ++ [ObjEntry e]) (n0 + 4) = Some (ArrRef crefs)).
  { rewrite nth_error_app1 by lia. exact Hcr. }
  rewrite (push_ref_at _ _ _ _ Hcr').
  eexists. split; [reflexivity|].
  assert (Hold : forall r x, In r (crefs ++ drefs) -> points g r x ->
                 points (update (g ++ [ObjEntry e]) (n0 + 4)
                           (ArrRef (crefs ++ [length g]))) r x).
  { intros r x Hin Hp. apply points_update; [apply points_app, Hp|].
    specialize (Hge r Hin). lia. }
  exists (crefs ++ [length g]), drefs. cbn [creditors debtors transactions].
  fold n0.
  repeat split.
  - apply extends_update; [|unfold n0; lia].
    eapply extends_trans; [exact He | apply extends_app].
  - rewrite length_update, length_app. simpl. lia.
  - rewrite nth_update_other, nth_error_app1 by lia. exact Hbal.
  - rewrite nth_update_other, nth_error_app1 by lia. exact Htx.
  - apply nth_update_same. rewrite length_app. simpl. lia.
  - rewrite nth_update_other, nth_error_app1 by lia. exact Hdr.
  - rewrite nth_update_other, nth_error_app1 by lia. exact Hk.
  - apply Forall2_app.
    + eapply Forall2_points_mono; [|exact Fc].
      intros r x Hin. apply Hold. apply in_or_app. left; exact Hin.
    + constructor; [|constructor]. unfold points.
      rewrite nth_update_other by lia.
      rewrite nth_error_app2 by lia. rewrite Nat.sub_diag. reflexivity.
  - eapply Forall2_points_mono; [|exact Fd].
    intros r x Hin. apply Hold. apply in_or_app. right; exact Hin.
  - rewrite <- app_assoc. simpl. apply NoDup_Add with (a := length g)
      (l := crefs ++ drefs).
    + apply Add_app.
    + split; [exact Hnd|].
      intros Hin. apply in_app_or in Hin. destruct Hin as [Hin|Hin].
      * pose proof (Forall2_points_lt _ _ _ _ Fc Hin). lia.
      * pose proof (Forall2_points_lt _ _ _ _ Fd Hin). lia.
  - intros r Hin. rewrite <- app_assoc in Hin. simpl in Hin.
    apply in_app_or in Hin. destruct Hin as [Hin | [<- | Hin]].
    + apply Hge, in_or_app. left; exact Hin.
    + lia.
    + apply Hge, in_or_app. right; exact Hin.
Qed.

Lemma push_debtor_sim bal keys st g e :
  R_lists bal keys st g ->
  exists g',
    (r <- alloc (ObjEntry e) ;; push_ref (n0 + 5) r) g = Some (tt, g') /\
    R_lists bal keys
      {| creditors := creditors st; debtors := debtors st ++ [e];
         transactions := transactions st |} g'.
Proof.
  intros (crefs & drefs & He & Hl & Hbal & Htx & Hcr & Hdr & Hk & Fc & Fd
          & Hnd & Hge).
  fold n0 in Hl, Hbal, Htx, Hcr, Hdr, Hk, Hge.
  unfold bind at 1, alloc.
  assert (Hdr' : nth_error (g ++ [ObjEntry e]) (n0 + 5) = Some (ArrRef drefs)).
  { rewrite nth_error_app1 by lia. exact Hdr. }
  rewrite (push_ref_at _ _ _ _ Hdr').
  eexists. split; [reflexivity|].
  assert (Hold : forall r x, In r (crefs ++ drefs) -> points g r x ->
                 points (update (g ++ [ObjEntry e]) (n0 + 5)
                           (ArrRef (drefs ++ [length g]))) r x).
  { intros r x Hin Hp. apply points_update; [apply points_app, Hp|].
    specialize (Hge r Hin). lia. }
  exists crefs, (drefs ++ [length g]). cbn [creditors debtors transactions].
  fold n0.
  repeat split.
  - apply extends_update; [|unfold n0; lia].
    eapply extends_trans; [exact He | apply extends_app].
  - rewrite length_update, length_app. simpl. lia.
  - rewrite nth_update_other, nth_error_app1 by lia. exact Hbal.
  - rewrite nth_update_other, nth_error_app1 by lia. exact Htx.
  - rewrite nth_update_other, nth_error_app1 by lia. exact Hcr.
  - apply nth_update_same. rewrite length_app. simpl. lia.
  - rewrite nth_update_other, nth_error_app1 by lia. exact Hk.
  - eapply Forall2_points_mono; [|exact Fc].
    intros r x Hin. apply Hold. apply in_or_app. left; exact Hin.
  - apply Forall2_app.
    + eapply Forall2_points_mono; [|exact Fd].
      intros r x Hin. apply Hold. apply in_or_app. right; exact Hin.
    + constructor; [|constructor]. unfold points.
      rewrite nth_update_other by lia.
      rewrite nth_error_app2 by lia. rewrite Nat.sub_diag. reflexivity.
  - rewrite app_assoc. apply NoDup_Add with (a := length g)
      (l := crefs ++ drefs).
    + rewrite <- (app_nil_r (crefs ++ drefs)) at 1.
      apply Add_app.
    + split; [exact Hnd|].
      intros Hin. apply in_app_or in Hin. destruct Hin as [Hin|Hin].
      * pose proof (Forall2_points_lt _ _ _ _ Fc Hin). lia.
      * pose proof (Forall2_points_lt _ _ _ _ Fd Hin). lia.
  - intros r Hin. rewrite app_assoc in Hin.
    apply in_app_or in Hin. destruct Hin as [Hin | [<- | []]].
    + apply Hge, Hin.
    + lia.
Qed.

Lemma classify_sim bal keys st g :
  R_lists bal keys st g ->
  exists g',
    forEach_str (n0 + 6) (classify (n0 + 2) (n0 + 4) (n0 + 5)) g
    = Some (tt, g') /\
    R_lists bal keys (fold_left (classify_step bal) keys st) g'.
Proof.
  intros HR.
  apply (forEach_str_sim (R_lists bal keys) (classify_step bal)); auto.
  - intros s g0 (crefs & drefs & _ & _ & _ & _ & _ & _ & H & _). exact H.
  - intros s g0 x HR0 _.
    pose proof HR0 as (crefs & drefs & He & Hl & Hbal & _).
    unfold classify, classify_step.
    rewrite (bind_some _ _ _ _ _ (read_obj_at _ _ _ Hbal)).
    destruct (own_get x bal) as [v|];
      [|exists g0; split; [reflexivity | exact HR0]].
    destruct (gt v lit_0); [apply push_creditor_sim, HR0|].
    destruct (lt v lit_0); [apply push_debtor_sim, HR0|].
    exists g0; split; [reflexivity | exact HR0].
Qed.

End Run.

End ImpSim.

(** ** Unique keys *)

Lemma existsb_eqb_In (k : jsstring) (l : list jsstring) :
  existsb (JSStr.eqb k) l = true <-> In k l.
Proof. apply includes_In. Qed.

Lemma put_NoDup {V} (k : jsstring) (v : V) (o : obj V) :
  NoDup (map fst o) -> NoDup (map fst (put k v o)).
Proof.
  intros H. rewrite put_keys.
  destruct (existsb (JSStr.eqb k) (map fst o)) eqn:E; [exact H|].
  apply NoDup_Add with (a := k) (l := map fst o).
  - rewrite <- (app_nil_r (map fst o)) at 1. apply Add_app.
  - split; [exact H|]. intros Hin. apply existsb_eqb_In in Hin. congruence.
Qed.

Lemma set_NoDup {V} (k : jsstring) (v : V) (o : obj V) :
  NoDup (map fst o) -> NoDup (map fst (set k v o)).
Proof.
  unfold set. destruct (JSStr.eqb k proto_key); [auto | apply put_NoDup].
Qed.

Lemma balances_NoDup ts fs vm :
  NoDup (map fst (fold_left (set_balance ts fs) vm empty)).
Proof.
  assert (G : forall o, NoDup (map fst o) ->
            NoDup (map fst (fold_left (set_balance ts fs) vm o))).
  { induction vm as [|m vm IH]; intros o Ho; simpl; [exact Ho|].
    apply IH. unfold set_balance. apply set_NoDup, Ho. }
  apply G. constructor.
Qed.

Lemma own_get_NoDup {V} (k : jsstring) (v : V) (o : obj V) :
  NoDup (map fst o) -> In (k, v) o -> own_get k o = Some v.
Proof.
  induction o as [|[k' v'] o IH]; simpl; [tauto|].
  intros Hnd [E | Hin].
  - injection E as -> ->. rewrite eqb_refl. reflexivity.
  - inversion Hnd as [|? ? Hni Hnd']; subst.
    destruct (JSStr.eqb k k') eqn:E.
    + apply eqb_eq in E. subst k'. exfalso. apply Hni.
      apply in_map_iff. exists (k, v). split; [reflexivity | exact Hin].
    + apply IH; assumption.
Qed.

(** The loop over the keys pushes the entries that [creditors_of] and
    [debtors_of] list. *)
Lemma classify_fold (bal : obj number) (kvs : list (jsstring * number)) :
  (forall kv, In kv kvs -> own_get (fst kv) bal = Some (snd kv)) ->
  forall st,
    fold_left (Imp.classify_step bal) (map fst kvs) st =
    {| creditors :=
         creditors st
         ++ map mk_entry (filter (fun kv => gt (snd kv) lit_0) kvs);
       debtors :=
         debtors st
         ++ map mk_entry (filter (fun kv => lt (snd kv) lit_0) kvs);
       transactions := transactions st |}.
Proof.
  induction kvs as [|[k v] kvs IH]; intros Hl st.
  - simpl. rewrite !app_nil_r. destruct st; reflexivity.
  - cbn [map fst fold_left]. rewrite IH
      by (intros kv Hin; apply Hl; right; exact Hin).
    unfold Imp.classify_step.
    pose proof (Hl (k, v) (or_introl eq_refl)) as Hk. cbn [fst snd] in Hk.
    rewrite Hk. cbn [fst snd filter].
    destruct (gt v lit_0) eqn:Eg.
    + rewrite (ImpSim.gt_not_lt v Eg). cbn [creditors debtors transactions map].
      rewrite <- app_assoc. reflexivity.
    + destruct (lt v lit_0); cbn [creditors debtors transactions map];
        rewrite <- ?app_assoc; reflexivity.
Qed.

Lemma classify_all (ts : obj number) (fs : number) (vm : list jsstring) :
  let bal := fold_left (set_balance ts fs) vm empty in
  fold_left (Imp.classify_step bal) (Object_keys bal)
    {| creditors := []; debtors := []; transactions := [] |} =
  {| creditors := creditors_of bal; debtors := debtors_of bal;
     transactions := [] |}.
Proof.
  intros bal. unfold Object_keys. rewrite classify_fold; [reflexivity|].
  intros [k v] Hin. apply (proj1 (In_entries _ _)) in Hin.
  apply own_get_NoDup; [apply balances_NoDup | exact Hin].
Qed.

(** ** Sorting in place *)

Section SortPairs.
Context {A B : Type} (after : B -> B -> bool).

Lemma map_snd_insert_sorted (x : A * B) (l : list (A * B)) :
  map snd (insert_sorted (fun a b => after (snd a) (snd b)) x l) =
  insert_sorted after (snd x) (map snd l).
Proof.
  induction l as [|y l IH]; simpl; [reflexivity|].
  destruct (after (snd x) (snd y)); simpl; [rewrite IH|]; reflexivity.
Qed.

Lemma map_snd_sort (l : list (A * B)) :
  map snd (sort (fun a b => after (snd a) (snd b)) l) =
  sort after (map snd l).
Proof.
  unfold sort. induction l as [|x l IH]; simpl; [reflexivity|].
  rewrite map_snd_insert_sorted, IH. reflexivity.
Qed.

End SortPairs.

Lemma insert_sorted_perm {A} (after : A -> A -> bool) x (l : list A) :
  Permutation (insert_sorted after x l) (x :: l).
Proof.
  induction l as [|y l IH]; simpl; [reflexivity|].
  destruct (after x y); [|reflexivity].
  rewrite IH. apply perm_swap.
Qed.

Lemma sort_perm {A} (after : A -> A -> bool) (l : list A) :
  Permutation (sort after l) l.
Proof.
  unfold sort. induction l as [|x l IH]; simpl; [reflexivity|].
  rewrite insert_sorted_perm. constructor. exact IH.
Qed.

Module ImpLoop.
Import Imp ImpFacts ImpSim.

Local Open Scope nat_scope.

Lemma read_entries_at g refs l :
  Forall2 (points g) refs l -> read_entries refs g = Some (l, g).
Proof.
  intros H. induction H as [|r e refs l Hp H IH]; [reflexivity|].
  cbn [read_entries]. rewrite (bind_some _ _ _ _ _ (read_entry_at _ _ _ Hp)).
  rewrite (bind_some _ _ _ _ _ IH). reflexivity.
Qed.

Lemma Forall2_combine_In {A B} (P : A -> B -> Prop) l1 l2 a b :
  Forall2 P l1 l2 -> In (a, b) (combine l1 l2) -> P a b.
Proof.
  intros H. induction H as [|x y l1 l2 Hp H IH]; simpl; [tauto|].
  intros [E | Hin]; [injection E as <- <-; exact Hp | apply IH, Hin].
Qed.

Lemma Forall2_map_pairs {A B} (P : A -> B -> Prop) (ps : list (A * B)) :
  (forall p, In p ps -> P (fst p) (snd p)) ->
  Forall2 P (map fst ps) (map snd ps).
Proof.
  induction ps as [|p ps IH]; intros H; simpl; constructor.
  - apply H. left; reflexivity.
  - apply IH. intros q Hq. apply H. right; exact Hq.
Qed.

Lemma map_fst_combine {A B} (l1 : list A) (l2 : list B) :
  length l1 = length l2 -> map fst (combine l1 l2) = l1.
Proof.
  revert l2; induction l1 as [|x l1 IH]; intros [|y l2]; simpl;
    try discriminate; auto.
  intros H. f_equal. apply IH. lia.
Qed.

Lemma map_snd_combine {A B} (l1 : list A) (l2 : list B) :
  length l1 = length l2 -> map snd (combine l1 l2) = l2.
Proof.
  revert l2; induction l1 as [|x l1 IH]; intros [|y l2]; simpl;
    try discriminate; auto.
  intros H. f_equal. apply IH. lia.
Qed.

(** The sorted array of references points to the sorted entries. *)
Lemma sorted_refs g (after : entry -> entry -> bool) refs l :
  Forall2 (points g) refs l ->
  let refs' := map fst (sort (fun x y => after (snd x) (snd y))
                             (combine refs l)) in
  Forall2 (points g) refs' (sort after l) /\ Permutation refs' refs.
Proof.
  intros F refs'. pose proof (Forall2_length F) as Hlen.
  split.
  - unfold refs'. rewrite <- (map_snd_combine refs l Hlen) at 2.
    rewrite <- map_snd_sort. apply Forall2_map_pairs.
    intros [r e] Hin. apply (proj1 (In_sort _ _ _)) in Hin.
    eapply Forall2_combine_In; [exact F | exact Hin].
  - unfold refs'. rewrite <- (map_fst_combine refs l Hlen) at 2.
    apply Permutation_map, sort_perm.
Qed.

Section Run.

Variables (h0 : heap).
Let n0 := length h0.
Let R_lists := Imp.R_lists h0.

Lemma sort_creditors_sim bal keys st g :
  R_lists bal keys st g ->
  exists g',
    sort_refs (n0 + 4) creditor_after g = Some (tt, g') /\
    R_lists bal keys
      {| creditors := sort creditor_after (creditors st);
         debtors := debtors st; transactions := transactions st |} g'.
Proof.
  intros (crefs & drefs & He & Hl & Hbal & Htx & Hcr & Hdr & Hk & Fc & Fd
          & Hnd & Hge).
  fold n0 in Hl, Hbal, Htx, Hcr, Hdr, Hk, Hge.
  unfold sort_refs.
  rewrite (bind_some _ _ _ _ _ (read_refs_at _ _ _ Hcr)).
  rewrite (bind_some _ _ _ _ _ (read_entries_at _ _ _ Fc)).
  rewrite write_at by (eapply nth_error_lt, Hcr).
  eexists. split; [reflexivity|].
  destruct (sorted_refs g creditor_after crefs (creditors st) Fc) as [Fs Hp].
  set (crefs' := map fst _) in *.
  assert (Hin' : forall r, In r (crefs' ++ drefs) -> In r (crefs ++ drefs)).
  { intros r. apply Permutation_in, Permutation_app_tail, Hp. }
  exists crefs', drefs. cbn [creditors debtors transactions]. fold n0.
  repeat split.
  - apply extends_update; [exact He | unfold n0; lia].
  - rewrite length_update. exact Hl.
  - rewrite nth_update_other by lia. exact Hbal.
  - rewrite nth_update_other by lia. exact Htx.
  - apply nth_update_same. lia.
  - rewrite nth_update_other by lia. exact Hdr.
  - rewrite nth_update_other by lia. exact Hk.
  - eapply Forall2_points_mono; [|exact Fs].
    intros r x Hin Hpt. apply points_update; [exact Hpt|].
    specialize (Hge r (Hin' r (in_or_app _ _ _ (or_introl Hin)))). lia.
  - eapply Forall2_points_mono; [|exact Fd].
    intros r x Hin Hpt. apply points_update; [exact Hpt|].
    specialize (Hge r (in_or_app _ _ _ (or_intror Hin))). lia.
  - eapply Permutation_NoDup; [|exact Hnd].
    apply Permutation_app_tail. symmetry. exact Hp.
  - intros r Hin. apply Hge, Hin', Hin.
Qed.

Lemma sort_debtors_sim bal keys st g :
  R_lists bal keys st g ->
  exists g',
    sort_refs (n0 + 5) debtor_after g = Some (tt, g') /\
    R_lists bal keys
      {| creditors := creditors st;
         debtors := sort debtor_after (debtors st);
         transactions := transactions st |} g'.
Proof.
  intros (crefs & drefs & He & Hl & Hbal & Htx & Hcr & Hdr & Hk & Fc & Fd
          & Hnd & Hge).
  fold n0 in Hl, Hbal, Htx, Hcr, Hdr, Hk, Hge.
  unfold sort_refs.
  rewrite (bind_some _ _ _ _ _ (read_refs_at _ _ _ Hdr)).
  rewrite (bind_some _ _ _ _ _ (read_entries_at _ _ _ Fd)).
  rewrite write_at by (eapply nth_error_lt, Hdr).
  eexists. split; [reflexivity|].
  destruct (sorted_refs g debtor_after drefs (debtors st) Fd) as [Fs Hp].
  set (drefs' := map fst _) in *.
  assert (Hin' : forall r, In r (crefs ++ drefs') -> In r (crefs ++ drefs)).
  { intros r. apply Permutation_in, Permutation_app_head, Hp. }
  exists crefs, drefs'. cbn [creditors debtors transactions]. fold n0.
  repeat split.
  - apply extends_update; [exact He | unfold n0; lia].
  - rewrite length_update. exact Hl.
  - rewrite nth_update_other by lia. exact Hbal.
  - rewrite nth_update_other by lia. exact Htx.
  - rewrite nth_update_other by lia. exact Hcr.
  - apply nth_update_same. lia.
  - rewrite nth_update_other by lia. exact Hk.
  - eapply Forall2_points_mono; [|exact Fc].
    intros r x Hin Hpt. apply points_update; [exact Hpt|].
    specialize (Hge r (in_or_app _ _ _ (or_introl Hin))). lia.
  - eapply Forall2_points_mono; [|exact Fs].
    intros r x Hin Hpt. apply points_update; [exact Hpt|].
    specialize (Hge r (Hin' r (in_or_app _ _ _ (or_intror Hin)))). lia.
  - eapply Permutation_NoDup; [|exact Hnd].
    apply Permutation_app_head. symmetry. exact Hp.
  - intros r Hin. apply Hge, Hin', Hin.
Qed.

End Run.

End ImpLoop.

Module ImpWhile.
Import Imp ImpFacts ImpSim ImpLoop.

Local Open Scope nat_scope.

Section Run.

Variables (h0 : heap) (bal : obj number) (keys : list jsstring).
Let n0 := length h0.
Let R := Imp.R_lists_at h0 bal keys.

(** [transactions.push(t)] *)
Lemma R_push_tx crefs drefs cs ds txs t g :
  R crefs drefs {| creditors := cs; debtors := ds; transactions := txs |} g ->
  R crefs drefs
    {| creditors := cs; debtors := ds; transactions := txs ++ [t] |}
    (update g (n0 + 3) (ArrTx (txs ++ [t]))).
Proof.
  intros (He & Hl & Hbal & Htx & Hcr & Hdr & Hk & Fc & Fd & Hnd & Hge).
  cbn [creditors debtors transactions] in *.
  fold n0 in Hl, Hbal, Htx, Hcr, Hdr, Hk, Hge.
  unfold R, R_lists_at. cbn [creditors debtors transactions]. fold n0.
  repeat split.
  - apply extends_update; [exact He | unfold n0; lia].
  - rewrite length_update. exact Hl.
  - rewrite nth_update_other by lia. exact Hbal.
  - apply nth_update_same. lia.
  - rewrite nth_update_other by lia. exact Hcr.
  - rewrite nth_update_other by lia. exact Hdr.
  - rewrite nth_update_other by lia. exact Hk.
  - eapply Forall2_points_mono; [|exact Fc].
    intros r x Hin Hpt. apply points_update; [exact Hpt|].
    specialize (Hge r (in_or_app _ _ _ (or_introl Hin))). lia.
  - eapply Forall2_points_mono; [|exact Fd].
    intros r x Hin Hpt. apply points_update; [exact Hpt|].
    specialize (Hge r (in_or_app _ _ _ (or_intror Hin))). lia.
  - exact Hnd.
  - exact Hge.
Qed.

(** [creditor.balance = ...], through the alias of [creditors[0]] *)
Lemma R_set_creditor cref crefs drefs c c' cs ds txs g :
  R (cref :: crefs) drefs
    {| creditors := c :: cs; debtors := ds; transactions := txs |} g ->
  R (cref :: crefs) drefs
    {| creditors := c' :: cs; debtors := ds; transactions := txs |}
    (update g cref (ObjEntry c')).
Proof.
  intros (He & Hl & Hbal & Htx & Hcr & Hdr & Hk & Fc & Fd & Hnd & Hge).
  cbn [creditors debtors transactions] in *.
  fold n0 in Hl, Hbal, Htx, Hcr, Hdr, Hk, Hge.
  pose proof (Hge cref (or_introl eq_refl)) as Hcref.
  inversion Fc as [|? ? ? ? Hpc Fc']; subst.
  inversion Hnd as [|? ? Hni Hnd']; subst.
  unfold R, R_lists_at. cbn [creditors debtors transactions]. fold n0.
  repeat split.
  - apply extends_update; [exact He | unfold n0; lia].
  - rewrite length_update. exact Hl.
  - rewrite nth_update_other by lia. exact Hbal.
  - rewrite nth_update_other by lia. exact Htx.
  - rewrite nth_update_other by lia. exact Hcr.
  - rewrite nth_update_other by lia. exact Hdr.
  - rewrite nth_update_other by lia. exact Hk.
  - constructor.
    + apply nth_update_same. eapply nth_error_lt, Hpc.
    + eapply Forall2_points_mono; [|exact Fc'].
      intros r x Hin Hpt. apply points_update; [exact Hpt|].
      intros ->. apply Hni, in_or_app. left; exact Hin.
  - eapply Forall2_points_mono; [|exact Fd].
    intros r x Hin Hpt. apply points_update; [exact Hpt|].
    intros ->. apply Hni, in_or_app. right; exact Hin.
  - exact Hnd.
  - exact Hge.
Qed.

(** [debtor.balance = ...], through the alias of [debtors[0]] *)
Lemma R_set_debtor crefs dref drefs d d' cs ds txs g :
  R crefs (dref :: drefs)
    {| creditors := cs; debtors := d :: ds; transactions := txs |} g ->
  R crefs (dref :: drefs)
    {| creditors := cs; debtors := d' :: ds; transactions := txs |}
    (update g dref (ObjEntry d')).
Proof.
  intros (He & Hl & Hbal & Htx & Hcr & Hdr & Hk & Fc & Fd & Hnd & Hge).
  cbn [creditors debtors transactions] in *.
  fold n0 in Hl, Hbal, Htx, Hcr, Hdr, Hk, Hge.
  assert (Hdref : n0 + 7 <= dref)
    by (apply Hge, in_or_app; right; left; reflexivity).
  inversion Fd as [|? ? ? ? Hpd Fd']; subst.
  apply NoDup_remove in Hnd. destruct Hnd as [Hnd' Hni].
  unfold R, R_lists_at. cbn [creditors debtors transactions]. fold n0.
  repeat split.
  - apply extends_update; [exact He | unfold n0; lia].
  - rewrite length_update. exact Hl.
  - rewrite nth_update_other by lia. exact Hbal.
  - rewrite nth_update_other by lia. exact Htx.
  - rewrite nth_update_other by lia. exact Hcr.
  - rewrite nth_update_other by lia. exact Hdr.
  - rewrite nth_update_other by lia. exact Hk.
  - eapply Forall2_points_mono; [|exact Fc].
    intros r x Hin Hpt. apply points_update; [exact Hpt|].
    intros ->. apply Hni, in_or_app. left; exact Hin.
  - constructor.
    + apply nth_update_same. eapply nth_error_lt, Hpd.
    + eapply Forall2_points_mono; [|exact Fd'].
      intros r x Hin Hpt. apply points_update; [exact Hpt|].
      intros ->. apply Hni, in_or_app. right; exact Hin.
  - apply NoDup_Add with (a := dref) (l := crefs ++ drefs);
      [apply Add_app | split; assumption].
  - exact Hge.
Qed.

(** [creditors.shift()] *)
Lemma R_shift_creditor cref crefs drefs c cs ds txs g :
  R (cref :: crefs) drefs
    {| creditors := c :: cs; debtors := ds; transactions := txs |} g ->
  R crefs drefs
    {| creditors := cs; debtors := ds; transactions := txs |}
    (update g (n0 + 4) (ArrRef crefs)).
Proof.
  intros (He & Hl & Hbal & Htx & Hcr & Hdr & Hk & Fc & Fd & Hnd & Hge).
  cbn [creditors debtors transactions] in *.
  fold n0 in Hl, Hbal, Htx, Hcr, Hdr, Hk, Hge.
  inversion Fc as [|? ? ? ? Hpc Fc']; subst.
  inversion Hnd as [|? ? Hni Hnd']; subst.
  unfold R, R_lists_at. cbn [creditors debtors transactions]. fold n0.
  repeat split.
  - apply extends_update; [exact He | unfold n0; lia].
  - rewrite length_update. exact Hl.
  - rewrite nth_update_other by lia. exact Hbal.
  - rewrite nth_update_other by lia. exact Htx.
  - apply nth_update_same. lia.
  - rewrite nth_update_other by lia. exact Hdr.
  - rewrite nth_update_other by lia. exact Hk.
  - eapply Forall2_points_mono; [|exact Fc'].
    intros r x Hin Hpt. apply points_update; [exact Hpt|].
    specialize (Hge r (or_intror (in_or_app _ _ _ (or_introl Hin)))). lia.
  - eapply Forall2_points_mono; [|exact Fd].
    intros r x Hin Hpt. apply points_update; [exact Hpt|].
    specialize (Hge r (or_intror (in_or_app _ _ _ (or_intror Hin)))). lia.
  - exact Hnd'.
  - intros r Hin. apply Hge. right; exact Hin.
Qed.

(** [debtors.shift()] *)
Lemma R_shift_debtor crefs dref drefs d cs ds txs g :
  R crefs (dref :: drefs)
    {| creditors := cs; debtors := d :: ds; transactions := txs |} g ->
  R crefs drefs
    {| creditors := cs; debtors := ds; transactions := txs |}
    (update g (n0 + 5) (ArrRef drefs)).
Proof.
  intros (He & Hl & Hbal & Htx & Hcr & Hdr & Hk & Fc & Fd & Hnd & Hge).
  cbn [creditors debtors transactions] in *.
  fold n0 in Hl, Hbal, Htx, Hcr, Hdr, Hk, Hge.
  inversion Fd as [|? ? ? ? Hpd Fd']; subst.
  apply NoDup_remove in Hnd. destruct Hnd as [Hnd' Hni].
  unfold R, R_lists_at. cbn [creditors debtors transactions]. fold n0.
  repeat split.
  - apply extends_update; [exact He | unfold n0; lia].
  - rewrite length_update. exact Hl.
  - rewrite nth_update_other by lia. exact Hbal.
  - rewrite nth_update_other by lia. exact Htx.
  - rewrite nth_update_other by lia. exact Hcr.
  - apply nth_update_same. lia.
  - rewrite nth_update_other by lia. exact Hk.
  - eapply Forall2_points_mono; [|exact Fc].
    intros r x Hin Hpt. apply points_update; [exact Hpt|].
    specialize (Hge r (in_or_app _ _ _ (or_introl Hin))). lia.
  - eapply Forall2_points_mono; [|exact Fd'].
    intros r x Hin Hpt. apply points_update; [exact Hpt|].
    assert (n0 + 7 <= r)
      by (apply Hge, in_or_app; right; right; exact Hin).
    lia.
  - exact Hnd'.
  - intros r Hin. apply Hge.
    apply in_app_or in Hin. apply in_or_app.
    destruct Hin as [Hin|Hin]; [left | right; right]; exact Hin.
Qed.

Lemma R_head_creditor cref crefs drefs st g :
  R (cref :: crefs) drefs st g ->
  exists c cs, creditors st = c :: cs /\ points g cref c.
Proof.
  intros (_ & _ & _ & _ & _ & _ & _ & Fc & _).
  inversion Fc; subst. eauto.
Qed.

Lemma R_head_debtor crefs dref drefs st g :
  R crefs (dref :: drefs) st g ->
  exists d ds, debtors st = d :: ds /\ points g dref d.
Proof.
  intros (_ & _ & _ & _ & _ & _ & _ & _ & Fd & _).
  inversion Fd; subst. eauto.
Qed.

Lemma R_tx_at crefs drefs st g :
  R crefs drefs st g ->
  nth_error g (n0 + 3) = Some (ArrTx (transactions st)) /\
  nth_error g (n0 + 4) = Some (ArrRef crefs) /\
  nth_error g (n0 + 5) = Some (ArrRef drefs) /\ extends h0 g.
Proof.
  intros (He & _ & _ & Htx & Hcr & Hdr & _). auto.
Qed.

(** [if (amount > 0) transactions.push(...)] *)
Lemma cond_push_sim (b : bool) t crefs drefs cs ds txs g :
  R crefs drefs {| creditors := cs; debtors := ds; transactions := txs |} g ->
  exists g1,
    (if b then push_tx (n0 + 3) t else ret tt) g = Some (tt, g1) /\
    R crefs drefs
      {| creditors := cs; debtors := ds;
         transactions := if b then txs ++ [t] else txs |} g1.
Proof.
  intros HR. destruct b.
  - destruct (R_tx_at _ _ _ _ HR) as (Htx & _).
    cbn [transactions] in Htx.
    rewrite (push_tx_at _ _ _ _ Htx). eexists. split; [reflexivity|].
    apply R_push_tx, HR.
  - exists g. split; [reflexivity | exact HR].
Qed.

(** [if (Math.abs(creditor.balance) < 0.01) creditors.shift()] *)
Lemma cond_shift_creditor_sim (b : bool) cref crefs drefs c cs ds txs g :
  R (cref :: crefs) drefs
    {| creditors := c :: cs; debtors := ds; transactions := txs |} g ->
  exists crefs1 g1,
    (if b then shift_ref (n0 + 4) else ret tt) g = Some (tt, g1) /\
    R crefs1 drefs
      {| creditors := if b then cs else c :: cs; debtors := ds;
         transactions := txs |} g1.
Proof.
  intros HR. destruct b.
  - destruct (R_tx_at _ _ _ _ HR) as (_ & Hcr & _).
    rewrite (shift_ref_at _ _ _ Hcr). cbn [tl].
    exists crefs. eexists. split; [reflexivity|].
    eapply R_shift_creditor, HR.
  - exists (cref :: crefs), g. split; [reflexivity | exact HR].
Qed.

(** [if (Math.abs(debtor.balance) < 0.01) debtors.shift()] *)
Lemma cond_shift_debtor_sim (b : bool) crefs dref drefs d cs ds txs g :
  R crefs (dref :: drefs)
    {| creditors := cs; debtors := d :: ds; transactions := txs |} g ->
  exists drefs1 g1,
    (if b then shift_ref (n0 + 5) else ret tt) g = Some (tt, g1) /\
    R crefs drefs1
      {| creditors := cs; debtors := if b then ds else d :: ds;
         transactions := txs |} g1.
Proof.
  intros HR. destruct b.
  - destruct (R_tx_at _ _ _ _ HR) as (_ & _ & Hdr & _).
    rewrite (shift_ref_at _ _ _ Hdr). cbn [tl].
    exists drefs. eexists. split; [reflexivity|].
    eapply R_shift_debtor, HR.
  - exists (dref :: drefs), g. split; [reflexivity | exact HR].
Qed.

Lemma while_loop_eq fuel a b t :
  while_loop fuel a b t =
  (cs <- read_refs a ;;
   ds <- read_refs b ;;
   match cs, ds with
   | creditor :: _, debtor :: _ =>
       match fuel with
       | O => fail
       | S fuel' =>
           c <- read_entry creditor ;;
           d <- read_entry debtor ;;
           let amount := settle_amount c d in
           (if gt amount lit_0
            then push_tx t
                   {| from := name d; to := name c;
                      tx_amount := toFixed2 amount |}
            else ret tt) ;;
           c <- read_entry creditor ;;
           write creditor
             (ObjEntry {| name := name c;
                          balance := sub (balance c) amount |}) ;;
           d <- read_entry debtor ;;
           write debtor
             (ObjEntry {| name := name d;
                          balance := add (balance d) amount |}) ;;
           c <- read_entry creditor ;;
           (if lt (Math_abs (balance c)) lit_0_01
            then shift_ref a else ret tt) ;;
           d <- read_entry debtor ;;
           (if lt (Math_abs (balance d)) lit_0_01
            then shift_ref b else ret tt) ;;
           while_loop fuel' a b t
       end
   | _, _ => ret tt
   end).
Proof. destruct fuel; reflexivity. Qed.

(** The loop on the store does what the loop on the lists does: it ends
    with the same transactions in the array, or it does not end within
    the same number of passes. *)
Lemma while_sim fuel :
  forall crefs drefs st g,
    R crefs drefs st g ->
    match loop fuel st with
    | Some txs =>
        exists g',
          while_loop fuel (n0 + 4) (n0 + 5) (n0 + 3) g = Some (tt, g') /\
          nth_error g' (n0 + 3) = Some (ArrTx txs) /\ extends h0 g'
    | None => while_loop fuel (n0 + 4) (n0 + 5) (n0 + 3) g = None
    end.
Proof.
  induction fuel as [|fuel IH]; intros crefs drefs [cs0 ds0 txs] g HR;
    rewrite while_loop_eq;
    destruct (R_tx_at _ _ _ _ HR) as (Htx & Hcr & Hdr & He);
    cbn [transactions] in Htx;
    rewrite (bind_some _ _ _ _ _ (read_refs_at _ _ _ Hcr));
    rewrite (bind_some _ _ _ _ _ (read_refs_at _ _ _ Hdr)).
  - destruct crefs as [|cref crefs].
    + destruct HR as (_ & _ & _ & _ & _ & _ & _ & Fc & _).
      cbn [creditors] in Fc. inversion Fc; subst.
      cbn [loop creditors debtors transactions]. exists g. auto.
    + destruct (R_head_creditor _ _ _ _ _ HR) as (c & cs & Hc & _).
      cbn [creditors] in Hc. subst cs0.
      destruct drefs as [|dref drefs].
      * destruct HR as (_ & _ & _ & _ & _ & _ & _ & _ & Fd & _).
        cbn [debtors] in Fd. inversion Fd; subst.
        cbn [loop creditors debtors transactions]. exists g. auto.
      * destruct (R_head_debtor _ _ _ _ _ HR) as (d & ds & Hd & _).
        cbn [debtors] in Hd. subst ds0. reflexivity.
  - destruct crefs as [|cref crefs].
    + destruct HR as (_ & _ & _ & _ & _ & _ & _ & Fc & _).
      cbn [creditors] in Fc. inversion Fc; subst.
      cbn [loop creditors debtors transactions]. exists g. auto.
    + destruct (R_head_creditor _ _ _ _ _ HR) as (c & cs & Hc & Hpc).
      cbn [creditors] in Hc. subst cs0.
      destruct drefs as [|dref drefs].
      * destruct HR as (_ & _ & _ & _ & _ & _ & _ & _ & Fd & _).
        cbn [debtors] in Fd. inversion Fd; subst.
        cbn [loop creditors debtors transactions]. exists g. auto.
      * destruct (R_head_debtor _ _ _ _ _ HR) as (d & ds & Hd & Hpd).
        cbn [debtors] in Hd. subst ds0.
        cbn [loop creditors debtors transactions].
        rewrite (bind_some _ _ _ _ _ (read_entry_at _ _ _ Hpc)).
        rewrite (bind_some _ _ _ _ _ (read_entry_at _ _ _ Hpd)).
        cbv zeta.
        set (amount := settle_amount c d).
        (* the transaction *)
        destruct (cond_push_sim (gt amount lit_0)
                    {| from := name d; to := name c;
                       tx_amount := toFixed2 amount |} _ _ _ _ _ _ HR)
          as (g1 & E1 & R1).
        rewrite (bind_some _ _ _ _ _ E1).
        (* creditor.balance -= amount *)
        destruct (R_head_creditor _ _ _ _ _ R1) as (c1 & cs1 & Hc1 & Hpc1).
        cbn [creditors] in Hc1. injection Hc1 as <- <-.
        rewrite (bind_some _ _ _ _ _ (read_entry_at _ _ _ Hpc1)).
        rewrite (bind_some _ _ _ _ _
                   (write_at _ _ _ (nth_error_lt _ _ _ Hpc1))).
        pose proof (R_set_creditor _ _ _ _
                      {| name := name c; balance := sub (balance c) amount |}
                      _ _ _ _ R1) as R2.
        (* debtor.balance += amount *)
        destruct (R_head_debtor _ _ _ _ _ R2) as (d2 & ds2 & Hd2 & Hpd2).
        cbn [debtors] in Hd2. injection Hd2 as <- <-.
        rewrite (bind_some _ _ _ _ _ (read_entry_at _ _ _ Hpd2)).
        rewrite (bind_some _ _ _ _ _
                   (write_at _ _ _ (nth_error_lt _ _ _ Hpd2))).
        pose proof (R_set_debtor _ _ _ _
                      {| name := name d; balance := add (balance d) amount |}
                      _ _ _ _ R2) as R3.
        (* the creditor leaves the list *)
        destruct (R_head_creditor _ _ _ _ _ R3) as (c3 & cs3 & Hc3 & Hpc3).
        cbn [creditors] in Hc3. injection Hc3 as <- <-.
        rewrite (bind_some _ _ _ _ _ (read_entry_at _ _ _ Hpc3)).
        cbn [balance].
        destruct (cond_shift_creditor_sim
                    (lt (Math_abs (sub (balance c) amount)) lit_0_01)
                    _ _ _ _ _ _ _ _ R3) as (crefs4 & g4 & E4 & R4).
        rewrite (bind_some _ _ _ _ _ E4).
        (* the debtor leaves the list *)
        assert (Hpd4 : points g4
                  dref {| name := name d; balance := add (balance d) amount |}).
        { destruct (R_head_debtor _ _ _ _ _ R4) as (d4 & ds4 & Hd4 & Hpd4).
          cbn [debtors] in Hd4. injection Hd4 as <- <-. exact Hpd4. }
        rewrite (bind_some _ _ _ _ _ (read_entry_at _ _ _ Hpd4)).
        cbn [balance].
        destruct (cond_shift_debtor_sim
                    (lt (Math_abs (add (balance d) amount)) lit_0_01)
                    _ _ _ _ _ _ _ _ R4) as (drefs5 & g5 & E5 & R5).
        rewrite (bind_some _ _ _ _ _ E5).
        exact (IH _ _ _ _ R5).
Qed.

End Run.

End ImpWhile.

Module ImpRun.
Import Imp ImpFacts ImpSim ImpLoop ImpWhile.

Local Open Scope nat_scope.

Lemma alloc_at g c n : length g = n -> alloc c g = Some (n, g ++ [c]).
Proof. intros <-. reflexivity. Qed.

Lemma nth_error_last {A} (l : list A) x n :
  length l = n -> nth_error (l ++ [x]) n = Some x.
Proof.
  intros <-. rewrite nth_error_app2 by lia.
  rewrite Nat.sub_diag. reflexivity.
Qed.

Lemma nth_error_app_old {A} (l l' : list A) n x :
  nth_error l n = Some x -> nth_error (l ++ l') n = Some x.
Proof.
  intros H. rewrite nth_error_app1; [exact H|].
  apply nth_error_Some. congruence.
Qed.

Lemma returns_empty h0 g :
  extends h0 g -> length h0 <= length g ->
  exists r h',
    alloc (ArrTx []) g = Some (r, h') /\ nth_error h' r = Some (ArrTx []) /\
    extends h0 h' /\ length h0 <= r.
Proof.
  intros He Hl. exists (length g), (g ++ [ArrTx []]).
  repeat split.
  - apply nth_error_last. reflexivity.
  - eapply extends_trans; [exact He | apply extends_app].
  - exact Hl.
Qed.

Section Run.

Variables (h0 : heap) (expenses members : loc).
Variables (es : list expense) (ms : list jsstring).
Hypothesis Hes : nth_error h0 expenses = Some (ArrExp es).
Hypothesis Hms : nth_error h0 members = Some (ArrStr ms).

Let n0 := length h0.

Lemma calculateExpenseSplit_sim fuel :
  returns h0
    (Imp.calculateExpenseSplit fuel (Some expenses) (Some members))
    (Split.calculateExpenseSplit fuel (Some es) (Some ms)).
Proof.
  unfold Imp.calculateExpenseSplit, Split.calculateExpenseSplit.
  unfold returns.
  rewrite (bind_some _ _ _ _ _ (read_exps_at _ _ _ Hes)).
  rewrite (bind_some _ _ _ _ _ (read_strs_at _ _ _ Hms)).
  destruct (_ || _).
  { apply returns_empty; [apply extends_refl | lia]. }
  (* validMembers *)
  rewrite (bind_some _ _ _ _ _ (alloc_at h0 _ n0 eq_refl)).
  set (vm := validMembers_of ms). fold vm.
  set (g1 := h0 ++ [ArrStr (filter valid_member ms)]).
  assert (H1 : nth_error g1 n0 = Some (ArrStr vm))
    by (apply nth_error_last; reflexivity).
  assert (L1 : length g1 = n0 + 1)
    by (unfold g1; rewrite length_app; reflexivity).
  rewrite (bind_some _ _ _ _ _ (read_strs_at _ _ _ H1)).
  destruct (length vm =? 0).
  { apply returns_empty; [apply extends_app | lia]. }
  (* totalSpent *)
  rewrite (bind_some _ _ _ _ _ (alloc_at g1 _ (n0 + 1) L1)).
  set (g2 := g1 ++ [ObjNum empty]).
  assert (R2 : R_totals h0 vm empty g2).
  { unfold R_totals, g2. fold n0. repeat split.
    - eapply extends_trans; apply extends_app.
    - rewrite length_app, L1. cbn [length]. lia.
    - apply nth_error_app_old, H1.
    - apply nth_error_last, L1. }
  destruct (init_totals_sim h0 ms g2 R2) as (g3 & E3 & R3). fold n0 in E3.
  rewrite (bind_some _ _ _ _ _ E3).
  destruct (expenses_sim h0 expenses es ms Hes _ g3 R3) as (g4 & E4 & R4).
  fold n0 in E4. rewrite (bind_some _ _ _ _ _ E4).
  fold vm in R4. fold (totalSpent_of es vm) in R4.
  set (ts := totalSpent_of es vm) in *.
  destruct R4 as (He4 & L4 & Hvm4 & Hts4). fold n0 in L4, Hvm4, Hts4.
  rewrite (bind_some _ _ _ _ _ (read_obj_at _ _ _ Hts4)).
  rewrite (bind_some _ _ _ _ _ (read_strs_at _ _ _ Hvm4)).
  cbv zeta.
  fold (totalExpenses_of ts). fold (fairShare_of ts vm).
  (* balances *)
  rewrite (bind_some _ _ _ _ _ (alloc_at g4 _ (n0 + 2) L4)).
  set (g5 := g4 ++ [ObjNum empty]).
  assert (R5 : R_balances h0 vm ts empty g5).
  { unfold R_balances, g5. fold n0. repeat split.
    - eapply extends_trans; [exact He4 | apply extends_app].
    - rewrite length_app, L4. cbn [length]. lia.
    - apply nth_error_app_old, Hvm4.
    - apply nth_error_app_old, Hts4.
    - apply nth_error_last, L4. }
  destruct (balances_sim h0 ms ts (fairShare_of ts vm) g5 R5)
    as (g6 & E6 & R6).
  fold n0 in E6. rewrite (bind_some _ _ _ _ _ E6).
  fold vm in R6. fold (balances_of ts vm) in R6.
  set (bal := balances_of ts vm) in *.
  destruct R6 as (He6 & L6 & Hvm6 & Hts6 & Hb6). fold n0 in L6, Hvm6, Hts6, Hb6.
  (* transactions, creditors, debtors and the keys of balances *)
  rewrite (bind_some _ _ _ _ _ (alloc_at g6 _ (n0 + 3) L6)).
  assert (L7 : length (g6 ++ [ArrTx []]) = n0 + 4)
    by (rewrite length_app, L6; cbn [length]; lia).
  rewrite (bind_some _ _ _ _ _ (alloc_at _ _ (n0 + 4) L7)).
  assert (L8 : length ((g6 ++ [ArrTx []]) ++ [ArrRef []]) = n0 + 5)
    by (rewrite length_app, L7; cbn [length]; lia).
  rewrite (bind_some _ _ _ _ _ (alloc_at _ _ (n0 + 5) L8)).
  assert (L9 : length (((g6 ++ [ArrTx []]) ++ [ArrRef []]) ++ [ArrRef []])
               = n0 + 6)
    by (rewrite length_app, L8; cbn [length]; lia).
  assert (Hb9 : nth_error
                  (((g6 ++ [ArrTx []]) ++ [ArrRef []]) ++ [ArrRef []])
                  (n0 + 2) = Some (ObjNum bal))
    by (do 3 apply nth_error_app_old; exact Hb6).
  rewrite (bind_some _ _ _ _ _ (read_obj_at _ _ _ Hb9)).
  rewrite (bind_some _ _ _ _ _ (alloc_at _ _ (n0 + 6) L9)).
  set (keys := Object_keys bal).
  set (g10 := _ ++ [ArrStr keys]).
  assert (R10 : R_lists h0 bal keys
                  {| creditors := []; debtors := []; transactions := [] |}
                  g10).
  { exists [], []. unfold R_lists_at, g10.
    cbn [creditors debtors transactions]. fold n0. repeat split.
    - eapply extends_trans; [exact He6|].
      do 3 (eapply extends_trans; [apply extends_app|]). apply extends_app.
    - rewrite length_app, L9. cbn [length]. lia.
    - apply nth_error_app_old, Hb9.
    - do 3 apply nth_error_app_old. apply nth_error_last, L6.
    - do 2 apply nth_error_app_old. apply nth_error_last, L7.
    - apply nth_error_app_old. apply nth_error_last, L8.
    - apply nth_error_last, L9.
    - constructor.
    - constructor.
    - constructor.
    - intros r []. }
  destruct (classify_sim h0 bal keys _ g10 R10) as (g11 & E11 & R11).
  fold n0 in E11. rewrite (bind_some _ _ _ _ _ E11).
  unfold keys, bal, balances_of in R11. rewrite classify_all in R11.
  fold (balances_of ts vm) in R11. fold bal in R11. fold keys in R11.
  destruct (sort_creditors_sim h0 bal keys _ g11 R11) as (g12 & E12 & R12).
  fold n0 in E12. rewrite (bind_some _ _ _ _ _ E12).
  destruct (sort_debtors_sim h0 bal keys _ g12 R12) as (g13 & E13 & R13).
  fold n0 in E13. rewrite (bind_some _ _ _ _ _ E13).
  cbn [creditors debtors transactions] in R13.
  fold (initial_state bal) in R13.
  destruct R13 as (crefs & drefs & R13).
  pose proof (while_sim h0 bal keys fuel crefs drefs _ g13 R13) as HW.
  fold n0 in HW.
  destruct (loop fuel (initial_state bal)) as [txs|].
  - destruct HW as (g' & EW & Htx & He').
    rewrite (bind_some _ _ _ _ _ EW).
    exists (n0 + 3), g'. repeat split; [exact Htx | exact He' | lia].
  - rewrite (bind_none _ _ _ HW). reflexivity.
Qed.

End Run.

Lemma calculateExpenseSplit_returns fuel h0 expenses members es ms :
  holds_exps h0 expenses es -> holds_strs h0 members ms ->
  returns h0 (Imp.calculateExpenseSplit fuel expenses members)
    (Split.calculateExpenseSplit fuel es ms).
Proof.
  intros Hes Hms.
  destruct expenses as [expenses|], es as [es|]; try contradiction;
    destruct members as [members|], ms as [ms|]; try contradiction;
    cbn [holds_exps holds_strs] in *.
  - apply calculateExpenseSplit_sim; assumption.
  - apply returns_empty; [apply extends_refl | lia].
  - apply returns_empty; [apply extends_refl | lia].
  - apply returns_empty; [apply extends_refl | lia].
Qed.

Lemma holds_exps_extends h h' a v :
  extends h h' -> holds_exps h a v -> holds_exps h' a v.
Proof.
  intros He. destruct a, v; cbn; auto.
Qed.

Lemma holds_strs_extends h h' a v :
  extends h h' -> holds_strs h a v -> holds_strs h' a v.
Proof.
  intros He. destruct a, v; cbn; auto.
Qed.

End ImpRun.

(** ** Valid numbers and their real values *)

Module FloatFacts.
Import Account.

Lemma valid_finite (s : bool) (m : positive) (e : Z) :
  valid (S754_finite s m e) = true <->
  fexp prec emax (Zpos (digits2_pos m) + e) = e /\ e <= 971.
Proof.
  unfold valid, valid_binary, SpecFloat.bounded, canonical_mantissa.
  rewrite andb_true_iff, Z.leb_le, Z.eqb_eq.
  change (emax - prec) with 971. tauto.
Qed.

Lemma canonical_digits (m : positive) (e : Z) :
  fexp prec emax (Zpos (digits2_pos m) + e) = e ->
  -1074 <= e /\ Zpos (digits2_pos m) <= 53 /\
  (-1074 < e -> Zpos (digits2_pos m) = 53).
Proof. rewrite fexp_eq. lia. Qed.

Lemma canonical_upper (m : positive) (e : Z) :
  fexp prec emax (Zpos (digits2_pos m) + e) = e ->
  (IZR (Zpos m) * bpow e < bpow (e + 53))%R.
Proof.
  intros H. apply canonical_digits in H. destruct H as (_ & Hd & _).
  pose proof (Zdigits2_bpow (Zpos m) ltac:(lia)) as [_ Hu].
  change (Zdigits2 (Zpos m)) with (Zpos (digits2_pos m)) in Hu.
  pose proof (bpow_le _ _ Hd) as Hle.
  pose proof (bpow_pos e) as He.
  rewrite Z.add_comm, bpow_add. nra.
Qed.

Lemma canonical_lower (m : positive) (e : Z) :
  fexp prec emax (Zpos (digits2_pos m) + e) = e -> -1074 < e ->
  (bpow (e + 52) <= IZR (Zpos m) * bpow e)%R.
Proof.
  intros H He. apply canonical_digits in H. destruct H as (_ & _ & Hd).
  specialize (Hd He).
  pose proof (Zdigits2_bpow (Zpos m) ltac:(lia)) as [Hl _].
  change (Zdigits2 (Zpos m)) with (Zpos (digits2_pos m)) in Hl.
  rewrite Hd in Hl. change (53 - 1) with 52 in Hl.
  pose proof (bpow_pos e) as Hbe.
  rewrite Z.add_comm, bpow_add. nra.
Qed.

(** The order of two valid positive numbers is the order of their
    values. *)
Lemma lt_pos_R (m1 m2 : positive) (e1 e2 : Z) :
  fexp prec emax (Zpos (digits2_pos m1) + e1) = e1 ->
  fexp prec emax (Zpos (digits2_pos m2) + e2) = e2 ->
  (lt (S754_finite false m1 e1) (S754_finite false m2 e2) = true <->
   (IZR (Zpos m1) * bpow e1 < IZR (Zpos m2) * bpow e2)%R).
Proof.
  intros H1 H2. unfold lt, SFltb, SFcompare.
  pose proof (canonical_upper _ _ H1) as U1.
  pose proof (canonical_upper _ _ H2) as U2.
  pose proof (canonical_digits _ _ H1) as (L1 & _).
  pose proof (canonical_digits _ _ H2) as (L2 & _).
  destruct (Z.compare_spec e1 e2) as [E | E | E].
  - subst e2. pose proof (bpow_pos e1) as Hb.
    change (Pos.compare_cont Eq m1 m2) with (Pos.compare m1 m2).
    destruct (Pos.compare_spec m1 m2) as [Em | Em | Em].
    + subst. split; [discriminate | lra].
    + split; [intros _ | reflexivity].
      apply Rmult_lt_compat_r; [exact Hb | apply IZR_lt; lia].
    + split; [discriminate|]. intros Hlt. exfalso.
      assert (IZR (Zpos m2) < IZR (Zpos m1))%R by (apply IZR_lt; lia).
      nra.
  - split; [intros _ | reflexivity].
    pose proof (canonical_lower _ _ H2 ltac:(lia)) as Hl2.
    assert (bpow (e1 + 53) <= bpow (e2 + 52))%R by (apply bpow_le; lia).
    lra.
  - split; [discriminate|]. intros Hlt. exfalso.
    pose proof (canonical_lower _ _ H1 ltac:(lia)) as Hl1.
    assert (bpow (e2 + 53) <= bpow (e1 + 52))%R by (apply bpow_le; lia).
    lra.
Qed.

Lemma B2R_neg (x : number) : B2R (neg x) = (- B2R x)%R.
Proof.
  destruct x as [s|s| |s m e]; cbn [neg SFopp B2R]; try lra.
  destruct s; cbn [negb cond_Zopp]; rewrite ?opp_IZR; lra.
Qed.

Lemma B2R_abs (x : number) : B2R (Math_abs x) = Rabs (B2R x).
Proof.
  destruct x as [s|s| |s m e]; cbn [Math_abs SFabs B2R];
    try (rewrite Rabs_R0; reflexivity).
  pose proof (bpow_pos e) as Hb.
  assert (Hm : (0 < IZR (Zpos m))%R) by (apply IZR_lt; reflexivity).
  destruct s; cbn [cond_Zopp].
  - change (- Zpos m) with (Z.neg m).
    change (Z.neg m) with (- Zpos m). rewrite opp_IZR.
    rewrite Rabs_left by nra. lra.
  - rewrite Rabs_right by nra. reflexivity.
Qed.

Lemma valid_neg (x : number) : valid (neg x) = valid x.
Proof. destruct x; reflexivity. Qed.

Lemma valid_abs (x : number) : valid (Math_abs x) = valid x.
Proof. destruct x; reflexivity. Qed.

(** A number whose value is not zero is finite, and its sign is the sign
    of its value. *)
Lemma B2R_pos_inv (x : number) :
  (0 < B2R x)%R -> exists m e, x = S754_finite false m e.
Proof.
  destruct x as [s|s| |s m e]; cbn [B2R]; try lra.
  intros H. destruct s; [|eauto]. exfalso.
  cbn [cond_Zopp] in H. change (- Zpos m) with (Z.neg m) in H.
  pose proof (bpow_pos e).
  assert (IZR (Z.neg m) < 0)%R by (apply IZR_lt; reflexivity). nra.
Qed.

Lemma B2R_neg_inv (x : number) :
  (B2R x < 0)%R -> exists m e, x = S754_finite true m e.
Proof.
  intros H. destruct (B2R_pos_inv (neg x)) as (m & e & E).
  - rewrite B2R_neg. lra.
  - destruct x as [s|s| |s m' e']; try discriminate.
    destruct s; [eauto|]. cbn [B2R cond_Zopp] in H.
    pose proof (bpow_pos e').
    assert (0 < IZR (Zpos m'))%R by (apply IZR_lt; reflexivity). nra.
Qed.

(** The order of two numbers that are valid and positive. *)
Lemma lt_R (x y : number) :
  valid x = true -> valid y = true -> (0 < B2R x)%R -> (0 < B2R y)%R ->
  (lt x y = true <-> (B2R x < B2R y)%R).
Proof.
  intros Vx Vy Hx Hy.
  destruct (B2R_pos_inv x Hx) as (m1 & e1 & ->).
  destruct (B2R_pos_inv y Hy) as (m2 & e2 & ->).
  apply valid_finite in Vx, Vy. cbn [B2R cond_Zopp].
  apply lt_pos_R; tauto.
Qed.

(** [Math.min] of two valid positive numbers is the one with the smaller
    value. *)
Lemma Math_min_R (x y : number) :
  valid x = true -> valid y = true -> (0 < B2R x)%R -> (0 < B2R y)%R ->
  (Math_min x y = x /\ (B2R x <= B2R y)%R) \/
  (Math_min x y = y /\ (B2R y <= B2R x)%R).
Proof.
  intros Vx Vy Hx Hy.
  destruct (B2R_pos_inv x Hx) as (m1 & e1 & Ex).
  destruct (B2R_pos_inv y Hy) as (m2 & e2 & Ey).
  assert (Em : Math_min x y =
               if lt x y then x else if lt y x then y else y).
  { unfold Math_min. rewrite Ex, Ey. reflexivity. }
  rewrite Em. clear Em Ex Ey.
  destruct (lt x y) eqn:E1.
  - left. split; [reflexivity|].
    apply (proj1 (lt_R x y Vx Vy Hx Hy)) in E1. lra.
  - right. split; [destruct (lt y x); reflexivity|].
    destruct (Rlt_dec (B2R x) (B2R y)) as [Hlt | Hge]; [|lra].
    apply (proj2 (lt_R x y Vx Vy Hx Hy)) in Hlt. congruence.
Qed.

End FloatFacts.

(** ** Sums and differences as roundings of reals *)

Module FloatRound.
Import Account FloatFacts.

Lemma Rabs_le_inv (x a : R) : (Rabs x <= a -> - a <= x <= a)%R.
Proof. unfold Rabs. destruct (Rcase_abs x); lra. Qed.

Lemma Rabs_lt_inv (x a : R) : (Rabs x < a -> - a < x < a)%R.
Proof. unfold Rabs. destruct (Rcase_abs x); lra. Qed.

Lemma bpow_1 : bpow 1 = 2%R.
Proof. unfold bpow. simpl. lra. Qed.

Lemma bpow_scale (m k e : Z) :
  0 <= k -> (IZR (m * 2 ^ k) * bpow e = IZR m * bpow (k + e))%R.
Proof.
  intros Hk. rewrite mult_IZR, bpow_add, <- bpow_IZR by assumption. ring.
Qed.

(** [binary_round] on a mantissa below [2^K]: the result is a valid finite
    number, within [2^(K-53)] of the value rounded. *)
Lemma binary_round_R (s : bool) (mx : positive) (ex K : Z) :
  (IZR (Zpos mx) * bpow ex < bpow K)%R -> -1021 <= K <= 1023 ->
  let x := binary_round prec emax s mx ex in
  valid x = true /\ is_finite x = true /\
  exists r : R,
    B2R x = (if s then - r else r)%R /\ (0 <= r)%R /\
    (Rabs (r - IZR (Zpos mx) * bpow ex) <= bpow (K - 53))%R.
Proof.
  intros Ht HK x.
  destruct (binary_round_spec s mx ex)
    as (Hmz & He1 & m2 & Hm2 & _ & Hres).
  set (ez := Z.min ex (fexp prec emax (Zpos (digits2_pos mx) + ex))) in *.
  set (mz := Zpos mx * 2 ^ (ex - ez)) in *.
  set (p := shift_of mz ez) in *.
  set (e1 := fexp prec emax (Zpos (digits2_pos mx) + ex)) in *.
  assert (Hp : 0 <= p) by apply Z.le_max_l.
  assert (Hez : ez <= ex) by apply Z.le_min_l.
  set (t := (IZR (Zpos mx) * bpow ex)%R) in *.
  assert (Et : (IZR mz * bpow ez)%R = t).
  { unfold mz. rewrite bpow_scale by lia.
    replace (ex - ez + ez) with ex by ring. reflexivity. }
  (* the exponent of the result *)
  assert (Hd : Zpos (digits2_pos mx) + ex <= K).
  { pose proof (Zdigits2_bpow (Zpos mx) ltac:(lia)) as [Hl _].
    change (Zdigits2 (Zpos mx)) with (Zpos (digits2_pos mx)) in Hl.
    destruct (Z_le_gt_dec (Zpos (digits2_pos mx) + ex) K) as [|Hgt];
      [assumption|]. exfalso.
    assert (bpow K <= bpow (Zpos (digits2_pos mx) - 1 + ex))%R
      by (apply bpow_le; lia).
    rewrite bpow_add in H. pose proof (bpow_pos ex). unfold t in Ht. nra. }
  assert (He1K : e1 <= K - 53) by (unfold e1; rewrite fexp_eq; lia).
  pose proof (bpow_le _ _ He1K) as Hb1.
  pose proof (bpow_pos e1) as Hbe1.
  (* the two neighbours *)
  pose proof (div_pow2_bounds mz p ltac:(lia) Hp) as [Hl Hu].
  set (q := mz / 2 ^ p) in *.
  assert (Hq0 : 0 <= q)
    by (apply Z.div_pos; [lia | apply Z.pow_pos_nonneg; lia]).
  assert (Hgrid : (IZR q * bpow e1 <= t < (IZR q + 1) * bpow e1)%R).
  { rewrite <- Et. rewrite <- He1, (Z.add_comm ez p), bpow_add.
    pose proof (bpow_pos ez). split; nra. }
  assert (Hr : (0 <= IZR m2 * bpow e1)%R /\
               (Rabs (IZR m2 * bpow e1 - t) <= bpow e1)%R).
  { apply IZR_le in Hq0.
    destruct Hm2 as [-> | ->]; [|rewrite plus_IZR]; split; try nra;
      apply Rabs_le; lra. }
  destruct Hr as [Hr0 Hr1].
  destruct Hres as [[Hz Hx] | (m3 & e3 & Hm3 & He3 & Hc & Hx)].
  - fold x in Hx. rewrite Hx. repeat split.
    exists 0%R. cbn [B2R]. subst m2. rewrite Rmult_0_l in Hr1.
    repeat split; [destruct s; lra | lra | lra].
  - fold x in Hx.
    assert (Er : (IZR (Zpos m3) * bpow e3 = IZR m2 * bpow e1)%R).
    { rewrite <- Hm3. rewrite He1. rewrite bpow_scale by lia.
      replace (e3 - e1 + e1) with e3 by ring. reflexivity. }
    assert (He3' : e3 <= 971).
    { destruct (Z_le_gt_dec e3 (-1074)) as [|Hgt]; [lia|].
      pose proof (canonical_lower _ _ Hc ltac:(lia)) as Hlow.
      destruct (Z_le_gt_dec e3 971) as [|Hbig]; [assumption|]. exfalso.
      assert (bpow (K + 1) <= bpow (e3 + 52))%R by (apply bpow_le; lia).
      rewrite bpow_add in H.
      rewrite bpow_1 in H.
      apply Rabs_le_inv in Hr1.
      pose proof (bpow_pos K).
      assert (bpow (K - 53) <= bpow K)%R by (apply bpow_le; lia).
      lra. }
    apply Z.leb_le in He3'. change (emax - prec) with 971 in Hx.
    rewrite He3' in Hx. rewrite Hx. apply Z.leb_le in He3'.
    split; [apply valid_finite; split; assumption|].
    split; [reflexivity|].
    exists (IZR m2 * bpow e1)%R. cbn [B2R].
    split; [|split; [exact Hr0 | lra]].
    rewrite <- Er. destruct s; cbn [cond_Zopp];
      [change (- Zpos m3) with (Z.neg m3);
       change (Z.neg m3) with (- Zpos m3); rewrite opp_IZR|]; ring.
Qed.

(** [binary_normalize] on an integer mantissa. *)
Lemma binary_normalize_R (M e K : Z) (sz : bool) :
  (Rabs (IZR M * bpow e) < bpow K)%R -> -1021 <= K <= 1023 ->
  let x := binary_normalize prec emax M e sz in
  valid x = true /\ is_finite x = true /\
  (Rabs (B2R x - IZR M * bpow e) <= bpow (K - 53))%R.
Proof.
  intros Ht HK x. pose proof (bpow_pos e) as Hbe.
  pose proof (bpow_pos (K - 53)) as HbK.
  destruct M as [|mx|mx]; unfold x, binary_normalize.
  - repeat split. cbn [B2R]. rewrite Rmult_0_l, Rminus_0_r, Rabs_R0. lra.
  - assert (Hm : (0 < IZR (Zpos mx))%R) by (apply IZR_lt; reflexivity).
    rewrite Rabs_right in Ht by nra.
    destruct (binary_round_R false mx e K Ht HK)
      as (V & F & r & Er & Hr0 & Hr).
    repeat split; try assumption. rewrite Er. exact Hr.
  - assert (Hm : (0 < IZR (Zpos mx))%R) by (apply IZR_lt; reflexivity).
    change (Z.neg mx) with (- Zpos mx) in *. rewrite opp_IZR in *.
    rewrite Rabs_left in Ht by nra.
    assert (Ht' : (IZR (Zpos mx) * bpow e < bpow K)%R) by lra.
    destruct (binary_round_R true mx e K Ht' HK)
      as (V & F & r & Er & Hr0 & Hr).
    repeat split; try assumption. rewrite Er.
    replace (- r - - IZR (Zpos mx) * bpow e)%R
      with (- (r - IZR (Zpos mx) * bpow e))%R by ring.
    rewrite Rabs_Ropp. exact Hr.
Qed.

Lemma aligned_R (s : bool) (m : positive) (e ez : Z) :
  ez <= e ->
  (IZR (cond_Zopp s (Zpos (fst (shl_align m e ez)))) * bpow ez)%R
  = B2R (S754_finite s m e).
Proof.
  intros He. destruct (shl_align_spec m e ez) as [_ ->].
  replace (Z.min e ez) with ez by lia. cbn [B2R].
  destruct s; cbn [cond_Zopp]; rewrite ?opp_IZR, ?Ropp_mult_distr_l_reverse;
    rewrite bpow_scale by lia;
    replace (e - ez + ez) with e by ring; reflexivity.
Qed.

Lemma Rabs_zero_le (K : Z) : (Rabs (0 - 0) <= bpow K)%R.
Proof.
  rewrite Rminus_0_r, Rabs_R0. pose proof (bpow_pos K). lra.
Qed.

Lemma Rabs_exact_le (a : R) (K : Z) : (Rabs (a - a) <= bpow K)%R.
Proof.
  replace (a - a)%R with 0%R by ring. rewrite Rabs_R0.
  pose proof (bpow_pos K). lra.
Qed.

(** A sum of two valid finite numbers whose value is below [2^K]: a valid
    finite number within [2^(K-53)] of the sum of the values. *)
Lemma add_R (x y : number) (K : Z) :
  valid x = true -> valid y = true ->
  is_finite x = true -> is_finite y = true ->
  (Rabs (B2R x + B2R y) < bpow K)%R -> -1021 <= K <= 1023 ->
  valid (add x y) = true /\ is_finite (add x y) = true /\
  (Rabs (B2R (add x y) - (B2R x + B2R y)) <= bpow (K - 53))%R.
Proof.
  intros Vx Vy Fx Fy Ht HK.
  destruct x as [sx|sx| |sx mx ex]; try discriminate;
    destruct y as [sy|sy| |sy my ey]; try discriminate.
  - assert (E : B2R (add (S754_zero sx) (S754_zero sy)) = 0%R)
      by (destruct sx, sy; reflexivity).
    repeat split; [destruct sx, sy; reflexivity.. |].
    rewrite E. cbn [B2R]. rewrite Rplus_0_l. apply Rabs_zero_le.
  - cbn [add SFadd]. repeat split; [assumption|]. cbn [B2R].
    rewrite Rplus_0_l. apply Rabs_exact_le.
  - cbn [add SFadd]. repeat split; [assumption|]. cbn [B2R].
    rewrite Rplus_0_r. apply Rabs_exact_le.
  - unfold add, SFadd. set (ez := Z.min ex ey).
    rewrite <- (aligned_R sx mx ex ez), <- (aligned_R sy my ey ez) in *
      by (unfold ez; lia).
    rewrite <- Rmult_plus_distr_r, <- plus_IZR in *.
    apply binary_normalize_R; assumption.
Qed.

(** The same for a difference. *)
Lemma sub_R (x y : number) (K : Z) :
  valid x = true -> valid y = true ->
  is_finite x = true -> is_finite y = true ->
  (Rabs (B2R x - B2R y) < bpow K)%R -> -1021 <= K <= 1023 ->
  valid (sub x y) = true /\ is_finite (sub x y) = true /\
  (Rabs (B2R (sub x y) - (B2R x - B2R y)) <= bpow (K - 53))%R.
Proof.
  intros Vx Vy Fx Fy Ht HK.
  destruct x as [sx|sx| |sx mx ex]; try discriminate;
    destruct y as [sy|sy| |sy my ey]; try discriminate.
  - assert (E : B2R (sub (S754_zero sx) (S754_zero sy)) = 0%R)
      by (destruct sx, sy; reflexivity).
    repeat split; [destruct sx, sy; reflexivity.. |].
    rewrite E. cbn [B2R]. rewrite Rminus_0_r. apply Rabs_zero_le.
  - cbn [sub SFsub]. repeat split; [exact Vy|].
    change (S754_finite (negb sy) my ey) with (neg (S754_finite sy my ey)).
    rewrite B2R_neg. cbn [B2R]. rewrite Rminus_0_l. apply Rabs_exact_le.
  - cbn [sub SFsub]. repeat split; [assumption|]. cbn [B2R].
    rewrite Rminus_0_r. apply Rabs_exact_le.
  - unfold sub, SFsub. set (ez := Z.min ex ey).
    rewrite <- (aligned_R sx mx ex ez), <- (aligned_R sy my ey ez) in *
      by (unfold ez; lia).
    rewrite <- Rmult_minus_distr_r, <- minus_IZR in *.
    apply binary_normalize_R; assumption.
Qed.

End FloatRound.

(** ** The settled amount as a real number *)

Module SettleFacts.
Import Account FloatFacts FloatRound.

(** A number that is [+0] or finite and positive. *)
Lemma digits_le_of_lt (m e K : Z) :
  0 < m -> (IZR m * bpow e < bpow K)%R -> Zdigits2 m + e <= K.
Proof.
  intros Hm Ht.
  pose proof (Zdigits2_bpow m Hm) as [Hl _].
  destruct (Z_le_gt_dec (Zdigits2 m + e) K) as [|Hgt]; [assumption|].
  exfalso.
  assert (H : (bpow K <= bpow (Zdigits2 m - 1 + e))%R) by (apply bpow_le; lia).
  rewrite bpow_add in H. pose proof (bpow_pos e). nra.
Qed.

Lemma no_overflow (m3 : positive) (e3 K : Z) :
  fexp prec emax (Zpos (digits2_pos m3) + e3) = e3 ->
  (IZR (Zpos m3) * bpow e3 < bpow (K + 1))%R -> K <= 1023 ->
  e3 <= 971.
Proof.
  intros Hc Hr HK.
  destruct (Z_le_gt_dec e3 (-1074)) as [|Hgt]; [lia|].
  pose proof (canonical_lower _ _ Hc ltac:(lia)) as Hlow.
  destruct (Z_le_gt_dec e3 971) as [|Hbig]; [assumption|]. exfalso.
  assert (bpow (K + 1) <= bpow (e3 + 52))%R by (apply bpow_le; lia).
  lra.
Qed.

(** The product by 100 of a valid positive number. *)
Lemma mul_100_R (m : positive) (e K : Z) :
  valid (S754_finite false m e) = true ->
  (100 * (IZR (Zpos m) * bpow e) < bpow K)%R -> -1021 <= K <= 1023 ->
  let y := mul (S754_finite false m e) lit_100 in
  (y = S754_zero false \/ exists my ey, y = S754_finite false my ey) /\
  valid y = true /\
  (Rabs (B2R y - 100 * (IZR (Zpos m) * bpow e)) <= bpow (K - 53))%R.
Proof.
  intros V Ht HK y.
  change lit_100 with (S754_finite false 7036874417766400 (-46)) in y.
  unfold mul, SFmul in y. cbn [xorb] in y.
  set (M := Zpos (m * 7036874417766400)) in *.
  set (E := e + -46) in *.
  set (t := (100 * (IZR (Zpos m) * bpow e))%R) in *.
  assert (HM : 0 < M) by reflexivity.
  assert (Et : (IZR M * bpow E)%R = t).
  { unfold M, E, t. rewrite Pos2Z.inj_mul, mult_IZR, bpow_add.
    pose proof lit_100_R as H100.
    change lit_100 with (S754_finite false 7036874417766400 (-46)) in H100.
    cbn [B2R cond_Zopp] in H100.
    rewrite Rmult_assoc,
      (Rmult_comm (IZR 7036874417766400)),
      (Rmult_assoc (bpow e)),
      (Rmult_comm (bpow (-46))), H100. ring. }
  assert (Hdig : 53 <= Zdigits2 M).
  { unfold M. rewrite Pos2Z.inj_mul.
    assert (H52 : 2 ^ 52 <= Zpos m * 7036874417766400).
    { change (2 ^ 52) with (1 * 4503599627370496). nia. }
    rewrite Zdigits2_log2 by lia.
    pose proof (Z.log2_le_mono _ _ H52) as Hl.
    rewrite Z.log2_pow2 in Hl by lia. lia. }
  assert (Hen : E <= fexp prec emax (Zdigits2 M + E))
    by (rewrite fexp_eq; lia).
  destruct (grid_step M E HM Hen) as [He1 _].
  assert (Hin : (IZR M * bpow E <= t < IZR (M + 1) * bpow E)%R).
  { rewrite plus_IZR, <- Et. pose proof (bpow_pos E). split; nra. }
  destruct (binary_round_aux_R false M E loc_Exact t HM Hin)
    as (k & r & Hk & Hgrid & Hr & _ & Hres).
  fold y in Hres.
  set (e1 := E + shift_of M E) in *.
  assert (Hd : Zdigits2 M + E <= K)
    by (apply digits_le_of_lt; [exact HM | rewrite Et; exact Ht]).
  assert (He1K : e1 <= K - 53) by (rewrite He1, fexp_eq; lia).
  pose proof (bpow_le _ _ He1K) as Hb1.
  pose proof (bpow_pos e1) as Hbe1.
  assert (Hrt : (Rabs (r - t) <= bpow (K - 53))%R).
  { apply Rabs_le. destruct Hr as [-> | ->]; lra. }
  destruct Hres as [[Hz Hy] | (m3 & e3 & Hr3 & _ & _ & Hc & Hy)].
  - rewrite Hy. split; [left; reflexivity|]. split; [reflexivity|].
    cbn [B2R]. rewrite <- Hz. exact Hrt.
  - specialize (Hc Hen).
    assert (He3 : e3 <= 971).
    { apply (no_overflow m3 e3 K Hc); [|lia].
      rewrite <- Hr3. apply Rabs_le_inv in Hrt.
      assert (bpow (K - 53) <= bpow K)%R by (apply bpow_le; lia).
      rewrite bpow_add, bpow_1. pose proof (bpow_pos K). lra. }
    apply Z.leb_le in He3. change (emax - prec) with 971 in Hy.
    rewrite He3 in Hy. apply Z.leb_le in He3. rewrite Hy.
    split; [right; eauto|].
    split; [apply valid_finite; split; assumption|].
    cbn [B2R cond_Zopp]. rewrite <- Hr3. exact Hrt.
Qed.

(** [floor (x + 1/2)] for [x = m * 2^e] with [e < 0]. *)
Lemma round_half_up_R (c m e : Z) :
  e < 0 -> 0 <= c -> 0 <= m ->
  let n := (2 * c * m + 2 ^ (- e)) / 2 ^ (1 - e) in
  0 <= n /\
  (IZR n <= IZR c * (IZR m * bpow e) + / 2 < IZR n + 1)%R.
Proof.
  intros He Hc Hm n.
  assert (H2 : 0 < 2 ^ (- e)) by (apply Z.pow_pos_nonneg; lia).
  assert (Hnum : 0 <= 2 * c * m + 2 ^ (- e)) by nia.
  pose proof (div_pow2_bounds _ (1 - e) Hnum ltac:(lia)) as [Hl Hu].
  fold n in Hl, Hu.
  split; [apply Z.div_pos; [exact Hnum | apply Z.pow_pos_nonneg; lia]|].
  rewrite plus_IZR, !mult_IZR, <- (bpow_IZR (- e)) in Hl, Hu by lia.
  replace (1 - e) with (1 + - e) in Hl, Hu by ring.
  rewrite bpow_add, bpow_1 in Hl, Hu.
  pose proof (bpow_pos (- e)) as Hb. pose proof (bpow_pos e) as Hbe.
  assert (Ei : (bpow (- e) * bpow e = 1)%R).
  { rewrite <- bpow_add. replace (- e + e) with 0 by ring. reflexivity. }
  assert (Ex : (IZR c * (IZR m * bpow e) * (2 * bpow (- e))
                = 2 * IZR c * IZR m)%R).
  { transitivity (2 * IZR c * IZR m * (bpow (- e) * bpow e))%R; [ring|].
    rewrite Ei. ring. }
  set (x := (IZR c * (IZR m * bpow e))%R) in *.
  split; apply Rmult_le_reg_r with (r := (2 * bpow (- e))%R)
    || apply Rmult_lt_reg_r with (r := (2 * bpow (- e))%R); try lra.
Qed.

(** [Math.round] of a number that is [+0] or valid and positive. *)
Lemma Math_round_R (y : number) :
  (y = S754_zero false \/ exists my ey, y = S754_finite false my ey) ->
  (B2R y < bpow 52)%R ->
  exists n : Z,
    0 <= n /\ (Rabs (IZR n - B2R y) <= / 2)%R /\
    ((n = 0 /\ Math_round y = S754_zero false) \/
     (0 < n /\ exists m e, Math_round y = S754_finite false m e /\
                           (IZR (Zpos m) * bpow e)%R = IZR n)).
Proof.
  intros [-> | (my & ey & ->)] Hy.
  - exists 0. cbn [B2R Math_round]. split; [lia|].
    split; [rewrite Rminus_0_r, Rabs_R0; lra | left; split; reflexivity].
  - cbn [B2R cond_Zopp] in *. unfold Math_round.
    destruct (0 <=? ey) eqn:Ee.
    + apply Z.leb_le in Ee. exists (Zpos my * 2 ^ ey).
      assert (0 < 2 ^ ey) by (apply Z.pow_pos_nonneg; lia).
      split; [nia|]. rewrite mult_IZR, <- bpow_IZR by assumption.
      split; [rewrite Rminus_diag, Rabs_R0; lra|].
      right. split; [nia|]. exists my, ey. split; [reflexivity|].
      reflexivity.
    + apply Z.leb_gt in Ee. cbn [cond_Zopp].
      destruct (round_half_up_R 1 (Zpos my) ey Ee ltac:(lia) ltac:(lia))
        as [Hn0 Hn].
      rewrite Z.mul_1_r in Hn0, Hn. rewrite Rmult_1_l in Hn.
      set (n := (2 * Zpos my + 2 ^ (- ey)) / 2 ^ (1 - ey)) in *.
      exists n. split; [exact Hn0|].
      split; [apply Rabs_le; lra|].
      destruct (n =? 0) eqn:En.
      * apply Z.eqb_eq in En. left. split; [exact En | reflexivity].
      * apply Z.eqb_neq in En. right. split; [lia|].
        assert (Hlt : n < 2 ^ 53).
        { apply lt_IZR. rewrite <- (bpow_IZR 53) by lia.
          assert (bpow 52 + 1 <= bpow 53)%R.
          { replace 53 with (1 + 52) by ring. rewrite bpow_add, bpow_1.
            assert (1 <= bpow 52)%R
              by (rewrite <- bpow_0; apply bpow_le; lia).
            lra. }
          lra. }
        destruct (of_Z_exact n ltac:(lia)) as (m & e & Eo & Ev & _).
        exists m, e. split; [exact Eo | exact Ev].
Qed.

(** The quotient by 100 of a positive integer held in a number. *)
Lemma div_100_R (m : positive) (e n K : Z) :
  0 < n -> (IZR (Zpos m) * bpow e)%R = IZR n ->
  (IZR n / 100 < bpow K)%R -> -1021 <= K <= 1022 ->
  let a := div (S754_finite false m e) lit_100 in
  (exists ma ea, a = S754_finite false ma ea) /\ valid a = true /\
  (Rabs (B2R a - IZR n / 100) <= bpow (K - 53))%R.
Proof.
  intros Hn Em Ht HK a.
  change lit_100 with (S754_finite false 7036874417766400 (-46)) in a.
  pose proof lit_100_R as H100.
  change lit_100 with (S754_finite false 7036874417766400 (-46)) in H100.
  cbn [B2R cond_Zopp] in H100.
  assert (Hn1 : (1 <= IZR n)%R) by (apply IZR_le; lia).
  assert (Hsmall : (bpow (-1074) <= / 128)%R).
  { replace (/ 128)%R with (bpow (-7))
      by (unfold bpow; simpl; lra).
    apply bpow_le. lia. }
  destruct (div_R false false m 7036874417766400 e (-46))
    as (e1 & r & Hr & He1 & Hres).
  { rewrite Em, H100. lra. }
  rewrite Em, H100 in Hr, He1. fold a in Hres. cbn [xorb] in Hres.
  set (t := (IZR n / 100)%R) in *.
  assert (Ht0 : (/ 100 <= t)%R) by (unfold t; lra).
  pose proof (bpow_pos e1) as Hbe1.
  assert (He1K : e1 <= K - 53).
  { destruct He1 as [-> | He1]; [lia|].
    destruct (Z_le_gt_dec e1 (K - 53)) as [|Hgt]; [assumption|]. exfalso.
    assert (bpow (K - 52) <= bpow e1)%R by (apply bpow_le; lia).
    replace (K - 52) with (-52 + K) in H by ring.
    rewrite bpow_add in H. pose proof (bpow_pos (-52)). nra. }
  pose proof (bpow_le _ _ He1K) as Hb1.
  assert (Hlt1 : (bpow e1 < t)%R).
  { destruct He1 as [-> | He1]; [lra|].
    assert (bpow (-52) <= / 2)%R.
    { replace (/ 2)%R with (bpow (-1)) by (unfold bpow; simpl; lra).
      apply bpow_le. lia. }
    nra. }
  destruct Hres as [[Hz _] | (m3 & e3 & Hr3 & Hc & Ha)]; [lra|].
  assert (He3 : e3 <= 971).
  { apply (no_overflow m3 e3 K Hc); [|lia].
    rewrite <- Hr3. rewrite bpow_add, bpow_1. lra. }
  apply Z.leb_le in He3. change (emax - prec) with 971 in Ha.
  rewrite He3 in Ha. apply Z.leb_le in He3. rewrite Ha.
  split; [eauto|].
  split; [apply valid_finite; split; assumption|].
  cbn [B2R cond_Zopp]. rewrite <- Hr3. apply Rabs_le. lra.
Qed.

Lemma bpow_neg_IZR (k : Z) : 0 <= k -> bpow (- k) = (/ IZR (2 ^ k))%R.
Proof.
  intros Hk. rewrite <- bpow_IZR by assumption.
  pose proof (bpow_pos k) as Hb.
  assert (E : (bpow (- k) * bpow k = 1)%R).
  { rewrite <- bpow_add. replace (- k + k) with 0 by ring. reflexivity. }
  apply Rmult_eq_reg_r with (r := bpow k); [|lra].
  rewrite E. field. lra.
Qed.

Lemma bpow_40 : bpow 40 = 1099511627776%R.
Proof. rewrite bpow_IZR by lia. reflexivity. Qed.

Lemma bpow_41 : bpow 41 = 2199023255552%R.
Proof. rewrite bpow_IZR by lia. reflexivity. Qed.

Lemma bpow_47 : bpow 47 = 140737488355328%R.
Proof. rewrite bpow_IZR by lia. reflexivity. Qed.

Lemma bpow_52 : bpow 52 = 4503599627370496%R.
Proof. rewrite bpow_IZR by lia. reflexivity. Qed.

Lemma bpow_m6 : bpow (-6) = (/ 64)%R.
Proof. apply (bpow_neg_IZR 6). lia. Qed.

Lemma bpow_m7 : bpow (-7) = (/ 128)%R.
Proof. apply (bpow_neg_IZR 7). lia. Qed.

Lemma bpow_m12 : bpow (-12) = (/ 4096)%R.
Proof. apply (bpow_neg_IZR 12). lia. Qed.

Lemma bpow_m59 : bpow (-59) = (/ 576460752303423488)%R.
Proof. apply (bpow_neg_IZR 59). lia. Qed.

(** *** The test against the tolerance *)

Lemma tol_small (x : number) :
  valid x = true -> is_finite x = true ->
  (Rabs (B2R x) < / 128)%R -> lt (Math_abs x) lit_0_01 = true.
Proof.
  intros V F H. destruct x as [s|s| |s m e]; try discriminate;
    [reflexivity|].
  rewrite <- B2R_abs in H. cbn [Math_abs SFabs B2R cond_Zopp] in *.
  apply valid_finite in V. destruct V as [Hc _].
  assert (He : e < -59).
  { destruct (Z_le_gt_dec e (-1074)) as [|Hgt]; [lia|].
    pose proof (canonical_lower _ _ Hc ltac:(lia)) as Hl.
    destruct (Z_lt_le_dec e (-59)) as [|Hge]; [assumption|]. exfalso.
    assert (bpow (-7) <= bpow (e + 52))%R by (apply bpow_le; lia).
    rewrite bpow_m7 in H0. lra. }
  unfold lt, SFltb, lit_0_01, SFcompare.
  destruct (Z.compare_spec e (-59)); first [reflexivity | lia].
Qed.

Lemma tol_removed (x : number) :
  valid x = true -> is_finite x = true ->
  lt (Math_abs x) lit_0_01 = true -> (Rabs (B2R x) < / 100)%R.
Proof.
  intros V F H. destruct x as [s|s| |s m e]; try discriminate.
  - cbn [B2R]. rewrite Rabs_R0. lra.
  - rewrite <- B2R_abs. cbn [Math_abs SFabs B2R cond_Zopp] in *.
    apply valid_finite in V. destruct V as [Hc _].
    pose proof (canonical_upper _ _ Hc) as Hu.
    unfold lt, SFltb, lit_0_01, SFcompare in H.
    destruct (Z.compare_spec e (-59)) as [E | E | E]; try discriminate.
    + subst e.
      pose proof (Pos.compare_spec m 5764607523034235) as Hcmp.
      unfold Pos.compare in Hcmp.
      destruct Hcmp as [Em | Em | Em]; try discriminate H.
      assert (Hz : Zpos m < 5764607523034235) by exact Em.
      clear Em.
      assert (Hm : (IZR (Zpos m) <= 5764607523034234)%R)
        by (apply IZR_le; lia).
      rewrite bpow_m59. lra.
    + assert (bpow (e + 53) <= bpow (-7))%R by (apply bpow_le; lia).
      rewrite bpow_m7 in H0. lra.
Qed.

Lemma tol_kept (x : number) :
  valid x = true -> is_finite x = true ->
  lt (Math_abs x) lit_0_01 = false -> (/ 128 <= Rabs (B2R x))%R.
Proof.
  intros V F H.
  destruct (Rlt_le_dec (Rabs (B2R x)) (/ 128)) as [Hlt | Hge];
    [|exact Hge].
  rewrite (tol_small x V F Hlt) in H. discriminate.
Qed.

(** *** The amount string *)

Lemma hundredths_R (m : positive) (e : Z) :
  0 <= hundredths m e /\
  (Rabs (IZR (hundredths m e) - 100 * (IZR (Zpos m) * bpow e)) <= / 2)%R.
Proof.
  unfold hundredths. destruct (0 <=? e) eqn:Ee.
  - apply Z.leb_le in Ee.
    assert (0 < 2 ^ e) by (apply Z.pow_pos_nonneg; lia).
    split; [nia|].
    rewrite !mult_IZR, <- bpow_IZR by assumption.
    replace (100 * IZR (Zpos m) * bpow e - 100 * (IZR (Zpos m) * bpow e))%R
      with 0%R by ring.
    rewrite Rabs_R0. lra.
  - apply Z.leb_gt in Ee.
    destruct (round_half_up_R 100 (Zpos m) e Ee ltac:(lia) ltac:(lia))
      as [Hn0 Hn].
    change (2 * 100) with 200 in Hn0, Hn.
    split; [exact Hn0|]. apply Rabs_le. lra.
Qed.

Lemma ge_1e21_small (m : positive) (e : Z) :
  valid (S754_finite false m e) = true ->
  (IZR (Zpos m) * bpow e < bpow 69)%R ->
  ge_1e21 (S754_finite false m e) = false.
Proof.
  intros V H. apply valid_finite in V. destruct V as [Hc _].
  assert (He : e < 17).
  { destruct (Z_le_gt_dec e (-1074)) as [|Hgt]; [lia|].
    pose proof (canonical_lower _ _ Hc ltac:(lia)) as Hl.
    destruct (Z_lt_le_dec e 17) as [|Hge]; [assumption|]. exfalso.
    assert (bpow 69 <= bpow (e + 52))%R by (apply bpow_le; lia).
    lra. }
  unfold ge_1e21, SFleb.
  change (of_Z (10 ^ 21)) with (S754_finite false 7629394531250000 17).
  unfold SFcompare.
  destruct (Z.compare_spec 17 e); first [reflexivity | lia].
Qed.

(** The hundredths that the amount string of a transaction denotes. *)
Lemma cents_emitted (f t : jsstring) (m : positive) (e : Z) :
  ge_1e21 (S754_finite false m e) = false ->
  cents {| from := f; to := t;
           tx_amount := toFixed2 (S754_finite false m e) |}
  = hundredths m e.
Proof.
  intros Hge. unfold cents. cbn [tx_amount]. unfold toFixed2.
  rewrite Hge. cbn [app].
  destruct (fixed2_format (Z.to_N (hundredths m e))) as [_ ->].
  apply Z2N.id. apply hundredths_R.
Qed.

(** *** The settled amount *)

Lemma owed_inv (x : number) :
  owed x -> exists m e, x = S754_finite false m e.
Proof. intros [_ [H _]]. apply B2R_pos_inv, H. Qed.

Lemma owing_neg (x : number) : owing x -> owed (neg x).
Proof.
  intros [V H]. split; [rewrite valid_neg; exact V|].
  rewrite B2R_neg. lra.
Qed.

(** The amount settled between a creditor and a debtor of the lists: [+0]
    or a valid positive number, within 0.0055 of the smaller of what the
    one is owed and the other owes. *)
Lemma settle_amount_R (c d : entry) :
  owed (balance c) -> owing (balance d) ->
  let a := settle_amount c d in
  let v := Rmin (B2R (balance c)) (- B2R (balance d)) in
  valid a = true /\
  (a = S754_zero false \/ exists m e, a = S754_finite false m e) /\
  (Rabs (B2R a - v) <= 11 / 2000)%R.
Proof.
  intros Hc Hd. pose proof (owing_neg _ Hd) as Hd'.
  intros a v. subst a. unfold settle_amount.
  assert (Hz : exists z, Math_min (balance c) (neg (balance d)) = z /\
                         owed z /\ B2R z = v).
  { destruct Hc as [Vc Pc], Hd' as [Vd Pd].
    destruct (Math_min_R (balance c) (neg (balance d)) Vc Vd
                ltac:(lra) ltac:(lra)) as [[E Hle] | [E Hle]];
      rewrite E; eexists; (split; [reflexivity|]);
      (split; [split; assumption|]);
      unfold v; rewrite <- B2R_neg.
    - rewrite Rmin_left by exact Hle. reflexivity.
    - rewrite Rmin_right by exact Hle. reflexivity. }
  destruct Hz as (z & Ez & [Vz Pz] & Ev). rewrite Ez. clear Ez.
  destruct (B2R_pos_inv z ltac:(lra)) as (mz & ez & ->).
  cbn [B2R cond_Zopp] in Pz, Ev. rewrite <- Ev. clear Ev v.
  set (zv := (IZR (Zpos mz) * bpow ez)%R) in *.
  rewrite bpow_40 in Pz.
  destruct (mul_100_R mz ez 47 Vz) as (Hy & Vy & Ey);
    [fold zv; rewrite bpow_47; lra | lia |].
  fold zv in Ey. change (47 - 53) with (-6) in Ey. rewrite bpow_m6 in Ey.
  set (y := mul (S754_finite false mz ez) lit_100) in *.
  apply Rabs_le_inv in Ey.
  destruct (Math_round_R y Hy) as (n & Hn0 & Hn & Hr);
    [rewrite bpow_52; lra|].
  apply Rabs_le_inv in Hn.
  destruct Hr as [[-> Er] | (Hn1 & m & e & Er & Em)].
  - rewrite Er.
    change (div (S754_zero false) lit_100) with (S754_zero false).
    split; [reflexivity|]. split; [left; reflexivity|].
    cbn [B2R]. apply Rabs_le. lra.
  - rewrite Er.
    destruct (div_100_R m e n 41 Hn1 Em) as ((ma & ea & Ea) & Va & Ha);
      [rewrite bpow_41; lra | lia |].
    change (41 - 53) with (-12) in Ha. rewrite bpow_m12 in Ha.
    apply Rabs_le_inv in Ha.
    split; [exact Va|]. split; [right; eauto|].
    apply Rabs_le. lra.
Qed.

End SettleFacts.

(** ** One pass of the loop on balances of moderate size *)

Module PassFacts.
Import Account FloatFacts FloatRound SettleFacts.

(** The transactions that a pass pushes: one, or none. *)
Lemma step_eq (c d : entry) (cs ds : list entry) (txs : list transaction) :
  let a := settle_amount c d in
  step c d cs ds txs =
  {| creditors :=
       if lt (Math_abs (sub (balance c) a)) lit_0_01 then cs
       else {| name := name c; balance := sub (balance c) a |} :: cs;
     debtors :=
       if lt (Math_abs (add (balance d) a)) lit_0_01 then ds
       else {| name := name d; balance := add (balance d) a |} :: ds;
     transactions :=
       txs ++ (if gt a lit_0
               then [{| from := name d; to := name c;
                        tx_amount := toFixed2 a |}]
               else []) |}.
Proof.
  intros a. unfold step. fold a. cbn [balance].
  destruct (gt a lit_0); [reflexivity|]. rewrite app_nil_r. reflexivity.
Qed.

Lemma Rmin_cases (x y : R) :
  (Rmin x y <= x /\ Rmin x y <= y /\ (Rmin x y = x \/ Rmin x y = y))%R.
Proof. unfold Rmin. destruct (Rle_dec x y); lra. Qed.

Lemma pass_R (c d : entry) :
  owed (balance c) -> owing (balance d) ->
  let a := settle_amount c d in
  let new := if gt a lit_0
             then [{| from := name d; to := name c;
                      tx_amount := toFixed2 a |}]
             else [] in
  let cb := sub (balance c) a in
  let db := add (balance d) a in
  (Rabs (B2R cb - (B2R (balance c) - IZR (total_cents new) / 100))
   <= IZR (Z.of_nat (length new)) / 100)%R /\
  (Rabs (B2R db - (B2R (balance d) + IZR (total_cents new) / 100))
   <= IZR (Z.of_nat (length new)) / 100)%R /\
  (if lt (Math_abs cb) lit_0_01
   then (Rabs (B2R cb) < / 100)%R else owed cb) /\
  (if lt (Math_abs db) lit_0_01
   then (Rabs (B2R db) < / 100)%R else owing db) /\
  (lt (Math_abs cb) lit_0_01 = true \/ lt (Math_abs db) lit_0_01 = true).
Proof.
  intros Hc Hd a new cb db.
  destruct (settle_amount_R c d Hc Hd) as (Va & Ha & Hv). fold a in Va, Ha, Hv.
  pose proof Hc as [Vc Pc]. pose proof Hd as [Vd Pd].
  destruct (B2R_pos_inv _ (proj1 Pc)) as (mc & ec & Ec).
  destruct (B2R_neg_inv _ (proj2 Pd)) as (md & ed & Ed).
  assert (Fc : is_finite (balance c) = true) by (rewrite Ec; reflexivity).
  assert (Fd : is_finite (balance d) = true) by (rewrite Ed; reflexivity).
  destruct (Rmin_cases (B2R (balance c)) (- B2R (balance d)))
    as (Hvc & Hvd & Hveq).
  set (v := Rmin (B2R (balance c)) (- B2R (balance d))) in *.
  rewrite bpow_40 in Pc, Pd.
  apply Rabs_le_inv in Hv.
  destruct Ha as [Ea | (m & e & Ea)].
  - (* nothing is settled *)
    assert (En : new = []) by (unfold new; rewrite Ea; reflexivity).
    assert (Ecb : cb = balance c) by (unfold cb; rewrite Ea, Ec; reflexivity).
    assert (Edb : db = balance d) by (unfold db; rewrite Ea, Ed; reflexivity).
    rewrite En, Ecb, Edb. cbn [total_cents map fold_right length Z.of_nat].
    rewrite Ea in Hv. cbn [B2R] in Hv.
    split; [apply Rabs_le; lra|]. split; [apply Rabs_le; lra|].
    split.
    { destruct (lt (Math_abs (balance c)) lit_0_01) eqn:E;
        [apply tol_removed; assumption | exact Hc]. }
    split.
    { destruct (lt (Math_abs (balance d)) lit_0_01) eqn:E;
        [apply tol_removed; assumption | exact Hd]. }
    destruct Hveq as [Hveq | Hveq]; [left | right];
      apply tol_small; try assumption; apply Rabs_def1; lra.
  - (* a transaction *)
    assert (Hgt : gt a lit_0 = true) by (rewrite Ea; reflexivity).
    destruct (settle_amount_lower c d m e false Ea Hgt) as [_ Hlow].
    assert (Eav : B2R a = (IZR (Zpos m) * bpow e)%R)
      by (rewrite Ea; reflexivity).
    rewrite <- Eav in Hlow.
    assert (Fa : is_finite a = true) by (rewrite Ea; reflexivity).
    assert (Hge : ge_1e21 (S754_finite false m e) = false).
    { apply ge_1e21_small; [rewrite <- Ea; exact Va|].
      rewrite <- Eav.
      assert (bpow 41 <= bpow 69)%R by (apply bpow_le; lia).
      rewrite bpow_41 in H. lra. }
    assert (En : new = [{| from := name d; to := name c;
                           tx_amount := toFixed2 a |}])
      by (unfold new; rewrite Hgt; reflexivity).
    assert (Ecents : total_cents new = hundredths m e).
    { rewrite En. unfold total_cents. cbn [map fold_right].
      rewrite Ea, cents_emitted by exact Hge. ring. }
    destruct (hundredths_R m e) as [_ Hh]. rewrite <- Eav in Hh.
    apply Rabs_le_inv in Hh.
    rewrite Ecents, En. cbn [length Z.of_nat Pos.of_succ_nat].
    destruct (sub_R (balance c) a 41 Vc Va Fc Fa) as (Vcb & Fcb & Hcb);
      [rewrite bpow_41; apply Rabs_def1; lra | lia |].
    destruct (add_R (balance d) a 41 Vd Va Fd Fa) as (Vdb & Fdb & Hdb);
      [rewrite bpow_41; apply Rabs_def1; lra | lia |].
    fold cb in Vcb, Fcb, Hcb. fold db in Vdb, Fdb, Hdb.
    change (41 - 53) with (-12) in Hcb, Hdb. rewrite bpow_m12 in Hcb, Hdb.
    apply Rabs_le_inv in Hcb, Hdb.
    split; [apply Rabs_le; lra|]. split; [apply Rabs_le; lra|].
    split.
    { destruct (lt (Math_abs cb) lit_0_01) eqn:E;
        [apply tol_removed; assumption|].
      pose proof (tol_kept cb Vcb Fcb E) as Hk.
      split; [exact Vcb|]. rewrite bpow_40.
      assert (- / 128 < B2R cb)%R by lra.
      unfold Rabs in Hk. destruct (Rcase_abs (B2R cb)); lra. }
    split.
    { destruct (lt (Math_abs db) lit_0_01) eqn:E;
        [apply tol_removed; assumption|].
      pose proof (tol_kept db Vdb Fdb E) as Hk.
      split; [exact Vdb|]. rewrite bpow_40.
      assert (B2R db < / 128)%R by lra.
      unfold Rabs in Hk. destruct (Rcase_abs (B2R db)); lra. }
    destruct Hveq as [Hveq | Hveq]; [left | right];
      apply tol_small; try assumption; apply Rabs_def1; lra.
Qed.

End PassFacts.

(** ** The loop on balances of moderate size *)

Module LoopFacts.
Import Account FloatFacts FloatRound SettleFacts PassFacts.

Lemma total_cents_app (l1 l2 : list transaction) :
  total_cents (l1 ++ l2) = total_cents l1 + total_cents l2.
Proof.
  unfold total_cents. induction l1 as [|t l1 IH]; cbn [app map fold_right];
    [reflexivity|]. rewrite IH. ring.
Qed.

Lemma of_member_app who nm (l1 l2 : list transaction) :
  of_member who nm (l1 ++ l2) = of_member who nm l1 ++ of_member who nm l2.
Proof. apply filter_app. Qed.

Lemma of_member_same who nm (new : list transaction) :
  Forall (fun t => who t = nm) new -> of_member who nm new = new.
Proof.
  induction 1 as [|t new Ht _ IH]; [reflexivity|].
  unfold of_member in *. cbn [filter]. rewrite Ht, eqb_refl, IH.
  reflexivity.
Qed.

Lemma of_member_other who nm nm' (new : list transaction) :
  Forall (fun t => who t = nm) new -> nm' <> nm ->
  of_member who nm' new = [].
Proof.
  intros H Hne. induction H as [|t new Ht _ IH]; [reflexivity|].
  unfold of_member in *. cbn [filter]. rewrite IH.
  destruct (JSStr.eqb (who t) nm') eqn:E; [|reflexivity].
  apply eqb_eq in E. congruence.
Qed.

(** What a pass does to one of the two lists, when the transactions it
    pushes are those of the first element [x]. *)
Lemma side_step (sgn : R) who (good : number -> Prop) orig x rest txs new
    (xb : number) (removed : bool) :
  (sgn = 1 \/ sgn = -1)%R ->
  Forall (fun t => who t = name x) new ->
  side_inv sgn who good orig (x :: rest) txs ->
  (Rabs (B2R xb - (B2R (balance x) - sgn * (IZR (total_cents new) / 100)))
   <= IZR (Z.of_nat (length new)) / 100)%R ->
  (if removed then (Rabs (B2R xb) < / 100)%R else good xb) ->
  side_inv sgn who good orig
    (if removed then rest else {| name := name x; balance := xb |} :: rest)
    (txs ++ new).
Proof.
  intros Hsgn Hnew (Hnd & Hall & Hacc) Hxb Hrem.
  cbn [map] in Hnd. inversion Hnd as [|? ? Hni Hnd']; subst.
  inversion Hall as [|? ? [Hgx Htx] Hall']; subst.
  assert (Esame : of_member who (name x) (txs ++ new)
                  = of_member who (name x) txs ++ new).
  { rewrite of_member_app, (of_member_same _ _ _ Hnew). reflexivity. }
  assert (Eother : forall nm, nm <> name x ->
            of_member who nm (txs ++ new) = of_member who nm txs).
  { intros nm Hne.
    rewrite of_member_app, (of_member_other _ _ _ _ Hnew Hne), app_nil_r.
    reflexivity. }
  assert (Hrest : Forall (fun y => good (balance y) /\
                                   tracks sgn who orig (txs ++ new) y) rest).
  { rewrite Forall_forall in Hall' |- *. intros y Hy.
    destruct (Hall' y Hy) as [Hgy Hty]. split; [exact Hgy|].
    assert (Hne : name y <> name x).
    { intros E. apply Hni. rewrite <- E. apply in_map, Hy. }
    intros o Ho Eo. rewrite (Eother _ Hne). apply Hty; assumption. }
  (* the first element after the pass, against the balance at first *)
  assert (Hhead : forall o, In o orig -> name o = name x ->
    (Rabs (B2R xb
           - (B2R (balance o)
              - sgn * (IZR (total_cents (of_member who (name x) (txs ++ new)))
                       / 100)))
     <= IZR (Z.of_nat (length (of_member who (name x) (txs ++ new)))) / 100)%R).
  { intros o Ho Eo. specialize (Htx o Ho Eo).
    rewrite Esame, total_cents_app, length_app, Nat2Z.inj_add, !plus_IZR.
    apply Rabs_le_inv in Htx, Hxb. apply Rabs_le.
    destruct Hsgn as [-> | ->]; lra. }
  destruct removed.
  - split; [exact Hnd'|]. split; [exact Hrest|].
    intros o Ho Hno.
    destruct (list_eq_dec N.eq_dec (name o) (name x)) as [E | Hne].
    + specialize (Hhead o Ho E). rewrite E. unfold settled.
      set (S := IZR (total_cents (of_member who (name x) (txs ++ new)))) in *.
      set (k := Z.of_nat (length (of_member who (name x) (txs ++ new)))) in *.
      rewrite plus_IZR.
      apply Rabs_le_inv in Hhead. apply Rabs_lt_inv in Hrem.
      apply Rabs_def1; destruct Hsgn as [-> | ->]; lra.
    + rewrite (Eother _ Hne). apply Hacc; [exact Ho|].
      cbn [map]. intros [E | Hin]; [congruence | contradiction].
  - split; [cbn [map name]; exact Hnd|].
    split.
    + constructor; [|exact Hrest]. cbn [name balance].
      split; [exact Hrem | exact Hhead].
    + intros o Ho Hno. cbn [map name] in Hno.
      assert (Hne : name o <> name x) by (intros E; apply Hno; left; auto).
      rewrite (Eother _ Hne). apply Hacc; [exact Ho|].
      cbn [map]. intros [E | Hin]; [congruence|].
      apply Hno. right. exact Hin.
Qed.

(** A pass keeps the invariant, takes the first creditor or the first
    debtor off its list, and pushes one transaction at most. *)
Lemma invariant_step (C0 D0 : list entry) c d cs ds txs :
  invariant C0 D0
    {| creditors := c :: cs; debtors := d :: ds; transactions := txs |} ->
  let st' := step c d cs ds txs in
  invariant C0 D0 st' /\
  (length (creditors st') + length (debtors st')
   <= length cs + length ds + 1)%nat /\
  (length (transactions st') <= S (length txs))%nat.
Proof.
  intros [HC HD]. cbn [creditors debtors transactions] in HC, HD.
  assert (Hc : owed (balance c)).
  { destruct HC as (_ & Hall & _). inversion Hall; subst. tauto. }
  assert (Hd : owing (balance d)).
  { destruct HD as (_ & Hall & _). inversion Hall; subst. tauto. }
  destruct (pass_R c d Hc Hd) as (HA & HB & HRc & HRd & Hprog).
  intros st'. unfold st'. rewrite step_eq. cbv zeta.
  set (a := settle_amount c d) in *.
  set (new := if gt a lit_0
              then [{| from := name d; to := name c;
                       tx_amount := toFixed2 a |}]
              else []) in *.
  set (cb := sub (balance c) a) in *.
  set (db := add (balance d) a) in *.
  cbn [creditors debtors transactions].
  assert (Hto : Forall (fun t => to t = name c) new)
    by (unfold new; destruct (gt a lit_0); repeat constructor).
  assert (Hfrom : Forall (fun t => from t = name d) new)
    by (unfold new; destruct (gt a lit_0); repeat constructor).
  assert (Hlen : (length new <= 1)%nat)
    by (unfold new; destruct (gt a lit_0); cbn [length]; lia).
  split; [split|split].
  - apply side_step; try assumption; [left; reflexivity|].
    rewrite Rmult_1_l. exact HA.
  - apply side_step; try assumption; [right; reflexivity|].
    replace (B2R (balance d) - -1 * (IZR (total_cents new) / 100))%R
      with (B2R (balance d) + IZR (total_cents new) / 100)%R by ring.
    exact HB.
  - destruct (lt (Math_abs cb) lit_0_01), (lt (Math_abs db) lit_0_01);
      cbn [length]; first [lia | destruct Hprog; discriminate].
  - rewrite length_app. lia.
Qed.

(** From a state that satisfies the invariant the loop ends within as many
    passes as the two lists have elements; the final state satisfies the
    invariant, one of its lists is empty, and it has one transaction at
    most for each pass. *)
Lemma loop_state_moderate (C0 D0 : list entry) (fuel : nat) :
  forall st,
    invariant C0 D0 st ->
    (length (creditors st) + length (debtors st) <= fuel)%nat ->
    exists st',
      loop_state fuel st = Some st' /\ invariant C0 D0 st' /\
      (creditors st' = [] \/ debtors st' = []) /\
      (length (transactions st') + 1 <=
       length (transactions st)
       + match creditors st, debtors st with
         | _ :: _, _ :: _ => length (creditors st) + length (debtors st)
         | _, _ => 1
         end)%nat.
Proof.
  induction fuel as [|fuel IH]; intros [cs0 ds0 txs] Hinv Hfuel;
    cbn [creditors debtors transactions] in *.
  - destruct cs0; [|cbn [length] in Hfuel; lia].
    exists {| creditors := []; debtors := ds0; transactions := txs |}.
    split; [reflexivity|]. split; [exact Hinv|].
      split; [left; reflexivity | cbn; lia].
  - destruct cs0 as [|c cs].
    { exists {| creditors := []; debtors := ds0; transactions := txs |}.
      split; [reflexivity|]. split; [exact Hinv|].
      split; [left; reflexivity | cbn; lia]. }
    destruct ds0 as [|d ds].
    { exists {| creditors := c :: cs; debtors := []; transactions := txs |}.
      split; [reflexivity|]. split; [exact Hinv|].
      split; [right; reflexivity | cbn; lia]. }
    cbn [loop_state creditors debtors transactions].
    destruct (invariant_step C0 D0 c d cs ds txs Hinv)
      as (Hinv' & Hcount & Htx).
    set (st1 := step c d cs ds txs) in *.
    cbn [length] in Hfuel.
    destruct (IH st1 Hinv' ltac:(lia)) as (st' & Eloop & Hinv'' & Hend & Hn).
    exists st'. split; [exact Eloop|]. split; [exact Hinv''|].
    split; [exact Hend|]. cbn [length].
    destruct (creditors st1) as [|c1 cs1], (debtors st1) as [|d1 ds1];
      cbn [length] in *; lia.
Qed.

Lemma loop_of_state (fuel : nat) :
  forall st, loop fuel st = option_map transactions (loop_state fuel st).
Proof.
  induction fuel as [|fuel IH]; intros st; cbn [loop loop_state];
    destruct (creditors st), (debtors st); try reflexivity.
  apply IH.
Qed.

End LoopFacts.

(** ** The lists at first *)

Module InitFacts.
Import Account FloatFacts FloatRound SettleFacts PassFacts LoopFacts.

Lemma insert_index_perm {V} (x : N * (jsstring * V)) l :
  Permutation (insert_index x l) (x :: l).
Proof.
  induction l as [|y l IH]; cbn [insert_index]; [reflexivity|].
  destruct (N.ltb (fst y) (fst x)); [|reflexivity].
  rewrite IH. apply perm_swap.
Qed.

Lemma sorted_index_perm {V} (l : list (N * (jsstring * V))) :
  Permutation (fold_right insert_index [] l) l.
Proof.
  induction l as [|x l IH]; cbn [fold_right]; [reflexivity|].
  rewrite insert_index_perm. constructor. exact IH.
Qed.

Lemma index_props_filter {V} (o : obj V) :
  map snd (index_props o) = filter (fun kv => is_index (fst kv)) o.
Proof.
  unfold index_props, is_index.
  induction o as [|kv o IH]; cbn [flat_map filter]; [reflexivity|].
  destruct (array_index (fst kv)); cbn [app map snd]; rewrite IH;
    reflexivity.
Qed.

Lemma filter_partition_perm {A} (f : A -> bool) (l : list A) :
  Permutation (filter f l ++ filter (fun x => negb (f x)) l) l.
Proof.
  induction l as [|x l IH]; cbn [filter]; [reflexivity|].
  destruct (f x); cbn [negb app].
  - constructor. exact IH.
  - rewrite <- Permutation_middle. constructor. exact IH.
Qed.

(** [Object.keys] and [Object.values] go through every own property
    once. *)
Lemma entries_perm {V} (o : obj V) : Permutation (entries o) o.
Proof.
  unfold entries.
  rewrite (Permutation_map snd (sorted_index_perm (index_props o))).
  rewrite index_props_filter.
  apply (filter_partition_perm (fun kv => is_index (fst kv))).
Qed.

(** Keeping some of the properties of an object keeps their keys
    distinct. *)
Lemma filter_keys_NoDup {V} (keep : jsstring * V -> bool) (o : obj V) :
  NoDup (map fst o) -> NoDup (map fst (filter keep o)).
Proof.
  induction o as [|kv o IH]; cbn [map filter]; intros Hnd; [constructor|].
  apply NoDup_cons_iff in Hnd. destruct Hnd as [Hni Hnd].
  destruct (keep kv); [|exact (IH Hnd)].
  cbn [map]. apply NoDup_cons; [|exact (IH Hnd)].
  intros Hin. apply Hni. apply in_map_iff in Hin.
  destruct Hin as (kv' & E & Hkv'). apply filter_In in Hkv'.
  rewrite <- E. apply in_map. tauto.
Qed.

(** Two entries of a list without a repeated name are the same entry when
    they have the same name. *)
Lemma same_name_same_entry (l : list entry) (a b : entry) :
  NoDup (map name l) -> In a l -> In b l -> name a = name b -> a = b.
Proof.
  induction l as [|x l IH]; cbn [map]; intros Hnd Ha Hb E; [contradiction|].
  apply NoDup_cons_iff in Hnd. destruct Hnd as [Hni Hnd].
  destruct Ha as [-> | Ha], Hb as [-> | Hb]; try reflexivity.
  - exfalso. apply Hni. rewrite E. apply in_map, Hb.
  - exfalso. apply Hni. rewrite <- E. apply in_map, Ha.
  - apply IH; assumption.
Qed.

Lemma map_name_mk_entry (l : list (jsstring * number)) :
  map name (map mk_entry l) = map fst l.
Proof. rewrite map_map. reflexivity. Qed.

Section Balances.

Variables (ts : obj number) (vm : list jsstring).
Let bal := balances_of ts vm.
Hypothesis Hmod : forallb moderate (Object_values bal) = true.

Lemma entries_names_NoDup : NoDup (map fst (entries bal)).
Proof.
  eapply Permutation_NoDup;
    [symmetry; apply Permutation_map, entries_perm|].
  apply balances_NoDup.
Qed.

Lemma creditors_names_NoDup : NoDup (map name (creditors_of bal)).
Proof.
  unfold creditors_of. rewrite map_name_mk_entry.
  apply filter_keys_NoDup, entries_names_NoDup.
Qed.

Lemma debtors_names_NoDup : NoDup (map name (debtors_of bal)).
Proof.
  unfold debtors_of. rewrite map_name_mk_entry.
  apply filter_keys_NoDup, entries_names_NoDup.
Qed.

Lemma moderate_value (kv : jsstring * number) :
  In kv (entries bal) -> moderate (snd kv) = true.
Proof.
  intros Hin. rewrite forallb_forall in Hmod. apply Hmod.
  unfold Object_values. apply in_map, Hin.
Qed.

Lemma moderate_bound (s : bool) (m : positive) (e : Z) :
  moderate (S754_finite s m e) = true ->
  valid (S754_finite s m e) = true /\
  (0 < IZR (Zpos m) * bpow e <= bpow 40)%R.
Proof.
  unfold moderate. rewrite andb_true_iff, Z.leb_le. intros [V Hd].
  split; [exact V|].
  pose proof (Zdigits2_bpow (Zpos m) ltac:(lia)) as [_ Hu].
  change (Zdigits2 (Zpos m)) with (Zpos (digits2_pos m)) in Hu.
  pose proof (bpow_pos e) as Hbe.
  assert (0 < IZR (Zpos m))%R by (apply IZR_lt; reflexivity).
  assert (Hle : (bpow (Zpos (digits2_pos m) + e) <= bpow 40)%R)
    by (apply bpow_le; exact Hd).
  rewrite bpow_add in Hle. split; nra.
Qed.

Lemma creditor_owed (c : entry) :
  In c (creditors_of bal) -> owed (balance c).
Proof.
  unfold creditors_of. intros Hin. apply in_map_iff in Hin.
  destruct Hin as ([k v] & <- & Hin). apply filter_In in Hin.
  destruct Hin as [Hin Hgt]. apply moderate_value in Hin.
  cbn [snd mk_entry balance] in *.
  destruct v as [s|s| |s m e]; try discriminate.
  destruct s; [discriminate|].
  destruct (moderate_bound _ _ _ Hin) as [V Hb].
  split; [exact V | exact Hb].
Qed.

Lemma debtor_owing (d : entry) :
  In d (debtors_of bal) -> owing (balance d).
Proof.
  unfold debtors_of. intros Hin. apply in_map_iff in Hin.
  destruct Hin as ([k v] & <- & Hin). apply filter_In in Hin.
  destruct Hin as [Hin Hlt]. apply moderate_value in Hin.
  cbn [snd mk_entry balance] in *.
  destruct v as [s|s| |s m e]; try discriminate.
  destruct s; [|discriminate].
  destruct (moderate_bound _ _ _ Hin) as [V Hb].
  split; [exact V|]. cbn [B2R cond_Zopp].
  change (- Zpos m) with (Z.neg m). change (Z.neg m) with (- Zpos m).
  rewrite opp_IZR. lra.
Qed.

(** The invariant holds before the first pass. *)
Lemma side_inv_initial (sgn : R) who (good : number -> Prop)
    (orig : list entry) (after : entry -> entry -> bool) :
  NoDup (map name orig) ->
  (forall x, In x orig -> good (balance x)) ->
  side_inv sgn who good orig (sort after orig) [].
Proof.
  intros Hnd Hgood. split; [|split].
  - eapply Permutation_NoDup; [|exact Hnd].
    symmetry. apply Permutation_map, sort_perm.
  - apply Forall_forall. intros x Hx.
    apply (proj1 (In_sort _ _ _)) in Hx.
    split; [apply Hgood, Hx|].
    intros o Ho Eo.
    rewrite (same_name_same_entry orig o x Hnd Ho Hx Eo).
    cbn. rewrite Rabs_right; lra.
  - intros o Ho Hno. exfalso. apply Hno. apply in_map.
    apply (proj2 (In_sort _ _ _)). exact Ho.
Qed.

Lemma invariant_initial :
  invariant (creditors_of bal) (debtors_of bal) (initial_state bal).
Proof.
  split; cbn [initial_state creditors debtors transactions].
  - apply side_inv_initial;
      [apply creditors_names_NoDup | apply creditor_owed].
  - apply side_inv_initial;
      [apply debtors_names_NoDup | apply debtor_owing].
Qed.

End Balances.

End InitFacts.

(** ** Degenerate inputs *)

(** C5: when [expenses] is null or empty, or [members] is null or empty, or
    no member name is left once the empty and white-space-only names are
    filtered out, the function returns the empty list of transactions: it
    returns (whatever the fuel) and the result is []. *)
Theorem degenerate_inputs_yield_empty
    (fuel : nat) (expenses : option (list expense))
    (members : option (list jsstring)) :
  expenses = None \/ expenses = Some [] \/
  members = None \/ members = Some [] \/
  (exists ms, members = Some ms /\
              filter (fun m => negb (whitespace_only m)) ms = []) ->
  calculateExpenseSplit fuel expenses members = Some [].
Proof.
  intros [-> | [-> | [-> | [-> | (ms & -> & H)]]]];
    unfold calculateExpenseSplit;
    try reflexivity.
  - destruct members; reflexivity.
  - destruct expenses; reflexivity.
  - destruct expenses as [es|]; [|reflexivity].
    rewrite orb_true_r. reflexivity.
  - destruct expenses as [es|]; [|reflexivity].
    destruct (_ || _); [reflexivity|].
    rewrite validMembers_of_spec, H. reflexivity.
Qed.

Lemma degenerate_inputs_yield_empty_witness :
  calculateExpenseSplit 0
    (Some [{| payer := String (lit "A"); amount := Number (of_Z 90) |}])
    (Some [lit ""; lit "  "]) = Some [].
Proof.
  apply degenerate_inputs_yield_empty.
  right; right; right; right.
  exists [lit ""; lit "  "]. split; reflexivity.
Defined.

(** ** Filtering of member names *)

(** C7: the output on a members list equals the output on that list with
    the empty and white-space-only names removed, for every list of
    expenses; so the members A, "", "  ", B give the output of A, B. *)
Theorem whitespace_names_transparent
    (fuel : nat) (expenses : option (list expense)) (members : list jsstring) :
  calculateExpenseSplit fuel expenses (Some members) =
  calculateExpenseSplit fuel expenses
    (Some (filter (fun m => negb (whitespace_only m)) members))
  /\
  calculateExpenseSplit fuel expenses
    (Some [lit "A"; lit ""; lit "  "; lit "B"]) =
  calculateExpenseSplit fuel expenses (Some [lit "A"; lit "B"]).
Proof.
  assert (G : forall ms,
    calculateExpenseSplit fuel expenses (Some ms) =
    calculateExpenseSplit fuel expenses
      (Some (filter (fun m => negb (whitespace_only m)) ms))).
  { intros ms. rewrite <- validMembers_of_spec.
    unfold calculateExpenseSplit.
    destruct expenses as [es|]; [|reflexivity].
    destruct (length es =? 0)%nat eqn:Ees; simpl; [reflexivity|].
    assert (I : validMembers_of (validMembers_of ms) = validMembers_of ms)
      by apply filter_idem.
    rewrite I.
    destruct (length ms =? 0)%nat eqn:Ems.
    - apply length_eqb_0 in Ems; subst. reflexivity.
    - destruct (length (validMembers_of ms) =? 0)%nat; reflexivity. }
  split; [apply G|]. apply (G [lit "A"; lit ""; lit "  "; lit "B"]).
Qed.

(** ** Invalid expenses *)

(** C6: an expense whose payer matches no valid member name, or whose amount
    is falsy, or whose amount is NaN, adds nothing to any total: the output
    is the output on the expenses without it. *)
Theorem invalid_expense_dropped
    (fuel : nat) (l1 l2 : list expense) (e : expense)
    (members : option (list jsstring)) :
  (forall ms m, members = Some ms -> In m (validMembers_of ms) ->
                payer e <> String m) \/
  JSVal.truthy (amount e) = false \/
  amount e = Number NaN ->
  calculateExpenseSplit fuel (Some (l1 ++ e :: l2)) members =
  calculateExpenseSplit fuel (Some (l1 ++ l2)) members.
Proof.
  intros H. destruct members as [ms|]; [|reflexivity].
  assert (Hs : skipped (validMembers_of ms) e = true).
  { unfold skipped. destruct (payer e) as [| |b|x|p] eqn:Ep; try reflexivity.
    destruct H as [H | [H | H]].
    - destruct (includes (validMembers_of ms) p) eqn:Ei.
      + apply includes_In in Ei. exfalso. exact (H ms p eq_refl Ei eq_refl).
      + rewrite orb_true_r. reflexivity.
    - rewrite H, orb_true_r. reflexivity.
    - rewrite H, orb_true_r. reflexivity. }
  unfold calculateExpenseSplit.
  replace (length (l1 ++ e :: l2) =? 0)%nat with false
    by (rewrite length_app; simpl; symmetry; apply Nat.eqb_neq; lia).
  cbn [orb].
  destruct (length ms =? 0)%nat eqn:Ems; [rewrite orb_true_r; reflexivity|].
  rewrite orb_false_r.
  destruct (length (validMembers_of ms) =? 0)%nat eqn:Evm.
  { destruct (length (l1 ++ l2) =? 0)%nat; reflexivity. }
  rewrite (totalSpent_of_skip _ _ _ _ Hs).
  destruct (length (l1 ++ l2) =? 0)%nat eqn:El; [|reflexivity].
  apply length_eqb_0 in El. rewrite El.
  apply no_expense_result. intros E. rewrite E in Evm. discriminate.
Qed.

Lemma invalid_expense_dropped_witness :
  calculateExpenseSplit 5
    (Some ([{| payer := String (lit "A"); amount := Number (of_Z 90) |}]
           ++ {| payer := String (lit "C"); amount := Number (of_Z 100) |}
           :: []))
    (Some [lit "A"; lit "B"]) =
  calculateExpenseSplit 5
    (Some ([{| payer := String (lit "A"); amount := Number (of_Z 90) |}] ++ []))
    (Some [lit "A"; lit "B"]).
Proof.
  apply invalid_expense_dropped.
  left. intros ms m E Hin. injection E as <-.
  simpl in Hin. destruct Hin as [<- | [<- | []]]; discriminate.
Defined.

(** ** Duplicate member names *)

(** C9, evaluated on the code: with the expense "A paid 90", the members
    A, B make B owe 45.00 to A, and the members A, B, B make B owe 30.00:
    the duplicate is merged in the totals but counted in the divisor. *)
Theorem duplicate_member_changes_output :
  calculateExpenseSplit 5
    (Some [{| payer := String (lit "A"); amount := Number (of_Z 90) |}])
    (Some [lit "A"; lit "B"]) =
  Some [{| from := lit "B"; to := lit "A"; tx_amount := lit "45.00" |}]
  /\
  calculateExpenseSplit 5
    (Some [{| payer := String (lit "A"); amount := Number (of_Z 90) |}])
    (Some [lit "A"; lit "B"; lit "B"]) =
  Some [{| from := lit "B"; to := lit "A"; tx_amount := lit "30.00" |}].
Proof. split; vm_compute; reflexivity. Qed.

(** ** Termination *)

Lemma loop_stuck_nan (fuel : nat) (c d : jsstring) (txs : list transaction) :
  loop fuel {| creditors := [{| name := c; balance := NaN |}];
               debtors := [{| name := d; balance := NaN |}];
               transactions := txs |} = None.
Proof.
  induction fuel as [|fuel IH]; [reflexivity|].
  cbn [loop creditors debtors transactions]. exact IH.
Qed.

(** C3, evaluated on the code: with the members A, B and the single
    expense "A paid 1e308" the loop never ends. The balances are
    +5e307 and -5e307, the product by 100 overflows, the settled amount is
    Infinity, both running balances become NaN after the second pass and
    no element is removed any more: no fuel reaches a result. *)
Theorem loop_diverges_on_overflow (fuel : nat) :
  calculateExpenseSplit fuel
    (Some [{| payer := String (lit "A");
              amount := Number (of_Z (10 ^ 308)) |}])
    (Some [lit "A"; lit "B"]) = None.
Proof.
  destruct fuel as [|[|fuel]]; [reflexivity | reflexivity |].
  unfold calculateExpenseSplit. cbn [length Nat.eqb orb].
  set (st := initial_state _).
  assert (E : st =
    {| creditors := [{| name := lit "A";
                        balance := S754_finite false 5010420900022432 970 |}];
       debtors := [{| name := lit "B";
                      balance := S754_finite true 5010420900022432 970 |}];
       transactions := [] |}) by (vm_compute; reflexivity).
  rewrite E. cbn [loop creditors debtors transactions].
  set (st1 := step _ _ _ _ _).
  assert (E1 : st1 =
    {| creditors := [{| name := lit "A"; balance := ninf |}];
       debtors := [{| name := lit "B"; balance := pinf |}];
       transactions := [{| from := lit "B"; to := lit "A";
                           tx_amount := lit "Infinity" |}] |})
    by (vm_compute; reflexivity).
  rewrite E1. cbn [loop creditors debtors transactions].
  set (st2 := step _ _ _ _ _).
  assert (E2 : st2 =
    {| creditors := [{| name := lit "A"; balance := NaN |}];
       debtors := [{| name := lit "B"; balance := NaN |}];
       transactions := [{| from := lit "B"; to := lit "A";
                           tx_amount := lit "Infinity" |}] |})
    by (vm_compute; reflexivity).
  rewrite E2. apply loop_stuck_nan.
Qed.

(** ** Amounts that convert to NaN *)

Lemma own_get_init_totals (vm : list jsstring) (p : jsstring) :
  In p vm -> p <> proto_key -> own_get p (init_totals vm) <> None.
Proof.
  unfold init_totals. intros Hin Hp. revert Hin.
  assert (G : forall o,
    In p vm \/ own_get p o <> None ->
    own_get p (fold_left (fun ts m => set m lit_0 ts) vm o) <> None).
  { induction vm as [|m vm IH]; intros o H; simpl in *.
    - destruct H as [H|H]; [destruct H | exact H].
    - apply IH. destruct H as [[->|H]|H].
      + right. rewrite own_get_set_same by assumption. discriminate.
      + left; exact H.
      + right. apply own_get_set_Some, H. }
  intros Hin. apply G. left; exact Hin.
Qed.

Lemma add_expense_defined vm ts e p :
  own_get p ts <> None -> own_get p (add_expense vm ts e) <> None.
Proof.
  intros H. unfold add_expense.
  destruct (payer e); try exact H.
  destruct (_ || _); [exact H|].
  destruct (own_get s ts); [|exact H].
  apply own_get_set_Some, H.
Qed.

Lemma fold_add_expense_defined vm es ts p :
  own_get p ts <> None ->
  own_get p (fold_left (add_expense vm) es ts) <> None.
Proof.
  revert ts; induction es as [|e es IH]; intros ts H; simpl; [exact H|].
  apply IH, add_expense_defined, H.
Qed.

Lemma add_expense_other vm ts e p :
  payer e <> String p ->
  own_get p (add_expense vm ts e) = own_get p ts.
Proof.
  intros H. unfold add_expense.
  destruct (payer e) as [| | | |q]; try reflexivity.
  destruct (_ || _); [reflexivity|].
  destruct (own_get q ts); [|reflexivity].
  apply own_get_set_other. congruence.
Qed.

Lemma valid_member_truthy (m : jsstring) :
  valid_member m = true -> JSStr.truthy m = true.
Proof. unfold valid_member. intros H. apply andb_true_iff in H. tauto. Qed.

(** The total of [p] after an accepted expense of [p] whose amount converts
    to NaN, when no later expense of [p] is accepted. *)
Lemma total_nan vm l1 e l2 p :
  payer e = String p -> In p vm -> p <> proto_key ->
  JSStr.truthy p = true ->
  JSVal.truthy (amount e) = true -> ToNumber (amount e) = NaN ->
  (forall e', In e' l2 -> payer e' = String p -> skipped vm e' = true) ->
  own_get p (totalSpent_of (l1 ++ e :: l2) vm) = Some NaN.
Proof.
  intros Hp Hin Hproto Htp Hta Hnan Hl2.
  unfold totalSpent_of. rewrite fold_left_app. simpl.
  set (ts1 := fold_left (add_expense vm) l1 (init_totals vm)).
  assert (H1 : own_get p ts1 <> None)
    by (apply fold_add_expense_defined, own_get_init_totals; assumption).
  assert (H2 : own_get p (add_expense vm ts1 e) = Some NaN).
  { unfold add_expense. rewrite Hp, Htp, Hta.
    rewrite (proj2 (includes_In vm p) Hin). simpl.
    destruct (own_get p ts1) as [x|]; [|congruence].
    rewrite Hnan, add_nan_r. apply own_get_set_same, Hproto. }
  clearbody ts1. generalize dependent (add_expense vm ts1 e).
  clear H1. induction l2 as [|e' l2 IH]; intros ts H2; simpl; [exact H2|].
  apply IH.
  - intros e'' Hin'. apply Hl2. right; exact Hin'.
  - destruct (payer e') as [| |b|x|q] eqn:Eq;
      try (rewrite add_expense_other by congruence; exact H2).
    destruct (list_eq_dec N.eq_dec q p) as [->|Hne].
    + rewrite add_expense_skipped; [exact H2|].
      apply Hl2; [left; reflexivity | exact Eq].
    + rewrite add_expense_other by congruence. exact H2.
Qed.

(** C10, as amended: when an expense passes the guard with a payer other
    than [__proto__] and an amount that converts to NaN, and no later
    expense of that payer passes the guard, the payer's total, the total
    of the expenses, the fair share and every balance are NaN, nobody is a
    creditor or a debtor, and the result is the empty list. *)
Theorem nan_amount_poisons_when_last
    (fuel : nat) (l1 l2 : list expense) (e : expense)
    (members : list jsstring) (p : jsstring) :
  payer e = String p -> In p (validMembers_of members) -> p <> proto_key ->
  JSVal.truthy (amount e) = true -> ToNumber (amount e) = NaN ->
  (forall e', In e' l2 -> payer e' = String p ->
              skipped (validMembers_of members) e' = true) ->
  let validMembers := validMembers_of members in
  let totalSpent := totalSpent_of (l1 ++ e :: l2) validMembers in
  let balances := balances_of totalSpent validMembers in
  own_get p totalSpent = Some NaN /\
  totalExpenses_of totalSpent = NaN /\
  fairShare_of totalSpent validMembers = NaN /\
  all_values (fun v => v = NaN) balances /\
  creditors_of balances = [] /\ debtors_of balances = [] /\
  calculateExpenseSplit fuel (Some (l1 ++ e :: l2)) (Some members) = Some [].
Proof.
  intros Hp Hin Hproto Hta Hnan Hl2 vm ts bal.
  assert (Hvp : JSStr.truthy p = true).
  { apply valid_member_truthy. unfold validMembers_of in Hin.
    apply filter_In in Hin. tauto. }
  assert (Hts : own_get p ts = Some NaN) by (apply total_nan; assumption).
  assert (Htot : totalExpenses_of ts = NaN).
  { unfold totalExpenses_of. apply fold_add_nan.
    eapply In_Object_values, Hts. }
  assert (Hfs : fairShare_of ts vm = NaN).
  { unfold fairShare_of. rewrite Htot. reflexivity. }
  assert (Hbal : all_values (fun v => v = NaN) bal).
  { unfold bal, balances_of. rewrite Hfs.
    eapply all_values_impl; [|apply balances_values].
    intros v [x ->]. apply sub_nan_r. }
  assert (Hc : creditors_of bal = []).
  { apply no_creditors. eapply all_values_impl; [|exact Hbal].
    intros v ->. reflexivity. }
  assert (Hd : debtors_of bal = []).
  { apply no_debtors. eapply all_values_impl; [|exact Hbal].
    intros v ->. reflexivity. }
  repeat split; try assumption.
  unfold calculateExpenseSplit.
  replace (length (l1 ++ e :: l2) =? 0)%nat with false
    by (rewrite length_app; simpl; symmetry; apply Nat.eqb_neq; lia).
  assert (Hms : (length members =? 0)%nat = false).
  { destruct members; [destruct Hin | reflexivity]. }
  assert (Hvm : (length (validMembers_of members) =? 0)%nat = false).
  { fold vm in Hin |- *. destruct vm; [destruct Hin | reflexivity]. }
  rewrite Hms, Hvm. cbn [orb].
  fold vm. fold ts. fold bal.
  unfold initial_state. rewrite Hc. apply loop_no_creditors.
Qed.

Lemma nan_amount_poisons_when_last_witness :
  let e := {| payer := String (lit "A"); amount := String (lit "abc") |} in
  let l2 := [{| payer := String (lit "B"); amount := Number (of_Z 10) |}] in
  calculateExpenseSplit 5 (Some ([] ++ e :: l2)) (Some [lit "A"; lit "B"])
  = Some [].
Proof.
  intros e l2.
  apply (nan_amount_poisons_when_last 5 [] l2 e [lit "A"; lit "B"] (lit "A")).
  - reflexivity.
  - simpl. left; reflexivity.
  - discriminate.
  - reflexivity.
  - reflexivity.
  - intros e' [<- | []]. discriminate.
Defined.

(** C10 as stated fails: an accepted amount that converts to NaN is wiped
    from the payer's total by [totalSpent[payer] || 0] when a later expense
    of the same payer is accepted, and the result is not empty. *)
Lemma nan_amount_wiped_by_later_expense :
  let members := [lit "A"; lit "B"] in
  let e := {| payer := String (lit "A"); amount := String (lit "abc") |} in
  let expenses :=
    [e; {| payer := String (lit "A"); amount := Number (of_Z 10) |}] in
  In e expenses /\
  payer e = String (lit "A") /\ In (lit "A") (validMembers_of members) /\
  JSVal.truthy (amount e) = true /\ ToNumber (amount e) = NaN /\
  calculateExpenseSplit 5 (Some expenses) (Some members) =
  Some [{| from := lit "B"; to := lit "A"; tx_amount := lit "5.00" |}].
Proof.
  repeat split; try reflexivity; try (left; reflexivity).
Qed.

(** ** The transactions pushed by the loop *)

Lemma loop_transactions (P : transaction -> Prop) :
  (forall c d, gt (settle_amount c d) lit_0 = true ->
     P {| from := name d; to := name c;
          tx_amount := toFixed2 (settle_amount c d) |}) ->
  forall fuel st txs,
    loop fuel st = Some txs ->
    Forall P (transactions st) -> Forall P txs.
Proof.
  intros HP. induction fuel as [|fuel IH]; intros st txs; simpl.
  - destruct (creditors st), (debtors st); try discriminate;
      intros H; injection H as <-; tauto.
  - destruct (creditors st) as [|c cs], (debtors st) as [|d ds];
      try (intros H; injection H as <-; tauto).
    intros H Hst. apply (IH _ _ H). unfold step. cbn [transactions].
    destruct (gt (settle_amount c d) lit_0) eqn:E; [|exact Hst].
    apply Forall_app. split; [exact Hst|].
    constructor; [|constructor]. apply HP, E.
Qed.

Lemma output_transactions (P : transaction -> Prop) :
  (forall c d, gt (settle_amount c d) lit_0 = true ->
     P {| from := name d; to := name c;
          tx_amount := toFixed2 (settle_amount c d) |}) ->
  forall fuel expenses members txs,
    calculateExpenseSplit fuel expenses members = Some txs ->
    Forall P txs.
Proof.
  intros HP fuel expenses members txs.
  unfold calculateExpenseSplit.
  destruct expenses as [es|], members as [ms|];
    try (intros H; injection H as <-; constructor).
  destruct (_ || _); [intros H; injection H as <-; constructor|].
  destruct (_ =? _)%nat; [intros H; injection H as <-; constructor|].
  intros H. eapply loop_transactions; [exact HP | exact H | constructor].
Qed.

(** ** The form of the emitted amounts *)





(** ** The call and the store of the caller *)

Lemma loop_fuel_agree (fuel : nat) :
  forall fuel' st txs txs',
    loop fuel st = Some txs -> loop fuel' st = Some txs' -> txs = txs'.
Proof.
  induction fuel as [|fuel IH]; intros fuel' st txs txs' H H';
    destruct fuel'; cbn [loop] in H, H';
    destruct (creditors st) as [|c cs]; try congruence;
    destruct (debtors st) as [|d ds]; try congruence.
  eapply IH; eassumption.
Qed.

Lemma calculateExpenseSplit_fuel_agree fuel fuel' es ms txs txs' :
  Split.calculateExpenseSplit fuel es ms = Some txs ->
  Split.calculateExpenseSplit fuel' es ms = Some txs' -> txs = txs'.
Proof.
  unfold Split.calculateExpenseSplit.
  destruct es as [es|], ms as [ms|]; try congruence.
  destruct (_ || _); [congruence|].
  destruct (_ =? _)%nat; [congruence|].
  apply loop_fuel_agree.
Qed.

Lemma returns_inv h0 m res r h' :
  Imp.returns h0 m res -> m h0 = Some (r, h') ->
  exists txs,
    res = Some txs /\ nth_error h' r = Some (Imp.ArrTx txs) /\
    Imp.extends h0 h' /\ (length h0 <= r)%nat.
Proof.
  unfold Imp.returns. intros H E. destruct res as [txs|].
  - destruct H as (r0 & h0' & E0 & Hr & He & Hl).
    rewrite E in E0. injection E0 as <- <-. eauto.
  - congruence.
Qed.

(** C8. After a call the two argument arrays hold what they held before
    it, as does every other object of the caller's store; the result is a
    new array; and a second call on the same arguments returns, in a new
    array again, a list of transactions identical to that of the first. *)
Theorem call_leaves_inputs_and_repeats
    (fuel : nat) (h0 : Imp.heap) (expenses members : option Imp.loc)
    (es : option (list expense)) (ms : option (list jsstring))
    (r1 : Imp.loc) (h1 : Imp.heap) :
  Imp.holds_exps h0 expenses es -> Imp.holds_strs h0 members ms ->
  Imp.calculateExpenseSplit fuel expenses members h0 = Some (r1, h1) ->
  (Imp.holds_exps h1 expenses es /\ Imp.holds_strs h1 members ms /\
   Imp.extends h0 h1 /\ (length h0 <= r1)%nat) /\
  exists txs,
    nth_error h1 r1 = Some (Imp.ArrTx txs) /\
    (exists r2 h2,
       Imp.calculateExpenseSplit fuel expenses members h1 = Some (r2, h2) /\
       nth_error h2 r2 = Some (Imp.ArrTx txs) /\
       nth_error h2 r1 = Some (Imp.ArrTx txs) /\ r2 <> r1) /\
    (forall fuel' r2 h2,
       Imp.calculateExpenseSplit fuel' expenses members h1 = Some (r2, h2) ->
       nth_error h2 r2 = Some (Imp.ArrTx txs)).
Proof.
  intros Hes Hms E.
  destruct (returns_inv _ _ _ _ _
              (ImpRun.calculateExpenseSplit_returns fuel _ _ _ _ _ Hes Hms) E)
    as (txs & Hres & Hr1 & He & Hl).
  pose proof (ImpRun.holds_exps_extends _ _ _ _ He Hes) as Hes1.
  pose proof (ImpRun.holds_strs_extends _ _ _ _ He Hms) as Hms1.
  split; [auto|].
  exists txs. split; [exact Hr1|]. split.
  - pose proof (ImpRun.calculateExpenseSplit_returns fuel _ _ _ _ _ Hes1 Hms1)
      as H2.
    rewrite Hres in H2. destruct H2 as (r2 & h2 & E2 & Hr2 & He2 & Hl2).
    exists r2, h2. repeat split; auto.
    assert (r1 < length h1)%nat by (apply nth_error_Some; congruence).
    lia.
  - intros fuel' r2 h2 E2.
    destruct (returns_inv _ _ _ _ _
                (ImpRun.calculateExpenseSplit_returns fuel' _ _ _ _ _
                   Hes1 Hms1) E2)
      as (txs' & Hres' & Hr2 & _).
    rewrite (calculateExpenseSplit_fuel_agree _ _ _ _ _ _ Hres Hres').
    exact Hr2.
Qed.

Lemma call_leaves_inputs_and_repeats_witness :
  (Imp.holds_exps Imp.example_store_after (Some 0%nat)
     (Some [{| payer := String (lit "A"); amount := Number (of_Z 90) |}]) /\
   Imp.holds_strs Imp.example_store_after (Some 1%nat)
     (Some [lit "A"; lit "B"]) /\
   Imp.extends Imp.example_store Imp.example_store_after /\
   (length Imp.example_store <= 5)%nat) /\
  exists txs,
    nth_error Imp.example_store_after 5 = Some (Imp.ArrTx txs) /\
    (exists r2 h2,
       Imp.calculateExpenseSplit 5 (Some 0%nat) (Some 1%nat)
         Imp.example_store_after = Some (r2, h2) /\
       nth_error h2 r2 = Some (Imp.ArrTx txs) /\
       nth_error h2 5 = Some (Imp.ArrTx txs) /\ r2 <> 5%nat) /\
    (forall fuel' r2 h2,
       Imp.calculateExpenseSplit fuel' (Some 0%nat) (Some 1%nat)
         Imp.example_store_after = Some (r2, h2) ->
       nth_error h2 r2 = Some (Imp.ArrTx txs)).
Proof.
  apply (call_leaves_inputs_and_repeats 5 Imp.example_store
           (Some 0%nat) (Some 1%nat)
           (Some [{| payer := String (lit "A");
                     amount := Number (of_Z 90) |}])
           (Some [lit "A"; lit "B"]) 5%nat Imp.example_store_after).
  - reflexivity.
  - reflexivity.
  - vm_compute. reflexivity.
Defined.

(** ** The number of transactions, and what they add up to *)

Import Account.


(** The run of the loop on balances of moderate size. *)
Lemma run_moderate (ts : obj number) (vm : list jsstring) (fuel : nat) :
  let bal := balances_of ts vm in
  forallb moderate (Object_values bal) = true ->
  (length (creditors_of bal) + length (debtors_of bal) <= fuel)%nat ->
  exists st,
    loop_state fuel (initial_state bal) = Some st /\
    invariant (creditors_of bal) (debtors_of bal) st /\
    (creditors st = [] \/ debtors st = []) /\
    (length (transactions st) <=
     Nat.min (length (creditors_of bal)) (length (debtors_of bal))
     + Nat.max (length (creditors_of bal)) (length (debtors_of bal)) - 1)%nat.
Proof.
  intros bal Hmod Hfuel.
  pose proof (InitFacts.invariant_initial ts vm Hmod) as Hinit.
  fold bal in Hinit.
  destruct (LoopFacts.loop_state_moderate _ _ fuel _ Hinit)
    as (st & Eloop & Hinv & Hend & Hn).
  { cbn [initial_state creditors debtors]. rewrite !length_sort. exact Hfuel. }
  exists st. split; [exact Eloop|]. split; [exact Hinv|].
  split; [exact Hend|].
  cbn [initial_state creditors debtors transactions length] in Hn.
  pose proof (length_sort creditor_after (creditors_of bal)) as Lc.
  pose proof (length_sort debtor_after (debtors_of bal)) as Ld.
  destruct (sort creditor_after (creditors_of bal)) as [|c cs],
           (sort debtor_after (debtors_of bal)) as [|d ds];
    cbn [length] in *; lia.
Qed.


(** C2, as amended: when every balance is zero or a finite number below
    2^40 in absolute value, the loop ends within as many passes as there
    are creditors and debtors, and the function returns at most
    min(|creditors|, |debtors|) + max(|creditors|, |debtors|) - 1
    transactions, where creditors and debtors are the members with a
    balance above and below zero. *)
Theorem transaction_count_bound
    (fuel : nat) (expenses : list expense) (members : list jsstring) :
  let validMembers := validMembers_of members in
  let balances :=
    balances_of (totalSpent_of expenses validMembers) validMembers in
  forallb moderate (Object_values balances) = true ->
  (length (creditors_of balances) + length (debtors_of balances)
   <= fuel)%nat ->
  exists txs,
    calculateExpenseSplit fuel (Some expenses) (Some members) = Some txs /\
    (length txs <=
     Nat.min (length (creditors_of balances)) (length (debtors_of balances))
     + Nat.max (length (creditors_of balances)) (length (debtors_of balances))
     - 1)%nat.
Proof.
  intros vm bal Hmod Hfuel.
  destruct (run_moderate _ vm fuel Hmod Hfuel)
    as (st & Eloop & _ & _ & Hn).
  fold bal in Eloop, Hn.
  unfold calculateExpenseSplit.
  destruct (_ || _); [exists []; split; [reflexivity | cbn; lia]|].
  fold vm. destruct (length vm =? 0)%nat;
    [exists []; split; [reflexivity | cbn; lia]|].
  fold bal. exists (transactions st). split; [|exact Hn].
  rewrite LoopFacts.loop_of_state, Eloop. reflexivity.
Qed.

Lemma transaction_count_bound_witness :
  exists txs,
    calculateExpenseSplit 5
      (Some [{| payer := String (lit "A"); amount := Number (of_Z 90) |}])
      (Some [lit "A"; lit "B"; lit "C"]) = Some txs /\
    (length txs <= 2)%nat.
Proof.
  apply (transaction_count_bound 5
    [{| payer := String (lit "A"); amount := Number (of_Z 90) |}]
    [lit "A"; lit "B"; lit "C"]).
  - vm_compute. reflexivity.
  - vm_compute. lia.
Defined.

(** C2 as stated fails: with the members A, B and the single expense
    "A paid 180143985094820.22" there is one creditor and one debtor, so
    that the bound is 1, and two transactions: the settled amount falls
    short of the balance by 2^-6, which is not below the tolerance, and a
    second pass settles the rest. *)
Lemma two_transactions_for_one_pair :
  let expenses :=
    [{| payer := String (lit "A");
        amount := Number (S754_finite false 5764607523034247 (-5)) |}] in
  let members := [lit "A"; lit "B"] in
  let validMembers := validMembers_of members in
  let balances :=
    balances_of (totalSpent_of expenses validMembers) validMembers in
  length (creditors_of balances) = 1%nat /\
  length (debtors_of balances) = 1%nat /\
  calculateExpenseSplit 5 (Some expenses) (Some members) =
  Some [{| from := lit "B"; to := lit "A";
           tx_amount := lit "90071992547410.09" |};
        {| from := lit "B"; to := lit "A"; tx_amount := lit "0.02" |}].
Proof. repeat split; vm_compute; reflexivity. Qed.




(** A creditor that is still in its list when the debtors run out may have
    been paid nothing: with five members and "A paid 0.02", A is owed
    0.016, each of the four debtors owes 0.004, which rounds to zero, and
    the loop ends with A in the list and no transaction. *)
Lemma creditor_left_in_list :
  let expenses :=
    [{| payer := String (lit "A");
        amount := Number (S754_finite false 5764607523034235 (-58)) |}] in
  let members := [lit "A"; lit "B"; lit "C"; lit "D"; lit "E"] in
  let validMembers := validMembers_of members in
  let balances :=
    balances_of (totalSpent_of expenses validMembers) validMembers in
  calculateExpenseSplit 5 (Some expenses) (Some members) = Some [] /\
  exists b,
    loop_state 5 (initial_state balances) =
    Some {| creditors := [{| name := lit "A"; balance := b |}];
            debtors := []; transactions := [] |} /\
    lt lit_0_01 b = true.
Proof.
  split; [vm_compute; reflexivity|].
  eexists. split; vm_compute; reflexivity.
Qed.

(** On larger balances a creditor that the loop takes off its list may
    have been paid too much: with the members A, B and the single expense
    "A paid 485027825598019" the creditor A is owed 242513912799009.5, the
    amount settled is one unit in the last place above it, and the one
    transaction carries "242513912799009.53", which is 0.03 too much; the
    second pass settles a negative amount, pushes nothing, and takes both
    members off the lists. *)
Lemma creditor_overpaid_on_large_balance :
  let expenses :=
    [{| payer := String (lit "A");
        amount := Number (S754_finite false 7760445209568304 (-4)) |}] in
  let members := [lit "A"; lit "B"] in
  let validMembers := validMembers_of members in
  let balances :=
    balances_of (totalSpent_of expenses validMembers) validMembers in
  let txs := [{| from := lit "B"; to := lit "A";
                 tx_amount := lit "242513912799009.53" |}] in
  let c := {| name := lit "A";
              balance := S754_finite false 7760445209568304 (-5) |} in
  calculateExpenseSplit 5 (Some expenses) (Some members) = Some txs /\
  loop_state 5 (initial_state balances) =
  Some {| creditors := []; debtors := []; transactions := txs |} /\
  In c (creditors_of balances) /\
  ~ settled (B2R (balance c)) (to_member (name c) txs).
Proof.
  intros expenses members vm bal txs c.
  split; [vm_compute; reflexivity|].
  split; [vm_compute; reflexivity|].
  split; [left; vm_compute; reflexivity|].
  unfold settled.
  assert (E : total_cents (to_member (name c) txs) = 24251391279900953)
    by (vm_compute; reflexivity).
  assert (L : Z.of_nat (length (to_member (name c) txs)) + 1 = 2)
    by (vm_compute; reflexivity).
  rewrite E, L. unfold c. cbn [balance B2R cond_Zopp].
  assert (Eb : bpow (-5) = (/ 32)%R)
    by (apply (SettleFacts.bpow_neg_IZR 5); lia).
  rewrite Eb. intros H. apply FloatRound.Rabs_lt_inv in H. lra.
Qed.

(** ** Who pays whom *)

Module NameFacts.

Lemma set_key_cases {V} (k : jsstring) (v : V) (o : obj V) kv :
  In kv (set k v o) -> (kv = (k, v) /\ k <> proto_key) \/ In kv o.
Proof.
  unfold set. destruct (JSStr.eqb k proto_key) eqn:E; [right; assumption|].
  intros H. apply In_put in H. apply eqb_neq in E. tauto.
Qed.

(** The keys of [balances] are valid members, and [__proto__] is none of
    them. *)
Lemma balances_keys (ts : obj number) (vm : list jsstring) kv :
  In kv (balances_of ts vm) -> In (fst kv) vm /\ fst kv <> proto_key.
Proof.
  unfold balances_of. set (fs := fairShare_of ts vm). clearbody fs.
  assert (G : forall l o,
    (forall x, In x l -> In x vm) ->
    (forall kv', In kv' o -> In (fst kv') vm /\ fst kv' <> proto_key) ->
    In kv (fold_left (set_balance ts fs) l o) ->
    In (fst kv) vm /\ fst kv <> proto_key).
  { induction l as [|m l IH]; intros o Hl Ho; cbn [fold_left]; [apply Ho|].
    apply IH; [intros x Hx; apply Hl; right; exact Hx|].
    intros kv' Hin. unfold set_balance in Hin.
    apply set_key_cases in Hin. destruct Hin as [[-> Hp] | Hin].
    - cbn [fst]. split; [apply Hl; left; reflexivity | exact Hp].
    - apply Ho, Hin. }
  apply G; [tauto | intros kv' []].
Qed.

Lemma creditor_entry (bal : obj number) (c : entry) :
  In c (creditors_of bal) <->
  In (name c, balance c) bal /\ gt (balance c) lit_0 = true.
Proof.
  unfold creditors_of. rewrite in_map_iff. split.
  - intros ([k v] & <- & H). apply filter_In in H. cbn in *.
    rewrite In_entries in H. exact H.
  - intros [H Hgt]. exists (name c, balance c).
    split; [destruct c; reflexivity|].
    apply filter_In. rewrite In_entries. tauto.
Qed.

Lemma debtor_entry (bal : obj number) (d : entry) :
  In d (debtors_of bal) <->
  In (name d, balance d) bal /\ lt (balance d) lit_0 = true.
Proof.
  unfold debtors_of. rewrite in_map_iff. split.
  - intros ([k v] & <- & H). apply filter_In in H. cbn in *.
    rewrite In_entries in H. exact H.
  - intros [H Hlt]. exists (name d, balance d).
    split; [destruct d; reflexivity|].
    apply filter_In. rewrite In_entries. tauto.
Qed.

Lemma not_both_signs (v : number) :
  gt v lit_0 = true -> lt v lit_0 = true -> False.
Proof. destruct v as [s|s| |s m e]; try destruct s; discriminate. Qed.

(** The loop pushes transactions from names of [debtors] to names of
    [creditors] only, and the names in the two arrays are names that were
    there at first. *)
Lemma loop_names (C D : list jsstring) (fuel : nat) :
  forall st txs,
    loop fuel st = Some txs ->
    incl (map name (creditors st)) C -> incl (map name (debtors st)) D ->
    Forall (fun t => In (to t) C /\ In (from t) D) (transactions st) ->
    Forall (fun t => In (to t) C /\ In (from t) D) txs.
Proof.
  induction fuel as [|fuel IH]; intros [cs0 ds0 txs0] txs;
    cbn [loop creditors debtors transactions].
  - destruct cs0, ds0; try discriminate; intros H; injection H as <-; auto.
  - destruct cs0 as [|c cs]; [intros H; injection H as <-; auto|].
    destruct ds0 as [|d ds]; [intros H; injection H as <-; auto|].
    intros H HC HD Htx. apply (IH _ _ H).
    + unfold step. cbn [creditors].
      destruct (lt _ _);
        [|cbn [map name]]; intros x Hx; apply HC; cbn [map];
        [right; exact Hx | exact Hx].
    + unfold step. cbn [debtors].
      destruct (lt _ _);
        [|cbn [map name]]; intros x Hx; apply HD; cbn [map];
        [right; exact Hx | exact Hx].
    + unfold step. cbn [transactions].
      destruct (gt _ _); [|exact Htx].
      apply Forall_app. split; [exact Htx|].
      constructor; [|constructor]. cbn [to from].
      split; [apply HC | apply HD]; left; reflexivity.
Qed.

Lemma output_names (fuel : nat) (es : list expense) (ms : list jsstring)
    (txs : list transaction) :
  let vm := validMembers_of ms in
  let bal := balances_of (totalSpent_of es vm) vm in
  calculateExpenseSplit fuel (Some es) (Some ms) = Some txs ->
  Forall (fun t => In (to t) (map name (creditors_of bal)) /\
                   In (from t) (map name (debtors_of bal))) txs.
Proof.
  intros vm bal. unfold calculateExpenseSplit.
  destruct (_ || _); [intros H; injection H as <-; constructor|].
  fold vm. destruct (length vm =? 0)%nat;
    [intros H; injection H as <-; constructor|].
  fold bal. intros H.
  apply (loop_names _ _ fuel _ _ H); cbn [initial_state creditors debtors
                                          transactions].
  - intros x Hx. apply in_map_iff in Hx. destruct Hx as (c & <- & Hc).
    apply (proj1 (In_sort _ _ _)) in Hc. apply in_map, Hc.
  - intros x Hx. apply in_map_iff in Hx. destruct Hx as (c & <- & Hc).
    apply (proj1 (In_sort _ _ _)) in Hc. apply in_map, Hc.
  - constructor.
Qed.

End NameFacts.

(** X1: every transaction goes from a member whose balance is below zero
    to a member whose balance is above zero, and so never from a member to
    the same member. *)
Theorem transactions_from_debtor_to_creditor
    (fuel : nat) (expenses : list expense) (members : list jsstring)
    (txs : list transaction) :
  let validMembers := validMembers_of members in
  let balances :=
    balances_of (totalSpent_of expenses validMembers) validMembers in
  calculateExpenseSplit fuel (Some expenses) (Some members) = Some txs ->
  Forall (fun t =>
    (exists b, own_get (to t) balances = Some b /\ gt b lit_0 = true) /\
    (exists b, own_get (from t) balances = Some b /\ lt b lit_0 = true) /\
    from t <> to t) txs.
Proof.
  intros vm bal H.
  pose proof (NameFacts.output_names fuel expenses members txs H) as Hn.
  fold vm in Hn. fold bal in Hn.
  assert (Hnd : NoDup (map fst bal)) by apply balances_NoDup.
  eapply Forall_impl; [|exact Hn]. cbv beta.
  intros t [Hto Hfrom].
  apply in_map_iff in Hto. destruct Hto as (c & Ec & Hc).
  apply in_map_iff in Hfrom. destruct Hfrom as (d & Ed & Hd).
  apply NameFacts.creditor_entry in Hc. destruct Hc as [Hc Hgt].
  apply NameFacts.debtor_entry in Hd. destruct Hd as [Hd Hlt].
  pose proof (own_get_NoDup _ _ _ Hnd Hc) as Gc.
  pose proof (own_get_NoDup _ _ _ Hnd Hd) as Gd.
  rewrite Ec in Gc. rewrite Ed in Gd.
  split; [eauto|]. split; [eauto|].
  intros E. rewrite E, Gc in Gd. injection Gd as Eb.
  rewrite Eb in Hgt. exact (NameFacts.not_both_signs _ Hgt Hlt).
Qed.

Lemma transactions_from_debtor_to_creditor_witness :
  let expenses :=
    [{| payer := String (lit "A"); amount := Number (of_Z 90) |}] in
  let members := [lit "A"; lit "B"; lit "C"] in
  let txs :=
    [{| from := lit "B"; to := lit "A"; tx_amount := lit "30.00" |};
     {| from := lit "C"; to := lit "A"; tx_amount := lit "30.00" |}] in
  let validMembers := validMembers_of members in
  let balances :=
    balances_of (totalSpent_of expenses validMembers) validMembers in
  Forall (fun t =>
    (exists b, own_get (to t) balances = Some b /\ gt b lit_0 = true) /\
    (exists b, own_get (from t) balances = Some b /\ lt b lit_0 = true) /\
    from t <> to t) txs.
Proof.
  intros expenses members txs.
  apply (transactions_from_debtor_to_creditor 5 expenses members txs).
  vm_compute. reflexivity.
Defined.

(** X2: the two names of every transaction are valid members of the list
    passed in, and neither is [__proto__]: a member of that name is counted
    in the divisor of the fair share, but gets no balance and so neither
    pays nor is paid. *)
Theorem participants_are_valid_members
    (fuel : nat) (expenses : list expense) (members : list jsstring)
    (txs : list transaction) :
  calculateExpenseSplit fuel (Some expenses) (Some members) = Some txs ->
  Forall (fun t =>
    (In (from t) members /\ valid_member (from t) = true /\
     from t <> proto_key) /\
    (In (to t) members /\ valid_member (to t) = true /\
     to t <> proto_key)) txs.
Proof.
  intros H.
  pose proof (NameFacts.output_names fuel expenses members txs H) as Hn.
  cbv zeta in Hn.
  eapply Forall_impl; [|exact Hn]. cbv beta.
  intros t [Hto Hfrom].
  apply in_map_iff in Hto. destruct Hto as (c & Ec & Hc).
  apply in_map_iff in Hfrom. destruct Hfrom as (d & Ed & Hd).
  apply NameFacts.creditor_entry in Hc. destruct Hc as [Hc _].
  apply NameFacts.debtor_entry in Hd. destruct Hd as [Hd _].
  apply NameFacts.balances_keys in Hc, Hd. cbn [fst] in Hc, Hd.
  rewrite Ec in Hc. rewrite Ed in Hd.
  destruct Hc as [Hc Hcp], Hd as [Hd Hdp].
  unfold validMembers_of in Hc, Hd. apply filter_In in Hc, Hd.
  tauto.
Qed.

Lemma participants_are_valid_members_witness :
  Forall (fun t =>
    (In (from t) [lit "A"; lit "__proto__"; lit "B"] /\
     valid_member (from t) = true /\ from t <> proto_key) /\
    (In (to t) [lit "A"; lit "__proto__"; lit "B"] /\
     valid_member (to t) = true /\ to t <> proto_key))
    [{| from := lit "B"; to := lit "A"; tx_amount := lit "30.00" |}].
Proof.
  apply (participants_are_valid_members 5
    [{| payer := String (lit "A"); amount := Number (of_Z 90) |}]
    [lit "A"; lit "__proto__"; lit "B"]).
  vm_compute. reflexivity.
Defined.

(** ** The sign of a difference, and the order of the two lists *)

Module OrderFacts.
Import Account FloatFacts FloatRound SettleFacts.

(** Rounding a mantissa at an exponent that valid numbers have never gives
    zero. *)
Lemma binary_round_nonzero (s : bool) (mx : positive) (ex : Z) :
  -1074 <= ex ->
  (exists m e, binary_round prec emax s mx ex = S754_finite s m e) \/
  binary_round prec emax s mx ex = S754_infinity s.
Proof.
  intros Hex.
  destruct (binary_round_spec s mx ex)
    as (Hmz & He1 & m2 & Hm2 & _ & Hres).
  set (D := Zpos (digits2_pos mx) + ex) in *.
  set (ez := Z.min ex (fexp prec emax D)) in *.
  set (mz := Zpos mx * 2 ^ (ex - ez)) in *.
  set (p := shift_of mz ez) in *.
  assert (Hp : 0 <= p) by apply Z.le_max_l.
  assert (Hez : ez <= ex) by apply Z.le_min_l.
  assert (Hd : Zdigits2 mz = Zpos (digits2_pos mx) + (ex - ez)).
  { unfold mz. rewrite Zdigits2_mul_pow2 by lia. reflexivity. }
  assert (HD : 1 <= Zpos (digits2_pos mx)) by lia.
  assert (Hple : p <= Zdigits2 mz - 1).
  { rewrite Hd. rewrite fexp_eq in He1. unfold D in He1. lia. }
  pose proof (Zdigits2_bounds mz Hmz) as [Hlow _].
  assert (Hq : 1 <= mz / 2 ^ p).
  { apply Z.div_le_lower_bound; [apply Z.pow_pos_nonneg; lia|].
    rewrite Z.mul_1_r.
    apply Z.le_trans with (2 ^ (Zdigits2 mz - 1)); [|exact Hlow].
    apply Z.pow_le_mono_r; lia. }
  destruct Hres as [[Hz _] | (m3 & e3 & _ & _ & _ & Hx)]; [lia|].
  rewrite Hx. destruct (e3 <=? emax - prec); [left; eauto | right; auto].
Qed.

Lemma valid_exponent (s : bool) (m : positive) (e : Z) :
  valid (S754_finite s m e) = true -> -1074 <= e.
Proof.
  intros V. apply valid_finite in V. destruct V as [Hc _].
  apply canonical_digits in Hc. tauto.
Qed.

(** [y - x > 0] exactly when [y] is the larger, for valid numbers that are
    zero or finite: a difference of two such numbers that do not have the
    same value does not round to zero. *)
Lemma gt_sub_R (x y : number) :
  valid x = true -> valid y = true ->
  is_finite x = true -> is_finite y = true ->
  (gt (sub y x) lit_0 = true <-> (B2R x < B2R y)%R).
Proof.
  intros Vx Vy Fx Fy.
  destruct y as [sy|sy| |sy my ey]; try discriminate;
    destruct x as [sx|sx| |sx mx ex]; try discriminate.
  - cbn [B2R]. destruct sy, sx; cbn; split; intros H;
      try discriminate; lra.
  - cbn [sub SFsub B2R].
    pose proof (bpow_pos ex) as Hb.
    assert (Hm : (0 < IZR (Zpos mx))%R) by (apply IZR_lt; reflexivity).
    destruct sx; cbn [negb cond_Zopp]; rewrite ?opp_IZR;
      (split; intros H; [|try reflexivity]);
      try discriminate; nra.
  - cbn [sub SFsub B2R].
    pose proof (bpow_pos ey) as Hb.
    assert (Hm : (0 < IZR (Zpos my))%R) by (apply IZR_lt; reflexivity).
    destruct sy; cbn [cond_Zopp]; rewrite ?opp_IZR;
      (split; intros H; [|try reflexivity]);
      try discriminate; nra.
  - pose proof (valid_exponent _ _ _ Vx) as Hex.
    pose proof (valid_exponent _ _ _ Vy) as Hey.
    unfold sub, SFsub. set (ez := Z.min ey ex).
    rewrite <- (aligned_R sy my ey ez), <- (aligned_R sx mx ex ez)
      by (unfold ez; lia).
    set (My := cond_Zopp sy (Zpos (fst (shl_align my ey ez)))).
    set (Mx := cond_Zopp sx (Zpos (fst (shl_align mx ex ez)))).
    pose proof (bpow_pos ez) as Hb.
    assert (Hez : -1074 <= ez) by (unfold ez; lia).
    assert (Hiff : (IZR Mx * bpow ez < IZR My * bpow ez)%R <-> 0 < My - Mx).
    { split; intros H.
      - assert (IZR Mx < IZR My)%R by nra. apply lt_IZR in H0. lia.
      - assert (IZR Mx < IZR My)%R by (apply IZR_lt; lia). nra. }
    rewrite Hiff. unfold binary_normalize.
    destruct (My - Mx) as [|p|p] eqn:E.
    + split; [discriminate | lia].
    + split; [lia | intros _].
      destruct (binary_round_nonzero false p ez Hez) as [(m & e & ->) | ->];
        reflexivity.
    + split; [|lia].
      destruct (binary_round_nonzero true p ez Hez) as [(m & e & ->) | ->];
        discriminate.
Qed.

(** The insertion sort puts a list in order, for a comparator that agrees
    with a transitive relation on the elements of the list. *)
Lemma insert_sorted_in_order {A} (after : A -> A -> bool)
    (R : A -> A -> Prop) (x : A) (l : list A) :
  (forall a b c, R a b -> R b c -> R a c) ->
  (forall y, In y l -> after x y = true -> R y x) ->
  (forall y, In y l -> after x y = false -> R x y) ->
  StronglySorted R l -> StronglySorted R (insert_sorted after x l).
Proof.
  intros Htr. induction l as [|y l IH]; intros Ht Hf Hs;
    cbn [insert_sorted]; [repeat constructor|].
  apply StronglySorted_inv in Hs. destruct Hs as [Hs Hy].
  destruct (after x y) eqn:E.
  - constructor.
    + apply IH; [| |exact Hs]; intros z Hz; [apply Ht | apply Hf];
        right; exact Hz.
    + apply Forall_forall. intros z Hz.
      apply (proj1 (In_insert_sorted _ _ _ _)) in Hz.
      destruct Hz as [-> | Hz].
      * apply Ht; [left; reflexivity | exact E].
      * rewrite Forall_forall in Hy. apply Hy, Hz.
  - assert (Rxy : R x y) by (apply Hf; [left; reflexivity | exact E]).
    constructor; [constructor; assumption|].
    constructor; [exact Rxy|].
    rewrite Forall_forall in Hy |- *. intros z Hz.
    apply (Htr _ _ _ Rxy), Hy, Hz.
Qed.

Lemma sort_in_order {A} (after : A -> A -> bool) (R : A -> A -> Prop)
    (l : list A) :
  (forall a b c, R a b -> R b c -> R a c) ->
  (forall x y, In x l -> In y l -> after x y = true -> R y x) ->
  (forall x y, In x l -> In y l -> after x y = false -> R x y) ->
  StronglySorted R (sort after l).
Proof.
  intros Htr. unfold sort.
  induction l as [|x l IH]; intros Ht Hf; cbn [fold_right]; [constructor|].
  apply insert_sorted_in_order; [exact Htr | | |].
  - intros y Hy. apply (proj1 (In_sort _ _ _)) in Hy.
    apply Ht; [left; reflexivity | right; exact Hy].
  - intros y Hy. apply (proj1 (In_sort _ _ _)) in Hy.
    apply Hf; [left; reflexivity | right; exact Hy].
  - apply IH; intros a b Ha Hb; [apply Ht | apply Hf]; right; assumption.
Qed.

End OrderFacts.

(** ** The order of the two lists when the loop starts *)

(** X3: when every balance is a valid number that is zero or finite, the
    two sorts leave [creditors] ordered from the largest balance to the
    smallest and [debtors] from the most negative balance upwards, so that
    the first pass matches the member owed most with the member owing
    most. *)
Theorem lists_sorted_before_loop
    (expenses : list expense) (members : list jsstring) :
  let validMembers := validMembers_of members in
  let balances :=
    balances_of (totalSpent_of expenses validMembers) validMembers in
  forallb (fun v => valid v && is_finite v) (Object_values balances)
  = true ->
  StronglySorted (fun a b => (B2R (balance b) <= B2R (balance a))%R)
                 (creditors (initial_state balances)) /\
  StronglySorted (fun a b => (B2R (balance a) <= B2R (balance b))%R)
                 (debtors (initial_state balances)).
Proof.
  intros vm bal Hv. rewrite forallb_forall in Hv.
  assert (Hval : forall k v, In (k, v) bal ->
            valid v = true /\ is_finite v = true).
  { intros k v Hin. apply andb_true_iff. apply Hv.
    unfold Object_values. apply in_map_iff. exists (k, v).
    split; [reflexivity | apply In_entries, Hin]. }
  cbn [initial_state creditors debtors]. split.
  - apply OrderFacts.sort_in_order.
    + intros a b c H1 H2. lra.
    + intros x y Hx Hy E.
      apply NameFacts.creditor_entry in Hx, Hy.
      destruct (Hval _ _ (proj1 Hx)) as [Vx Fx].
      destruct (Hval _ _ (proj1 Hy)) as [Vy Fy].
      unfold creditor_after in E.
      apply (OrderFacts.gt_sub_R _ _ Vx Vy Fx Fy) in E. lra.
    + intros x y Hx Hy E.
      apply NameFacts.creditor_entry in Hx, Hy.
      destruct (Hval _ _ (proj1 Hx)) as [Vx Fx].
      destruct (Hval _ _ (proj1 Hy)) as [Vy Fy].
      unfold creditor_after in E.
      destruct (Rlt_le_dec (B2R (balance x)) (B2R (balance y)))
        as [Hlt | Hle]; [|exact Hle].
      apply (OrderFacts.gt_sub_R _ _ Vx Vy Fx Fy) in Hlt. congruence.
  - apply OrderFacts.sort_in_order.
    + intros a b c H1 H2. lra.
    + intros x y Hx Hy E.
      apply NameFacts.debtor_entry in Hx, Hy.
      destruct (Hval _ _ (proj1 Hx)) as [Vx Fx].
      destruct (Hval _ _ (proj1 Hy)) as [Vy Fy].
      unfold debtor_after in E.
      apply (OrderFacts.gt_sub_R _ _ Vy Vx Fy Fx) in E. lra.
    + intros x y Hx Hy E.
      apply NameFacts.debtor_entry in Hx, Hy.
      destruct (Hval _ _ (proj1 Hx)) as [Vx Fx].
      destruct (Hval _ _ (proj1 Hy)) as [Vy Fy].
      unfold debtor_after in E.
      destruct (Rlt_le_dec (B2R (balance y)) (B2R (balance x)))
        as [Hlt | Hle]; [|exact Hle].
      apply (OrderFacts.gt_sub_R _ _ Vy Vx Fy Fx) in Hlt. congruence.
Qed.

Lemma lists_sorted_before_loop_witness :
  let expenses :=
    [{| payer := String (lit "A"); amount := Number (of_Z 90) |};
     {| payer := String (lit "B"); amount := Number (of_Z 30) |}] in
  let members := [lit "A"; lit "B"; lit "C"; lit "D"] in
  let validMembers := validMembers_of members in
  let balances :=
    balances_of (totalSpent_of expenses validMembers) validMembers in
  StronglySorted (fun a b => (B2R (balance b) <= B2R (balance a))%R)
                 (creditors (initial_state balances)) /\
  StronglySorted (fun a b => (B2R (balance a) <= B2R (balance b))%R)
                 (debtors (initial_state balances)).
Proof.
  intros expenses members.
  apply (lists_sorted_before_loop expenses members).
  vm_compute. reflexivity.
Defined.

(** ** Totals, fair share and balances of everyday inputs *)

Module EverydayFacts.
Import Account Everyday FloatFacts FloatRound SettleFacts.

Lemma bpow_m13 : bpow (-13) = (/ 8192)%R.
Proof. apply (bpow_neg_IZR 13). lia. Qed.

Lemma bpow_m14 : bpow (-14) = (/ 16384)%R.
Proof. apply (bpow_neg_IZR 14). lia. Qed.

Lemma bpow_39 : bpow 39 = 549755813888%R.
Proof. rewrite bpow_IZR by lia. reflexivity. Qed.

Lemma B2R_zero_inv (x : number) :
  is_finite x = true -> B2R x = 0%R -> exists s, x = S754_zero s.
Proof.
  destruct x as [s|s| |s m e]; try discriminate; [eauto|].
  intros _ H. exfalso. cbn [B2R] in H.
  pose proof (bpow_pos e) as Hb.
  assert (Hm : (0 < IZR (Zpos m))%R) by (apply IZR_lt; reflexivity).
  destruct s; cbn [cond_Zopp] in H; rewrite ?opp_IZR in H; nra.
Qed.

Lemma total_ok_mono (k k' : Z) (v : number) :
  0 <= k <= k' -> total_ok k v -> total_ok k' v.
Proof.
  intros Hk (V & F & L & U). repeat split; try assumption.
  assert (IZR k <= IZR k')%R by (apply IZR_le; lia). nra.
Qed.

(** [(totalSpent[payer] || 0) + Number(amount)] *)
Lemma total_ok_add (k : Z) (x : number) (a : value) :
  0 <= k < 1000 -> total_ok k x -> everyday_amount a ->
  total_ok (k + 1)
    (add (if JSNum.truthy x then x else lit_0) (ToNumber a)).
Proof.
  intros Hk (V & F & L & U) (y & -> & Vy & Hy). cbn [ToNumber].
  set (x' := if JSNum.truthy x then x else lit_0).
  assert (Hx' : valid x' = true /\ is_finite x' = true /\ B2R x' = B2R x).
  { unfold x'. destruct x as [s|s| |s m e]; try discriminate;
      repeat split; assumption. }
  destruct Hx' as (V' & F' & E').
  assert (Fy : is_finite y = true).
  { destruct (B2R_pos_inv y ltac:(lra)) as (m & e & ->). reflexivity. }
  assert (Hk1 : (IZR k <= 999)%R) by (apply IZR_le; lia).
  assert (Hk0 : (0 <= IZR k)%R) by (apply IZR_le; lia).
  assert (Hx0 : (0 <= B2R x)%R) by (destruct L; lra).
  destruct (add_R x' y 40 V' Vy F' Fy) as (Va & Fa & Ha);
    [rewrite E', bpow_40; apply Rabs_def1; nra | lia |].
  change (40 - 53) with (-13) in Ha. rewrite bpow_m13, E' in Ha.
  apply Rabs_le_inv in Ha.
  repeat split; try assumption.
  - right. lra.
  - rewrite plus_IZR. lra.
Qed.

Lemma total_ok_zero (k : Z) : 0 <= k -> total_ok k lit_0.
Proof.
  intros Hk. repeat split; [left; reflexivity|]. cbn [lit_0 pzero B2R].
  assert (0 <= IZR k)%R by (apply IZR_le; lia). nra.
Qed.

Lemma add_expense_ok (vm : list jsstring) (k : Z) ts e :
  0 <= k < 1000 -> all_values (total_ok k) ts -> everyday_amount (amount e) ->
  all_values (total_ok (k + 1)) (add_expense vm ts e).
Proof.
  intros Hk Hts Ha.
  assert (Hmono : all_values (total_ok (k + 1)) ts).
  { intros p v Hin. apply (total_ok_mono k); [lia | eapply Hts, Hin]. }
  unfold add_expense. destruct (payer e) as [| | | |p]; try exact Hmono.
  destruct (_ || _); [exact Hmono|].
  destruct (own_get p ts) as [x|] eqn:E; [|exact Hmono].
  apply all_values_set; [|exact Hmono].
  apply total_ok_add; [exact Hk | | exact Ha].
  apply own_get_In in E. eapply Hts, E.
Qed.

(** The totals after the loop over the expenses. *)
Lemma totals_ok (vm : list jsstring) (es : list expense) :
  Forall (fun e => everyday_amount (amount e)) es ->
  (length es <= 1000)%nat ->
  all_values (total_ok 1000) (totalSpent_of es vm).
Proof.
  intros Hes Hlen. unfold totalSpent_of.
  assert (G : forall l ts k,
    0 <= k -> k + Z.of_nat (length l) <= 1000 ->
    Forall (fun e => everyday_amount (amount e)) l ->
    all_values (total_ok k) ts ->
    all_values (total_ok (k + Z.of_nat (length l)))
      (fold_left (add_expense vm) l ts)).
  { induction l as [|e l IH]; intros ts k Hk Hl Hall Hts;
      cbn [fold_left length].
    - rewrite Z.add_0_r. exact Hts.
    - inversion Hall as [|? ? He Hall']; subst.
      cbn [length] in Hl. rewrite Nat2Z.inj_succ in Hl |- *.
      replace (k + Z.succ (Z.of_nat (length l)))
        with (k + 1 + Z.of_nat (length l)) by lia.
      apply IH; [lia | lia | exact Hall'|].
      apply add_expense_ok; [lia | exact Hts | exact He]. }
  intros p v Hin.
  apply (total_ok_mono (0 + Z.of_nat (length es))); [lia|].
  eapply (G es (init_totals vm) 0); [lia | lia | exact Hes | | exact Hin].
  intros p' v' Hin'. rewrite (init_totals_values vm _ _ Hin').
  apply total_ok_zero. lia.
Qed.

(** [total + value] in the sum of the totals. *)
Lemma sum_ok_add (j : Z) (s v : number) :
  0 <= j < 100 -> sum_ok j s -> total_ok 1000 v -> sum_ok (j + 1) (add s v).
Proof.
  intros Hj (V & F & L & U) (Vv & Fv & Lv & Uv).
  assert (Hj1 : (IZR j <= 99)%R) by (apply IZR_le; lia).
  assert (Hj0 : (0 <= IZR j)%R) by (apply IZR_le; lia).
  assert (Hs0 : (0 <= B2R s)%R) by (destruct L; lra).
  unfold sum_ok. rewrite plus_IZR.
  destruct Lv as [Ez | Lv].
  - (* the value is zero: the sum is unchanged *)
    destruct (B2R_zero_inv v Fv Ez) as (sv & ->).
    assert (E : valid (add s (S754_zero sv)) = true /\
                is_finite (add s (S754_zero sv)) = true /\
                B2R (add s (S754_zero sv)) = B2R s).
    { destruct s as [ss|ss| |ss m e]; try discriminate.
      - destruct ss, sv; repeat split.
      - repeat split; assumption. }
    destruct E as (Va & Fa & Ea).
    repeat split; try assumption; rewrite Ea; [exact L | lra].
  - change (IZR 1000) with 1000%R in Uv.
    destruct (add_R s v 40 V Vv F Fv) as (Va & Fa & Ha);
      [rewrite bpow_40; apply Rabs_def1; nra | lia |].
    change (40 - 53) with (-13) in Ha. rewrite bpow_m13 in Ha.
    apply Rabs_le_inv in Ha.
    repeat split; try assumption; [right; lra | lra].
Qed.

Lemma total_expenses_ok (l : list number) :
  Forall (total_ok 1000) l -> (length l <= 100)%nat ->
  sum_ok 100 (fold_left add l lit_0).
Proof.
  intros Hl Hlen.
  assert (G : forall l s j,
    0 <= j -> j + Z.of_nat (length l) <= 100 ->
    Forall (total_ok 1000) l -> sum_ok j s ->
    sum_ok (j + Z.of_nat (length l)) (fold_left add l s)).
  { clear. induction l as [|v l IH]; intros s j Hj Hle Hall Hs;
      cbn [fold_left length].
    - rewrite Z.add_0_r. exact Hs.
    - inversion Hall as [|? ? Hv Hall']; subst.
      cbn [length] in Hle. rewrite Nat2Z.inj_succ in Hle |- *.
      replace (j + Z.succ (Z.of_nat (length l)))
        with (j + 1 + Z.of_nat (length l)) by lia.
      apply IH; [lia | lia | exact Hall'|].
      apply sum_ok_add; [lia | exact Hs | exact Hv]. }
  assert (H0 : sum_ok 0 lit_0).
  { repeat split; [left; reflexivity|]. cbn [lit_0 pzero B2R]. lra. }
  pose proof (G l lit_0 0 ltac:(lia) ltac:(lia) Hl H0) as (V & F & L & U).
  repeat split; try assumption.
  rewrite Z.add_0_l in U.
  assert (IZR (Z.of_nat (length l)) <= 100)%R by (apply IZR_le; lia).
  change (IZR 100) with 100%R. lra.
Qed.

(** [totalExpenses / validMembers.length] *)
Lemma fair_share_ok (total : number) (n : Z) :
  sum_ok 100 total -> 1 <= n <= 100 ->
  valid (div total (of_Z n)) = true /\
  is_finite (div total (of_Z n)) = true /\
  (0 <= B2R (div total (of_Z n)) <= 2 * B2R total)%R.
Proof.
  intros (V & F & L & U) Hn.
  destruct (of_Z_exact n) as (mn & en & En & Env & _);
    [change (2 ^ 53) with 9007199254740992; lia|].
  rewrite En.
  assert (Hn1 : (1 <= IZR n <= 100)%R)
    by (split; apply IZR_le; lia).
  destruct L as [Ez | L].
  - destruct (B2R_zero_inv total F Ez) as (s & ->).
    cbn [div SFdiv valid valid_binary is_finite B2R]. repeat split; lra.
  - destruct (B2R_pos_inv total ltac:(lra)) as (mt & et & ->).
    cbn [B2R cond_Zopp] in L, U. change (IZR 100) with 100%R in U.
    assert (Hsmall : (bpow (-1074) <= / 32768)%R).
    { replace (/ 32768)%R with (bpow (-15))
        by (apply (bpow_neg_IZR 15); lia).
      apply bpow_le. lia. }
    assert (Hhalf : (bpow (-52) <= / 2)%R).
    { replace (/ 2)%R with (bpow (-1)) by (apply (bpow_neg_IZR 1); lia).
      apply bpow_le. lia. }
    set (tv := (IZR (Zpos mt) * bpow et)%R) in *.
    assert (Ht : ((/ 25600 <= tv / IZR n) /\ (tv / IZR n <= tv))%R).
    { split.
      - apply Rmult_le_reg_r with (r := IZR n); [lra|].
        replace (tv / IZR n * IZR n)%R with tv by (field; lra). nra.
      - apply Rmult_le_reg_r with (r := IZR n); [lra|].
        replace (tv / IZR n * IZR n)%R with tv by (field; lra). nra. }
    destruct (div_R false false mt mn et en) as (e1 & r & Hr & He1 & Hres).
    { fold tv. rewrite Env. lra. }
    fold tv in Hr, He1. rewrite Env in Hr, He1. cbn [xorb] in Hres.
    set (t := (tv / IZR n)%R) in *.
    pose proof (bpow_pos e1) as Hbe1.
    assert (Hlt1 : (bpow e1 < t)%R).
    { destruct He1 as [-> | He1]; [lra | nra]. }
    destruct Hres as [[Hz _] | (m3 & e3 & Hr3 & Hc & Ha)]; [lra|].
    assert (He3 : e3 <= 971).
    { apply (no_overflow m3 e3 38 Hc); [|lia].
      rewrite <- Hr3. change (38 + 1) with 39. rewrite bpow_39. lra. }
    apply Z.leb_le in He3. change (emax - prec) with 971 in Ha.
    rewrite He3 in Ha. apply Z.leb_le in He3. rewrite Ha.
    split; [apply valid_finite; split; assumption|].
    split; [reflexivity|].
    cbn [B2R cond_Zopp]. fold tv. rewrite <- Hr3. lra.
Qed.

Lemma moderate_of_bound (v : number) :
  valid v = true -> is_finite v = true -> (Rabs (B2R v) < bpow 40)%R ->
  moderate v = true.
Proof.
  intros V F H. unfold moderate. rewrite V. cbn [andb].
  destruct v as [s|s| |s m e]; try discriminate; [reflexivity|].
  apply Z.leb_le. rewrite <- B2R_abs in H.
  cbn [Math_abs SFabs B2R cond_Zopp] in H.
  apply (digits_le_of_lt (Zpos m) e 40); [lia | exact H].
Qed.

(** [totalSpent[member] - fairShare] *)
Lemma balance_ok (x fs total : number) :
  total_ok 1000 x -> sum_ok 100 total ->
  valid fs = true -> is_finite fs = true ->
  (0 <= B2R fs <= 2 * B2R total)%R ->
  moderate (sub x fs) = true.
Proof.
  intros (Vx & Fx & Lx & Ux) (_ & _ & Lt & Ut) Vf Ff Hf.
  change (IZR 1000) with 1000%R in Ux. change (IZR 100) with 100%R in Ut.
  assert (Hx0 : (0 <= B2R x)%R) by (destruct Lx; lra).
  destruct (sub_R x fs 39 Vx Vf Fx Ff) as (V & F & H);
    [rewrite bpow_39; apply Rabs_def1; lra | lia |].
  change (39 - 53) with (-14) in H. rewrite bpow_m14 in H.
  apply Rabs_le_inv in H.
  apply moderate_of_bound; [exact V | exact F|].
  rewrite bpow_40. apply Rabs_def1; lra.
Qed.

(** The keys of [totalSpent] are valid members, each once. *)
Lemma totals_keys (vm : list jsstring) (es : list expense) kv :
  In kv (totalSpent_of es vm) -> In (fst kv) vm.
Proof.
  unfold totalSpent_of.
  assert (G : forall l ts,
    (forall kv', In kv' ts -> In (fst kv') vm) ->
    In kv (fold_left (add_expense vm) l ts) -> In (fst kv) vm).
  { induction l as [|e l IH]; intros ts Hts; cbn [fold_left]; [apply Hts|].
    apply IH. intros kv' Hin. unfold add_expense in Hin.
    destruct (payer e) as [| | | |p]; try (apply Hts, Hin).
    destruct (negb (JSStr.truthy p) || negb (includes vm p)
              || negb (JSVal.truthy (amount e))) eqn:Eg;
      [apply Hts, Hin|].
    destruct (own_get p ts); [|apply Hts, Hin].
    apply In_set in Hin. destruct Hin as [-> | Hin]; [|apply Hts, Hin].
    cbn [fst]. apply orb_false_iff in Eg. destruct Eg as [Eg _].
    apply orb_false_iff in Eg. destruct Eg as [_ Eg].
    apply negb_false_iff in Eg. apply includes_In, Eg. }
  apply G. unfold init_totals.
  assert (G0 : forall l o,
    (forall x, In x l -> In x vm) ->
    (forall kv', In kv' o -> In (fst kv') vm) ->
    forall kv', In kv' (fold_left (fun ts m => set m lit_0 ts) l o) ->
                In (fst kv') vm).
  { induction l as [|m l IH]; intros o Hl Ho; cbn [fold_left]; [exact Ho|].
    apply IH; [intros x Hx; apply Hl; right; exact Hx|].
    intros kv' Hin. apply In_set in Hin.
    destruct Hin as [-> | Hin]; [apply Hl; left; reflexivity | apply Ho, Hin]. }
  apply (G0 vm empty); [tauto | intros kv' []].
Qed.

Lemma add_expense_NoDup (vm : list jsstring) ts e :
  NoDup (map fst ts) -> NoDup (map fst (add_expense vm ts e)).
Proof.
  intros H. unfold add_expense.
  destruct (payer e); try exact H.
  destruct (_ || _); [exact H|].
  destruct (own_get s ts); [apply set_NoDup, H | exact H].
Qed.

Lemma totals_NoDup (vm : list jsstring) (es : list expense) :
  NoDup (map fst (totalSpent_of es vm)).
Proof.
  unfold totalSpent_of.
  assert (G : forall l ts, NoDup (map fst ts) ->
            NoDup (map fst (fold_left (add_expense vm) l ts))).
  { induction l as [|e l IH]; intros ts H; cbn [fold_left]; [exact H|].
    apply IH, add_expense_NoDup, H. }
  apply G. unfold init_totals.
  assert (G0 : forall l (o : obj number), NoDup (map fst o) ->
            NoDup (map fst (fold_left (fun ts m => set m lit_0 ts) l o))).
  { induction l as [|m l IH]; intros o H; cbn [fold_left]; [exact H|].
    apply IH, set_NoDup, H. }
  apply G0. constructor.
Qed.

(** An object whose keys are members has no more properties than there
    are members. *)
Lemma keys_length (vm : list jsstring) (o : obj number) :
  NoDup (map fst o) -> (forall kv, In kv o -> In (fst kv) vm) ->
  (length o <= length vm)%nat.
Proof.
  intros Hnd Hin. rewrite <- (length_map fst o).
  apply NoDup_incl_length; [exact Hnd|].
  intros k Hk. apply in_map_iff in Hk. destruct Hk as (kv & <- & Hkv).
  apply Hin, Hkv.
Qed.

Lemma values_length (o : obj number) :
  length (Object_values o) = length o.
Proof.
  unfold Object_values. rewrite length_map.
  apply Permutation_length, InitFacts.entries_perm.
Qed.

(** The values of [balances]. *)
Lemma balances_values_of (ts : obj number) (vm : list jsstring) kv :
  (forall m, In m vm -> m <> proto_key -> own_get m ts <> None) ->
  In kv (balances_of ts vm) ->
  exists x, own_get (fst kv) ts = Some x /\
            snd kv = sub x (fairShare_of ts vm).
Proof.
  intros Hdef. unfold balances_of.
  set (fs := fairShare_of ts vm). clearbody fs.
  assert (G : forall l o,
    (forall x, In x l -> In x vm) ->
    (forall kv', In kv' o ->
       exists x, own_get (fst kv') ts = Some x /\ snd kv' = sub x fs) ->
    In kv (fold_left (set_balance ts fs) l o) ->
    exists x, own_get (fst kv) ts = Some x /\ snd kv = sub x fs).
  { induction l as [|m l IH]; intros o Hl Ho; cbn [fold_left]; [apply Ho|].
    apply IH; [intros x Hx; apply Hl; right; exact Hx|].
    intros kv' Hin. unfold set_balance in Hin.
    apply NameFacts.set_key_cases in Hin.
    destruct Hin as [[-> Hp] | Hin]; [|apply Ho, Hin].
    cbn [fst snd].
    specialize (Hdef m (Hl m (or_introl eq_refl)) Hp).
    destruct (own_get m ts) as [x|]; [eauto | congruence]. }
  apply G; [tauto | intros kv' []].
Qed.

Lemma filter_disjoint_length {A} (p q : A -> bool) (l : list A) :
  (forall x, p x = true -> q x = true -> False) ->
  (length (filter p l) + length (filter q l) <= length l)%nat.
Proof.
  intros H. induction l as [|x l IH]; cbn [filter length]; [lia|].
  destruct (p x) eqn:Ep, (q x) eqn:Eq; cbn [length]; try lia.
  exfalso. exact (H x Ep Eq).
Qed.

(** No more creditors and debtors than valid members. *)
Lemma lists_length (ts : obj number) (vm : list jsstring) :
  let bal := balances_of ts vm in
  (length (creditors_of bal) + length (debtors_of bal) <= length vm)%nat.
Proof.
  intros bal. unfold creditors_of, debtors_of. rewrite !length_map.
  pose proof (filter_disjoint_length
                (fun kv : jsstring * number => gt (snd kv) lit_0)
                (fun kv => lt (snd kv) lit_0) (entries bal)
                (fun kv => NameFacts.not_both_signs (snd kv))) as H.
  assert (Hl : (length (entries bal) <= length vm)%nat).
  { rewrite (Permutation_length (InitFacts.entries_perm bal)).
    apply keys_length; [apply balances_NoDup|].
    intros kv Hkv. apply (NameFacts.balances_keys ts vm kv Hkv). }
  lia.
Qed.

(** The balances of everyday inputs are of moderate size. *)
Lemma everyday_balances_moderate (es : list expense) (ms : list jsstring) :
  let vm := validMembers_of ms in
  let bal := balances_of (totalSpent_of es vm) vm in
  Forall (fun e => everyday_amount (amount e)) es ->
  (length es <= 1000)%nat -> (length ms <= 100)%nat ->
  vm <> [] ->
  forallb moderate (Object_values bal) = true.
Proof.
  intros vm bal Hes Hlen Hms Hvm.
  set (ts := totalSpent_of es vm) in *.
  pose proof (totals_ok vm es Hes Hlen) as Hts. fold ts in Hts.
  assert (Hn : (1 <= length vm <= 100)%nat).
  { split; [destruct vm; [congruence | cbn; lia]|].
    apply Nat.le_trans with (length ms); [|exact Hms].
    unfold vm, validMembers_of. apply filter_length_le. }
  assert (Htot : sum_ok 100 (totalExpenses_of ts)).
  { apply total_expenses_ok.
    - apply Forall_forall. intros v Hv.
      apply (Object_values_all _ _ Hts v Hv).
    - rewrite values_length.
      apply Nat.le_trans with (length vm); [|lia].
      apply keys_length; [apply totals_NoDup|].
      intros kv Hkv. apply (totals_keys vm es kv Hkv). }
  destruct (fair_share_ok (totalExpenses_of ts) (Z.of_nat (length vm)) Htot
              ltac:(lia)) as (Vf & Ff & Hf).
  fold (fairShare_of ts vm) in Vf, Ff, Hf.
  apply forallb_forall. intros v Hv.
  unfold Object_values in Hv. apply in_map_iff in Hv.
  destruct Hv as ([k v'] & <- & Hkv). cbn [snd].
  apply (proj1 (In_entries _ _)) in Hkv.
  destruct (balances_values_of ts vm (k, v')) as (x & Ex & Ev);
    [|exact Hkv|].
  { intros m Hm Hp. unfold ts, totalSpent_of.
    apply fold_add_expense_defined, own_get_init_totals; assumption. }
  cbn [fst snd] in Ex, Ev. rewrite Ev.
  apply (balance_ok x _ (totalExpenses_of ts)); try assumption.
  apply own_get_In in Ex. eapply Hts, Ex.
Qed.

End EverydayFacts.

(** ** Settling everyday expenses *)

Import Account Everyday FloatFacts FloatRound SettleFacts PassFacts LoopFacts
  EverydayFacts.

Lemma amount_in_range_everyday (v : value) :
  amount_in_range v = true -> everyday_amount v.
Proof.
  unfold amount_in_range, everyday_amount.
  destruct v as [| | |x|]; try discriminate.
  rewrite !andb_true_iff, !negb_true_iff.
  intros [[[V Hn] Hlo] Hhi]. exists x. split; [reflexivity|].
  split; [exact V|].
  assert (V1 : valid lit_0_01 = true) by reflexivity.
  assert (R1 : (/ 100 <= B2R lit_0_01 <= / 64)%R).
  { unfold lit_0_01. cbn [B2R cond_Zopp]. rewrite bpow_m59. lra. }
  destruct (of_Z_exact 1000000) as (m6 & e6 & E6 & R6 & B6);
    [change (2 ^ 53) with 9007199254740992; lia|].
  assert (V6 : valid (of_Z 1000000) = true) by reflexivity.
  destruct x as [s|s| |s m e].
  - destruct s; vm_compute in Hlo; discriminate.
  - destruct s; [vm_compute in Hlo | vm_compute in Hhi]; discriminate.
  - vm_compute in Hn. discriminate.
  - destruct s; [cbn in Hlo; discriminate|].
    assert (Px : (0 < B2R (S754_finite false m e))%R).
    { cbn [B2R cond_Zopp]. apply Rmult_lt_0_compat;
        [apply IZR_lt; lia | apply bpow_pos]. }
    split.
    + destruct (Rle_lt_dec (/ 100) (B2R (S754_finite false m e)))
        as [|Hlt]; [assumption|].
      assert (Hl : lt (S754_finite false m e) lit_0_01 = true)
        by (apply (proj2 (lt_R _ _ V V1 Px ltac:(lra))); lra).
      congruence.
    + destruct (Rle_lt_dec (B2R (S754_finite false m e)) 1000000)
        as [|Hgt]; [assumption|].
      assert (R6' : B2R (of_Z 1000000) = 1000000%R)
        by (rewrite E6; cbn [B2R cond_Zopp]; exact R6).
      assert (Hl : lt (of_Z 1000000) (S754_finite false m e) = true)
        by (apply (proj2 (lt_R _ _ V6 V ltac:(lra) Px)); lra).
      unfold gt in Hhi. unfold lt in Hl. congruence.
Qed.

Lemma forallb_everyday (es : list expense) :
  forallb (fun e => amount_in_range (amount e)) es = true ->
  Forall (fun e => everyday_amount (amount e)) es.
Proof.
  intros H. apply Forall_forall. intros e He.
  apply amount_in_range_everyday.
  exact (proj1 (forallb_forall _ _) H e He).
Qed.

(** The amount of a pass whose creditor and debtor have balances of
    moderate size is below 10^21. *)
Lemma moderate_amount (c d : entry) :
  owed (balance c) -> owing (balance d) ->
  gt (settle_amount c d) lit_0 = true ->
  ge_1e21 (settle_amount c d) = false.
Proof.
  intros Hc Hd Hgt.
  destruct (settle_amount_R c d Hc Hd) as (V & Hform & Hv).
  destruct Hform as [E | (m & e & E)]; rewrite E in *; [discriminate Hgt|].
  apply ge_1e21_small; [exact V|].
  cbn [B2R cond_Zopp] in Hv. apply Rabs_le_inv in Hv.
  destruct Hc as [_ Hc].
  pose proof (Rmin_l (B2R (balance c)) (- B2R (balance d))) as Hmin.
  assert (H69 : (bpow 41 <= bpow 69)%R) by (apply bpow_le; lia).
  rewrite bpow_41 in H69. rewrite bpow_40 in Hc. lra.
Qed.

(** What holds of every transaction pushed in a pass on balances of
    moderate size holds of every transaction the loop leaves. *)
Lemma loop_state_transactions (P : transaction -> Prop)
    (C0 D0 : list entry) :
  (forall c d, owed (balance c) -> owing (balance d) ->
     gt (settle_amount c d) lit_0 = true ->
     P {| from := name d; to := name c;
          tx_amount := toFixed2 (settle_amount c d) |}) ->
  forall fuel st st',
    invariant C0 D0 st -> loop_state fuel st = Some st' ->
    Forall P (transactions st) -> Forall P (transactions st').
Proof.
  intros HP. induction fuel as [|fuel IH]; intros [cs0 ds0 txs] st' Hinv;
    cbn [loop_state creditors debtors transactions].
  - destruct cs0, ds0; try discriminate;
      intros H; injection H as <-; tauto.
  - destruct cs0 as [|c cs]; [intros H; injection H as <-; tauto|].
    destruct ds0 as [|d ds]; [intros H; injection H as <-; tauto|].
    intros H Htx.
    destruct (invariant_step C0 D0 c d cs ds txs Hinv) as (Hinv' & _ & _).
    apply (IH _ _ Hinv' H).
    destruct Hinv as [HC HD]. cbn [creditors debtors transactions] in HC, HD.
    assert (Hc : owed (balance c)).
    { destruct HC as (_ & Hall & _). inversion Hall; subst. tauto. }
    assert (Hd : owing (balance d)).
    { destruct HD as (_ & Hall & _). inversion Hall; subst. tauto. }
    unfold step. cbn [transactions].
    destruct (gt (settle_amount c d) lit_0) eqn:E; [|exact Htx].
    apply Forall_app. split; [exact Htx|].
    constructor; [|constructor]. apply HP; assumption.
Qed.

(** X4: for a group of 100 members at most and 1000 expenses at most,
    each with a number between 0.01 and 1000000 as its amount, the
    function returns once the loop is given as many passes as there are
    members; it returns fewer transactions than there are valid members,
    and the amount of each one is a string of digits with exactly two
    decimals that denotes a positive number of hundredths. *)
Theorem everyday_expenses_settle
    (fuel : nat) (expenses : list expense) (members : list jsstring) :
  forallb (fun e => amount_in_range (amount e)) expenses = true ->
  (length expenses <= 1000)%nat ->
  (length members <= 100)%nat ->
  (length members <= fuel)%nat ->
  exists txs,
    calculateExpenseSplit fuel (Some expenses) (Some members) = Some txs /\
    (length txs <= length (validMembers_of members) - 1)%nat /\
    Forall (fun t =>
      is_fixed2 (tx_amount t) = true /\
      exists n, parse_fixed2 (tx_amount t) = Some n /\ (0 < n)%N) txs.
Proof.
  intros Hes Hlen Hms Hfuel. apply forallb_everyday in Hes.
  set (vm := validMembers_of members).
  unfold calculateExpenseSplit. fold vm.
  destruct (_ || _);
    [exists []; split; [reflexivity | split; [cbn; lia | constructor]]|].
  destruct (length vm =? 0)%nat eqn:Evm;
    [exists []; split; [reflexivity | split; [cbn; lia | constructor]]|].
  assert (Hvm : vm <> []).
  { intros E. rewrite E in Evm. discriminate. }
  pose proof (everyday_balances_moderate expenses members Hes Hlen Hms Hvm)
    as Hmod.
  fold vm in Hmod.
  set (ts := totalSpent_of expenses vm) in *.
  pose proof (lists_length ts vm) as Hl. cbv zeta in Hl.
  assert (Lvm : (length vm <= length members)%nat)
    by (unfold vm, validMembers_of; apply filter_length_le).
  destruct (run_moderate ts vm fuel Hmod ltac:(lia))
    as (st & Eloop & _ & _ & Hn).
  exists (transactions st).
  split; [rewrite loop_of_state, Eloop; reflexivity|].
  split; [lia|].
  apply (loop_state_transactions _ (creditors_of (balances_of ts vm))
           (debtors_of (balances_of ts vm))) with (fuel := fuel)
           (st := initial_state (balances_of ts vm)).
  - intros c d Hc Hd Hgt. cbn [tx_amount].
    pose proof (settle_amount_rendering c d Hgt) as Hr.
    rewrite (moderate_amount c d Hc Hd Hgt) in Hr. exact Hr.
  - apply InitFacts.invariant_initial, Hmod.
  - exact Eloop.
  - constructor.
Qed.

Lemma everyday_expenses_settle_witness :
  exists txs,
    calculateExpenseSplit 3
      (Some [{| payer := String (lit "A"); amount := Number (of_Z 90) |};
             {| payer := String (lit "B"); amount := Number (of_Z 30) |}])
      (Some [lit "A"; lit "B"; lit "C"]) = Some txs /\
    (length txs <= length (validMembers_of [lit "A"; lit "B"; lit "C"]) - 1)%nat /\
    Forall (fun t =>
      is_fixed2 (tx_amount t) = true /\
      exists n, parse_fixed2 (tx_amount t) = Some n /\ (0 < n)%N) txs.
Proof.
  apply (everyday_expenses_settle 3
    [{| payer := String (lit "A"); amount := Number (of_Z 90) |};
     {| payer := String (lit "B"); amount := Number (of_Z 30) |}]
    [lit "A"; lit "B"; lit "C"]).
  - vm_compute. reflexivity.
  - cbn [length]. lia.
  - cbn [length]. lia.
  - cbn [length]. lia.
Defined.

(** ** The sign of a balance *)

Module SignFacts.
Import Account FloatFacts FloatRound SettleFacts OrderFacts.

(** Rounding keeps the sign. *)
Lemma binary_round_sign (s : bool) (mx : positive) (ex : Z) :
  binary_round prec emax s mx ex = S754_zero s \/
  (exists m e, binary_round prec emax s mx ex = S754_finite s m e) \/
  binary_round prec emax s mx ex = S754_infinity s.
Proof.
  destruct (binary_round_spec s mx ex) as (_ & _ & m2 & _ & _ & Hres).
  destruct Hres as [[_ ->] | (m3 & e3 & _ & _ & _ & ->)]; [left; reflexivity|].
  right. destruct (e3 <=? emax - prec); [left; eauto | right; reflexivity].
Qed.

(** [x - f < 0] only when [x] is below [f], and [x - f > 0] only when it is
    above, for numbers that are zero or finite. *)
Lemma sub_sign (x f : number) :
  is_finite x = true -> is_finite f = true ->
  (lt (sub x f) lit_0 = true -> (B2R x < B2R f)%R) /\
  (gt (sub x f) lit_0 = true -> (B2R f < B2R x)%R).
Proof.
  intros Fx Ff.
  destruct x as [sx|sx| |sx mx ex]; try discriminate;
    destruct f as [sf|sf| |sf mf ef]; try discriminate.
  - destruct sx, sf; split; discriminate.
  - cbn [sub SFsub B2R].
    pose proof (bpow_pos ef) as Hb.
    assert (Hm : (0 < IZR (Zpos mf))%R) by (apply IZR_lt; reflexivity).
    destruct sf; cbn [negb cond_Zopp]; rewrite ?opp_IZR;
      split; intros H; try discriminate; nra.
  - cbn [sub SFsub B2R].
    pose proof (bpow_pos ex) as Hb.
    assert (Hm : (0 < IZR (Zpos mx))%R) by (apply IZR_lt; reflexivity).
    destruct sx; cbn [cond_Zopp]; rewrite ?opp_IZR;
      split; intros H; try discriminate; nra.
  - unfold sub, SFsub. set (ez := Z.min ex ef).
    rewrite <- (aligned_R sx mx ex ez), <- (aligned_R sf mf ef ez)
      by (unfold ez; lia).
    set (Mx := cond_Zopp sx (Zpos (fst (shl_align mx ex ez)))).
    set (Mf := cond_Zopp sf (Zpos (fst (shl_align mf ef ez)))).
    pose proof (bpow_pos ez) as Hb.
    unfold binary_normalize.
    destruct (Mx - Mf) as [|p|p] eqn:E.
    + split; discriminate.
    + split.
      * destruct (binary_round_sign false p ez)
          as [-> | [(m & e & ->) | ->]]; discriminate.
      * intros _. assert (IZR Mf < IZR Mx)%R by (apply IZR_lt; lia). nra.
    + split.
      * intros _. assert (IZR Mx < IZR Mf)%R by (apply IZR_lt; lia). nra.
      * destruct (binary_round_sign true p ez)
          as [-> | [(m & e & ->) | ->]]; discriminate.
Qed.

(** Of two finite totals, the one whose balance is below zero is the
    smaller and the one whose balance is above zero the larger, whatever
    the fair share is. *)
Lemma sub_order (x y f : number) :
  is_finite x = true -> is_finite y = true ->
  lt (sub x f) lit_0 = true -> gt (sub y f) lit_0 = true ->
  (B2R x < B2R y)%R.
Proof.
  intros Fx Fy Hlt Hgt.
  destruct (is_finite f) eqn:Ff.
  - pose proof (proj1 (sub_sign x f Fx Ff) Hlt).
    pose proof (proj2 (sub_sign y f Fy Ff) Hgt). lra.
  - exfalso.
    destruct f as [sf|sf| |sf mf ef]; try discriminate;
      destruct x as [sx|sx| |sx mx ex]; try discriminate;
      destruct y as [sy|sy| |sy my ey]; try discriminate;
      try destruct sf; discriminate.
Qed.

End SignFacts.

(** ** Who pays whom *)

(** A member on the list of creditors has spent more than a member on
    the list of debtors, when their totals are finite numbers. *)
Lemma sides_ordered (es : list expense) (vm : list jsstring) (c d : entry) :
  let ts := totalSpent_of es vm in
  let bal := balances_of ts vm in
  forallb is_finite (Object_values ts) = true ->
  In c (creditors_of bal) -> In d (debtors_of bal) ->
  exists x y,
    own_get (name d) ts = Some x /\ own_get (name c) ts = Some y /\
    (B2R x < B2R y)%R.
Proof.
  intros ts bal Hfin Hc Hd.
  assert (Hdef : forall m, In m vm -> m <> proto_key -> own_get m ts <> None).
  { intros m Hm Hp. unfold ts, totalSpent_of.
    apply fold_add_expense_defined, own_get_init_totals; assumption. }
  assert (Hval : forall k v, own_get k ts = Some v -> is_finite v = true).
  { intros k v Hk. apply own_get_In in Hk.
    apply (proj1 (forallb_forall _ _) Hfin).
    unfold Object_values. apply in_map_iff. exists (k, v).
    split; [reflexivity | apply In_entries, Hk]. }
  apply NameFacts.creditor_entry in Hc. destruct Hc as [Hc Hgt].
  apply NameFacts.debtor_entry in Hd. destruct Hd as [Hd Hlt].
  destruct (EverydayFacts.balances_values_of ts vm _ Hdef Hc)
    as (y & Ey & Eby).
  destruct (EverydayFacts.balances_values_of ts vm _ Hdef Hd)
    as (x & Ex & Ebx).
  cbn [fst snd] in Ey, Eby, Ex, Ebx.
  exists x, y. split; [exact Ex|]. split; [exact Ey|].
  rewrite Eby in Hgt. rewrite Ebx in Hlt.
  exact (SignFacts.sub_order x y _ (Hval _ _ Ex) (Hval _ _ Ey) Hlt Hgt).
Qed.

(** X5: when the total of every valid member is a finite number, every
    transaction goes from a member to one who has spent more: the total of
    the receiver is greater than the total of the payer. *)
Theorem payments_go_to_larger_spender
    (fuel : nat) (expenses : list expense) (members : list jsstring)
    (txs : list transaction) :
  let validMembers := validMembers_of members in
  let totalSpent := totalSpent_of expenses validMembers in
  forallb is_finite (Object_values totalSpent) = true ->
  calculateExpenseSplit fuel (Some expenses) (Some members) = Some txs ->
  Forall (fun t =>
    exists x y,
      own_get (from t) totalSpent = Some x /\
      own_get (to t) totalSpent = Some y /\
      (B2R x < B2R y)%R) txs.
Proof.
  intros vm ts Hfin H.
  pose proof (NameFacts.output_names fuel expenses members txs H) as Hn.
  fold vm in Hn. fold ts in Hn.
  eapply Forall_impl; [|exact Hn]. cbv beta.
  intros t [Hto Hfrom].
  apply in_map_iff in Hto. destruct Hto as (c & Ec & Hc).
  apply in_map_iff in Hfrom. destruct Hfrom as (d & Ed & Hd).
  destruct (sides_ordered expenses vm c d Hfin Hc Hd) as (x & y & Ex & Ey & L).
  rewrite Ec in Ey. rewrite Ed in Ex. eauto.
Qed.

Lemma payments_go_to_larger_spender_witness :
  let expenses :=
    [{| payer := String (lit "A"); amount := Number (of_Z 90) |};
     {| payer := String (lit "B"); amount := Number (of_Z 30) |}] in
  let members := [lit "A"; lit "B"; lit "C"] in
  let totalSpent := totalSpent_of expenses (validMembers_of members) in
  Forall (fun t =>
    exists x y,
      own_get (from t) totalSpent = Some x /\
      own_get (to t) totalSpent = Some y /\
      (B2R x < B2R y)%R)
    [{| from := lit "C"; to := lit "A"; tx_amount := lit "40.00" |};
     {| from := lit "B"; to := lit "A"; tx_amount := lit "10.00" |}].
Proof.
  intros expenses members totalSpent.
  apply (payments_go_to_larger_spender 5 expenses members).
  - vm_compute. reflexivity.
  - vm_compute. reflexivity.
Defined.

(** X6: when all valid members have the same finite number as their
    total, the function returns the empty list, whatever the number of
    passes the loop is allowed. *)
Theorem even_spending_needs_no_payment
    (fuel : nat) (expenses : list expense) (members : list jsstring)
    (x : number) :
  let validMembers := validMembers_of members in
  let totalSpent := totalSpent_of expenses validMembers in
  is_finite x = true ->
  (forall v, In v (Object_values totalSpent) -> v = x) ->
  calculateExpenseSplit fuel (Some expenses) (Some members) = Some [].
Proof.
  intros vm ts Fx Hall.
  assert (Hfin : forallb is_finite (Object_values ts) = true).
  { apply forallb_forall. intros v Hv. rewrite (Hall v Hv). exact Fx. }
  assert (Hval : forall k v, own_get k ts = Some v -> v = x).
  { intros k v Hk. apply own_get_In in Hk. apply Hall.
    unfold Object_values. apply in_map_iff. exists (k, v).
    split; [reflexivity | apply In_entries, Hk]. }
  unfold calculateExpenseSplit.
  destruct (_ || _); [reflexivity|].
  fold vm. destruct (length vm =? 0)%nat; [reflexivity|].
  fold ts. set (bal := balances_of ts vm).
  unfold initial_state.
  destruct (creditors_of bal) as [|c cs] eqn:Ec;
    [destruct fuel; reflexivity|].
  destruct (debtors_of bal) as [|d ds] eqn:Ed.
  - destruct (sort creditor_after (c :: cs)); destruct fuel; reflexivity.
  - exfalso.
    destruct (sides_ordered expenses vm c d Hfin) as (a & b & Ea & Eb & L).
    + fold ts. fold bal. rewrite Ec. left; reflexivity.
    + fold ts. fold bal. rewrite Ed. left; reflexivity.
    + fold ts in Ea, Eb. rewrite (Hval _ _ Ea), (Hval _ _ Eb) in L. lra.
Qed.

Lemma even_spending_needs_no_payment_witness :
  calculateExpenseSplit 0
    (Some [{| payer := String (lit "A"); amount := String (lit "0.1") |};
           {| payer := String (lit "B"); amount := String (lit "0.1") |};
           {| payer := String (lit "C"); amount := String (lit "0.1") |}])
    (Some [lit "A"; lit "B"; lit "C"]) = Some [].
Proof.
  apply (even_spending_needs_no_payment 0 _ _ (StringToNumber (lit "0.1"))).
  - vm_compute. reflexivity.
  - intros v Hv. vm_compute in Hv.
    destruct Hv as [<- | [<- | [<- | []]]]; vm_compute; reflexivity.
Defined.

(** ** Reading an amount string back *)

Module ParseFacts.
Import Account FloatFacts FloatRound SettleFacts Screens.

Lemma digit_cases (c : code_unit) :
  is_digit c = true ->
  In c [48; 49; 50; 51; 52; 53; 54; 55; 56; 57]%N.
Proof.
  unfold is_digit. rewrite andb_true_iff, !N.leb_le. intros [Hl Hu].
  assert (c = 48 \/ c = 49 \/ c = 50 \/ c = 51 \/ c = 52 \/ c = 53 \/
          c = 54 \/ c = 55 \/ c = 56 \/ c = 57)%N by lia.
  cbn [In]. intuition.
Qed.

Ltac each_digit c H :=
  apply digit_cases in H; cbn [In] in H;
  repeat (destruct H as [<- | H]; [|]); [.. | destruct H].

Lemma digit_val_digit (c : code_unit) :
  is_digit c = true -> digit_val 10 c = Some (c - 48)%N.
Proof. intros H. each_digit c H; reflexivity. Qed.

Lemma digit_not_space (c : code_unit) :
  is_digit c = true -> is_white_space c = false.
Proof. intros H. each_digit c H; reflexivity. Qed.

Lemma digit_no_sign (c : code_unit) (r : jsstring) :
  is_digit c = true ->
  match c :: r with
  | 43%N :: r' => (false, r')
  | 45%N :: r' => (true, r')
  | _ => (false, c :: r)
  end = (false, c :: r).
Proof. intros H. each_digit c H; reflexivity. Qed.

Lemma digit_not_Infinity (c : code_unit) (r : jsstring) :
  is_digit c = true -> starts_with (lit "Infinity") (c :: r) = false.
Proof. intros H. each_digit c H; reflexivity. Qed.

(** Reading on after a run of digits. *)
Lemma read_digits_app (a r : jsstring) (acc : N) (cnt : nat) :
  forallb is_digit a = true ->
  read_digits 10 (a ++ r) acc cnt =
  read_digits 10 r (fst (fst (read_digits 10 a acc cnt))) (length a + cnt).
Proof.
  revert acc cnt. induction a as [|c a IH]; intros acc cnt H;
    [reflexivity|].
  cbn [forallb] in H. apply andb_true_iff in H. destruct H as [Hc Ha].
  cbn [app read_digits length]. rewrite (digit_val_digit c Hc).
  rewrite (IH _ _ Ha). f_equal. lia.
Qed.

Lemma split_fixed2_inv (s ip : jsstring) (d1 d2 : code_unit) :
  split_fixed2 s = Some (ip, d1, d2) -> s = ip ++ [46; d1; d2]%N.
Proof.
  unfold split_fixed2. intros H.
  destruct (rev s) as [|x2 [|x1 [|c rip]]] eqn:E; try discriminate.
  destruct (N.eqb c 46) eqn:Ec; [|discriminate].
  apply N.eqb_eq in Ec. subst c. injection H as <- <- <-.
  rewrite <- (rev_involutive s), E. cbn [rev].
  rewrite <- !app_assoc. reflexivity.
Qed.

(** [parseFloat] reads a string of the two-decimal form as its number of
    hundredths over 100. *)
Lemma parseFloat_fixed2 (s : jsstring) (n : N) :
  is_fixed2 s = true -> parse_fixed2 s = Some n ->
  parseFloat s = of_decimal false n (-2).
Proof.
  intros Hf Hp. unfold parse_fixed2 in Hp. unfold is_fixed2 in Hf.
  destruct (split_fixed2 s) as [[[ip d1] d2]|] eqn:E; [|discriminate].
  assert (Hf' : is_fixed2 s = true) by (unfold is_fixed2; rewrite E; exact Hf).
  rewrite Hf' in Hp. injection Hp as Hn.
  apply split_fixed2_inv in E.
  rewrite !andb_true_iff in Hf. destruct Hf as [[[Hne Hip] H1] H2].
  destruct ip as [|c0 ip']; [discriminate|].
  cbn [forallb] in Hip. apply andb_true_iff in Hip. destruct Hip as [Hc0 Hip'].
  assert (Hd12 : forallb is_digit [d1; d2] = true)
    by (cbn [forallb]; rewrite H1, H2; reflexivity).
  assert (Hall : forallb is_digit (c0 :: ip') = true)
    by (cbn [forallb]; rewrite Hc0, Hip'; reflexivity).
  set (iv := fst (fst (read_digits 10 (c0 :: ip') 0 0))) in *.
  assert (Hn' : fst (fst (read_digits 10 [d1; d2] iv 0)) = n).
  { rewrite <- Hn. rewrite (read_digits_app (c0 :: ip') [d1; d2] 0 0 Hall).
    fold iv. apply read_digits_cnt. }
  subst s. unfold parseFloat.
  cbn [app trim_start]. rewrite (digit_not_space c0 Hc0).
  rewrite (digit_no_sign c0 _ Hc0), (digit_not_Infinity c0 _ Hc0).
  change (c0 :: ip' ++ [46; d1; d2]%N) with ((c0 :: ip') ++ [46; d1; d2]%N).
  rewrite (read_digits_app (c0 :: ip') _ 0 0 Hall). fold iv.
  cbn [read_digits]. change (digit_val 10 46%N) with (@None N). cbv iota.
  pose proof (read_digits_app [d1; d2] [] iv 0 Hd12) as R.
  rewrite app_nil_r in R. rewrite R, Hn'.
  cbn [read_digits length Nat.add exponent_prefix]. reflexivity.
Qed.

Lemma bpow_51 : bpow 51 = 2251799813685248%R.
Proof. rewrite bpow_IZR by lia. reflexivity. Qed.

Lemma bpow_m52 : bpow (-52) = (/ 4503599627370496)%R.
Proof. apply (bpow_neg_IZR 52). lia. Qed.

(** Fewer than 2^51 hundredths, read back and rendered again, give the
    same string. *)
Lemma of_decimal_hundredths (n : N) :
  (n < 2 ^ 51)%N ->
  is_nan (of_decimal false n (-2)) = false /\
  toFixed2 (of_decimal false n (-2)) = fixed2 n.
Proof.
  intros Hn. destruct n as [|p]; [split; reflexivity|].
  unfold of_decimal. change (0 <=? -2) with false. cbv iota.
  change (Z.to_pos (10 ^ (- -2))) with 100%positive.
  change (SFdiv prec emax) with div.
  assert (Hp : (1 <= IZR (Zpos p) < 2251799813685248)%R).
  { split; [apply IZR_le; lia|]. apply IZR_lt.
    change 2251799813685248 with (Z.of_N (2 ^ 51)). lia. }
  destruct (div_R false false p 100 0 0) as (e1 & r & Hr & He1 & Hres).
  { rewrite bpow_0, !Rmult_1_r.
    assert (bpow (-1074) <= bpow (-7))%R by (apply bpow_le; lia).
    rewrite bpow_m7 in H. lra. }
  rewrite bpow_0, !Rmult_1_r in Hr, He1.
  set (t := (IZR (Zpos p) / 100)%R) in *.
  assert (Ht : (/ 100 <= t < 22517998136852480 / 1000)%R) by (unfold t; lra).
  pose proof (bpow_pos e1) as Hb.
  assert (Hsmall : (bpow e1 < / 200)%R /\ (bpow e1 < t)%R).
  { destruct He1 as [-> | He1].
    - assert (bpow (-1074) <= bpow (-12))%R by (apply bpow_le; lia).
      rewrite bpow_m12 in H. lra.
    - rewrite bpow_m52 in He1. unfold t in *. lra. }
  cbn [xorb] in Hres.
  destruct Hres as [[Hz _] | (m3 & e3 & Hr3 & Hc & Ha)]; [lra|].
  assert (He3 : e3 <= 971).
  { apply (no_overflow m3 e3 50 Hc); [|lia].
    rewrite <- Hr3. change (50 + 1) with 51. rewrite bpow_51. lra. }
  apply Z.leb_le in He3. change (emax - prec) with 971 in Ha.
  rewrite He3 in Ha. apply Z.leb_le in He3. rewrite Ha.
  split; [reflexivity|].
  assert (V : valid (S754_finite false m3 e3) = true)
    by (apply valid_finite; split; assumption).
  unfold toFixed2. cbn [app].
  rewrite (ge_1e21_small m3 e3 V).
  2:{ rewrite <- Hr3.
      assert (bpow 51 <= bpow 69)%R by (apply bpow_le; lia).
      rewrite bpow_51 in H. lra. }
  f_equal.
  destruct (hundredths_R m3 e3) as [H0 Hh]. rewrite <- Hr3 in Hh.
  apply Rabs_le_inv in Hh.
  assert (Hlt : (IZR (hundredths m3 e3) - IZR (Zpos p) < 1)%R /\
                (IZR (Zpos p) - IZR (hundredths m3 e3) < 1)%R)
    by (unfold t in *; lra).
  destruct Hlt as [Hu Hl].
  rewrite <- minus_IZR in Hu, Hl. apply lt_IZR in Hu, Hl. lia.
Qed.

(** So [TransactionItem] shows such a string as it is. *)
Lemma formattedAmount_fixed2 (n : N) :
  (n < 2 ^ 51)%N -> formattedAmount (String (fixed2 n)) = fixed2 n.
Proof.
  intros Hn. unfold formattedAmount.
  destruct (fixed2_format n) as [Hf Hp].
  rewrite (parseFloat_fixed2 _ _ Hf Hp).
  destruct (of_decimal_hundredths n Hn) as [-> ->]. reflexivity.
Qed.

End ParseFacts.

(** ** The amounts as the screen shows them *)

Import Account FloatFacts FloatRound SettleFacts Screens.

(** The amount string of a pass on balances of moderate size stands for
    fewer than 2^51 hundredths. *)
Lemma moderate_amount_string (c d : entry) :
  owed (balance c) -> owing (balance d) ->
  gt (settle_amount c d) lit_0 = true ->
  exists n, toFixed2 (settle_amount c d) = fixed2 n /\ (n < 2 ^ 51)%N.
Proof.
  intros Hc Hd Hgt.
  pose proof (moderate_amount c d Hc Hd Hgt) as Hge.
  destruct (settle_amount_R c d Hc Hd) as (V & Hform & Hv).
  destruct Hform as [E | (m & e & E)]; rewrite E in *; [discriminate Hgt|].
  exists (Z.to_N (hundredths m e)).
  split; [unfold toFixed2; rewrite Hge; reflexivity|].
  cbn [B2R cond_Zopp] in Hv. apply Rabs_le_inv in Hv.
  destruct Hc as [_ Hc]. rewrite bpow_40 in Hc.
  pose proof (Rmin_l (B2R (balance c)) (- B2R (balance d))) as Hmin.
  destruct (hundredths_R m e) as [H0 Hh]. apply Rabs_le_inv in Hh.
  assert (Hlt : (IZR (hundredths m e) < IZR 2251799813685248)%R) by lra.
  apply lt_IZR in Hlt.
  change (2 ^ 51)%N with (Z.to_N 2251799813685248). lia.
Qed.

(** X7: for balances that are zero or finite and below 2^40 in absolute
    value, the amount [TransactionItem] shows for a transaction of the
    output, [parseFloat(transaction.amount).toFixed(2)], is the amount
    string of the transaction itself. *)
Theorem shown_amount_is_transaction_amount
    (fuel : nat) (expenses : list expense) (members : list jsstring)
    (txs : list transaction) :
  let validMembers := validMembers_of members in
  let balances :=
    balances_of (totalSpent_of expenses validMembers) validMembers in
  forallb moderate (Object_values balances) = true ->
  calculateExpenseSplit fuel (Some expenses) (Some members) = Some txs ->
  Forall (fun t => formattedAmount (String (tx_amount t)) = tx_amount t) txs.
Proof.
  intros vm bal Hmod. unfold calculateExpenseSplit.
  destruct (_ || _); [intros H; injection H as <-; constructor|].
  fold vm. destruct (length vm =? 0)%nat;
    [intros H; injection H as <-; constructor|].
  fold bal. rewrite LoopFacts.loop_of_state.
  destruct (loop_state fuel (initial_state bal)) as [st|] eqn:Eloop;
    [|discriminate].
  intros H. injection H as <-.
  apply (loop_state_transactions _ (creditors_of bal) (debtors_of bal))
    with (fuel := fuel) (st := initial_state bal).
  - intros c d Hc Hd Hgt. cbn [tx_amount].
    destruct (moderate_amount_string c d Hc Hd Hgt) as (n & -> & Hn).
    apply ParseFacts.formattedAmount_fixed2, Hn.
  - apply InitFacts.invariant_initial, Hmod.
  - exact Eloop.
  - constructor.
Qed.

Lemma shown_amount_is_transaction_amount_witness :
  Forall (fun t => formattedAmount (String (tx_amount t)) = tx_amount t)
    [{| from := lit "C"; to := lit "A"; tx_amount := lit "40.00" |};
     {| from := lit "B"; to := lit "A"; tx_amount := lit "10.00" |}].
Proof.
  apply (shown_amount_is_transaction_amount 5
    [{| payer := String (lit "A"); amount := Number (of_Z 90) |};
     {| payer := String (lit "B"); amount := Number (of_Z 30) |}]
    [lit "A"; lit "B"; lit "C"]).
  - vm_compute. reflexivity.
  - vm_compute. reflexivity.
Defined.

(** ** Editing the members *)

Module MemberFacts.
Import Screens.

(** An expense paid under a name that is no valid member adds nothing. *)
Lemma paid_by_skipped (vm : list jsstring) (a : jsstring) (e : expense) :
  ~ In a vm -> paid_by a e = true -> skipped vm e = true.
Proof.
  unfold paid_by, skipped. intros Ha.
  destruct (payer e) as [| | | |p]; try discriminate.
  intros E. apply eqb_eq in E. subst p.
  destruct (includes vm a) eqn:Ei; [|rewrite orb_true_r; reflexivity].
  apply includes_In in Ei. contradiction.
Qed.

Lemma totalSpent_without (vm : list jsstring) (a : jsstring)
    (es : list expense) :
  ~ In a vm ->
  totalSpent_of (filter (fun e => negb (paid_by a e)) es) vm =
  totalSpent_of es vm.
Proof.
  intros Ha. unfold totalSpent_of. generalize (init_totals vm).
  induction es as [|e es IH]; intros ts; [reflexivity|].
  cbn [filter fold_left].
  destruct (paid_by a e) eqn:E; cbn [negb fold_left].
  - rewrite (add_expense_skipped vm ts e (paid_by_skipped vm a e Ha E)).
    apply IH.
  - apply IH.
Qed.

(** The split does not change when the expenses paid under a name that is
    no valid member are taken away. *)
Lemma unknown_payer_dropped (fuel : nat) (es : list expense)
    (ms : list jsstring) (a : jsstring) :
  ~ In a (validMembers_of ms) ->
  calculateExpenseSplit fuel (Some es) (Some ms) =
  calculateExpenseSplit fuel
    (Some (filter (fun e => negb (paid_by a e)) es)) (Some ms).
Proof.
  intros Ha. unfold calculateExpenseSplit.
  set (es' := filter (fun e => negb (paid_by a e)) es).
  destruct (length ms =? 0)%nat; [rewrite !orb_true_r; reflexivity|].
  rewrite !orb_false_r.
  destruct (length es =? 0)%nat eqn:Ees.
  { apply length_eqb_0 in Ees. unfold es'. rewrite Ees. reflexivity. }
  destruct (length (validMembers_of ms) =? 0)%nat eqn:Evm.
  { destruct (length es' =? 0)%nat; reflexivity. }
  unfold es'. rewrite (totalSpent_without _ a es Ha). fold es'.
  destruct (length es' =? 0)%nat eqn:El; [|reflexivity].
  apply length_eqb_0 in El.
  rewrite <- (totalSpent_without _ a es Ha). fold es'. rewrite El.
  apply no_expense_result. intros E. rewrite E in Evm. discriminate.
Qed.

(** *** The updated arrays *)

Lemma elements_some (l : list jsstring) : elements (map Some l) = l.
Proof.
  unfold elements. rewrite map_map. apply map_id.
Qed.

Lemma renamed_elements (ms : list jsstring) (i : nat) (v : jsstring) :
  (i < length ms)%nat ->
  elements (assign (map Some ms) (Some i) v) =
  firstn i ms ++ v :: skipn (S i) ms.
Proof.
  intros Hi. unfold assign. rewrite length_map.
  apply Nat.ltb_lt in Hi. rewrite Hi.
  pose proof (elements_some (firstn i ms)) as E1.
  pose proof (elements_some (skipn (S i) ms)) as E2.
  unfold elements in *. rewrite map_app. cbn [map].
  rewrite firstn_map, skipn_map.
  f_equal; [exact E1 | f_equal; exact E2].
Qed.

Lemma nth_split_at (ms : list jsstring) (i : nat) :
  (i < length ms)%nat ->
  ms = firstn i ms ++ nth i ms [] :: skipn (S i) ms.
Proof.
  revert i. induction ms as [|m ms IH]; intros i Hi;
    [cbn [length] in Hi; lia|].
  destruct i as [|i]; [reflexivity|].
  cbn [firstn nth skipn app]. f_equal. apply IH. cbn [length] in Hi. lia.
Qed.

(** In a list of distinct names the name at [i] occurs nowhere else. *)
Lemma name_elsewhere (ms : list jsstring) (i : nat) :
  NoDup ms -> (i < length ms)%nat ->
  ~ In (nth i ms []) (firstn i ms ++ skipn (S i) ms).
Proof.
  intros Hnd Hi. rewrite (nth_split_at ms i Hi) in Hnd at 1.
  apply NoDup_remove_2 in Hnd. exact Hnd.
Qed.

Lemma filter_index_before (l : list jsstring) (k s : nat) :
  (s < k)%nat ->
  map snd (filter (fun p => negb (fst p =? s)%nat)
                  (combine (seq k (length l)) l)) = l.
Proof.
  revert k. induction l as [|m l IH]; intros k Hk; [reflexivity|].
  cbn [length seq combine filter fst].
  replace (k =? s)%nat with false by (symmetry; apply Nat.eqb_neq; lia).
  cbn [negb map snd]. f_equal. apply IH. lia.
Qed.

Lemma removeMember_from (l : list jsstring) (s i : nat) :
  map snd
    (filter (fun p => negb (fst p =? s + i)%nat)
            (combine (seq s (length l)) l)) =
  firstn i l ++ skipn (S i) l.
Proof.
  revert s i. induction l as [|m l IH]; intros s i;
    [destruct i; reflexivity|].
  cbn [length seq combine filter fst].
  destruct i as [|i].
  - rewrite Nat.add_0_r, Nat.eqb_refl. cbn [negb firstn skipn app].
    apply filter_index_before. lia.
  - replace (s =? s + S i)%nat with false
      by (symmetry; apply Nat.eqb_neq; lia).
    cbn [negb map snd firstn skipn app]. f_equal.
    replace (s + S i)%nat with (S s + i)%nat by lia. apply IH.
Qed.

Lemma removeMember_eq (ms : list jsstring) (i : nat) :
  removeMember ms i = firstn i ms ++ skipn (S i) ms.
Proof. unfold removeMember. apply (removeMember_from ms 0 i). Qed.

(** A name that is not made of white space only stays so when trimmed. *)
Lemma trimmed_valid (s : jsstring) :
  JSStr.eqb (trim s) [] = false -> valid_member (trim s) = true.
Proof.
  rewrite trim_nil. intros H. rewrite valid_member_spec.
  unfold trim.
  rewrite whitespace_only_rev, trim_start_whitespace_only,
    whitespace_only_rev, trim_start_whitespace_only, H.
  reflexivity.
Qed.

End MemberFacts.

(** ** The split after a member is renamed or removed *)

Import Screens MemberFacts.

(** X8: in a group of distinct names, when [saveRenamedMember] gives the
    member at an index a name other than the one it had, the split it then
    computes on the expenses it holds is the split on the expenses without
    those paid under the old name: what that member paid no longer
    counts. *)
Theorem rename_drops_expenses_of_old_name
    (fuel : nat) (expenses : list expense) (groupMembers : list jsstring)
    (index : nat) (editingMemberName : jsstring) (updatedMembers : array) :
  NoDup groupMembers ->
  (index < length groupMembers)%nat ->
  saveRenamedMember groupMembers (Some index) editingMemberName
    = Some updatedMembers ->
  trim editingMemberName <> nth index groupMembers [] ->
  calculateExpenseSplit fuel (Some expenses)
    (Some (elements updatedMembers)) =
  calculateExpenseSplit fuel
    (Some (filter (fun e => negb (paid_by (nth index groupMembers []) e))
                  expenses))
    (Some (elements updatedMembers)).
Proof.
  intros Hnd Hi Hsave Hnew. unfold saveRenamedMember in Hsave.
  destruct (negb _); [|discriminate].
  assert (E : updatedMembers =
              assign (map Some groupMembers) (Some index)
                     (trim editingMemberName)) by congruence.
  rewrite E. clear E Hsave.
  rewrite (renamed_elements _ _ _ Hi).
  apply unknown_payer_dropped. intros Hin.
  apply filter_In in Hin. destruct Hin as [Hin _].
  apply (name_elsewhere groupMembers index Hnd Hi).
  apply in_app_or in Hin. apply in_or_app.
  destruct Hin as [Hin | [E | Hin]]; [left; exact Hin | | right; exact Hin].
  congruence.
Qed.

Lemma rename_drops_expenses_of_old_name_witness :
  let expenses :=
    [{| payer := String (lit "A"); amount := Number (of_Z 90) |};
     {| payer := String (lit "B"); amount := Number (of_Z 30) |}] in
  let updatedMembers := [Some (lit "Ann"); Some (lit "B"); Some (lit "C")] in
  calculateExpenseSplit 5 (Some expenses) (Some (elements updatedMembers)) =
  calculateExpenseSplit 5
    (Some (filter (fun e => negb (paid_by (nth 0 [lit "A"; lit "B"; lit "C"]
                                               []) e)) expenses))
    (Some (elements updatedMembers)).
Proof.
  intros expenses updatedMembers.
  apply (rename_drops_expenses_of_old_name 5 expenses
           [lit "A"; lit "B"; lit "C"] 0 (lit " Ann ") updatedMembers).
  - repeat (constructor;
            [cbn [In]; intros H;
             repeat (destruct H as [H | H]; [discriminate H|]); exact H|]).
    constructor.
  - cbn [length]. lia.
  - vm_compute. reflexivity.
  - vm_compute. discriminate.
Defined.

(** X9: in a group of distinct names, the split [removeMember] computes
    after it has taken the member at an index off the list is the split on
    the expenses without those that member paid. *)
Theorem removal_drops_expenses_of_member
    (fuel : nat) (expenses : list expense) (groupMembers : list jsstring)
    (index : nat) :
  NoDup groupMembers ->
  (index < length groupMembers)%nat ->
  calculateExpenseSplit fuel (Some expenses)
    (Some (removeMember groupMembers index)) =
  calculateExpenseSplit fuel
    (Some (filter (fun e => negb (paid_by (nth index groupMembers []) e))
                  expenses))
    (Some (removeMember groupMembers index)).
Proof.
  intros Hnd Hi. rewrite removeMember_eq.
  apply unknown_payer_dropped. intros Hin.
  apply filter_In in Hin. destruct Hin as [Hin _].
  exact (name_elsewhere groupMembers index Hnd Hi Hin).
Qed.

Lemma removal_drops_expenses_of_member_witness :
  let expenses :=
    [{| payer := String (lit "A"); amount := Number (of_Z 90) |};
     {| payer := String (lit "B"); amount := Number (of_Z 30) |}] in
  let groupMembers := [lit "A"; lit "B"; lit "C"] in
  calculateExpenseSplit 5 (Some expenses)
    (Some (removeMember groupMembers 1)) =
  calculateExpenseSplit 5
    (Some (filter (fun e => negb (paid_by (nth 1 groupMembers []) e))
                  expenses))
    (Some (removeMember groupMembers 1)).
Proof.
  intros expenses groupMembers.
  apply (removal_drops_expenses_of_member 5 expenses groupMembers 1).
  - repeat (constructor;
            [cbn [In]; intros H;
             repeat (destruct H as [H | H]; [discriminate H|]); exact H|]).
    constructor.
  - unfold groupMembers. cbn [length]. lia.
Defined.

(** X10: when every name of the group passes the filter of
    [calculateExpenseSplit], so does every name of the array
    [saveRenamedMember] makes: the filter keeps the whole array, which has
    the length it had and the trimmed name at the index. *)
Theorem rename_keeps_names_valid
    (groupMembers : list jsstring) (index : nat)
    (editingMemberName : jsstring) (updatedMembers : array) :
  forallb valid_member groupMembers = true ->
  (index < length groupMembers)%nat ->
  saveRenamedMember groupMembers (Some index) editingMemberName
    = Some updatedMembers ->
  validMembers_of (elements updatedMembers) = elements updatedMembers /\
  length (elements updatedMembers) = length groupMembers /\
  nth index (elements updatedMembers) [] = trim editingMemberName.
Proof.
  intros Hall Hi Hsave. unfold saveRenamedMember in Hsave.
  destruct (negb _) eqn:Et; [|discriminate].
  assert (E : updatedMembers =
              assign (map Some groupMembers) (Some index)
                     (trim editingMemberName)) by congruence.
  rewrite E. clear E Hsave.
  apply negb_true_iff in Et.
  rewrite (renamed_elements _ _ _ Hi).
  pose proof (nth_split_at groupMembers index Hi) as Hsplit.
  assert (Hlen : length (firstn index groupMembers) = index)
    by (rewrite length_firstn; lia).
  rewrite Hsplit in Hall at 1.
  rewrite forallb_app in Hall. cbn [forallb] in Hall.
  rewrite !andb_true_iff in Hall. destruct Hall as (Ha & _ & Hb).
  split; [|split].
  - unfold validMembers_of.
    assert (G : forall l, forallb valid_member l = true ->
                          filter valid_member l = l).
    { induction l as [|m l IH]; [reflexivity|].
      cbn [forallb filter]. rewrite andb_true_iff. intros [-> Hl].
      f_equal. apply IH, Hl. }
    apply G. rewrite forallb_app. cbn [forallb].
    rewrite Ha, Hb, (trimmed_valid _ Et). reflexivity.
  - rewrite Hsplit at 3. rewrite !length_app. reflexivity.
  - rewrite <- Hlen at 1. apply nth_middle.
Qed.

Lemma rename_keeps_names_valid_witness :
  let updatedMembers := [Some (lit "A"); Some (lit "Bo"); Some (lit "C")] in
  validMembers_of (elements updatedMembers) = elements updatedMembers /\
  length (elements updatedMembers) = length [lit "A"; lit "B"; lit "C"] /\
  nth 1 (elements updatedMembers) [] = trim (lit "  Bo ").
Proof.
  intros updatedMembers.
  apply (rename_keeps_names_valid [lit "A"; lit "B"; lit "C"] 1
           (lit "  Bo ") updatedMembers).
  - vm_compute. reflexivity.
  - cbn [length]. lia.
  - vm_compute. reflexivity.
Defined.
